(** * Markdown Notes CLI (notes.go): a shallow embedding and its properties

    The program keeps one JSON file per note in the directory [notes_db].
    This development embeds the functions of [notes.go] as executable Rocq
    definitions over an explicit model of the directory, and states the
    properties of the storage layer, of tag mutation, of search and of the
    HTML export as theorems about these definitions.

    Conventions.
    - A Go [string] is a sequence of bytes: [string] of Rocq, one [ascii]
      per byte.  Runes are code points in [N].
    - A Go [int] is a 64-bit signed integer: a [Z] together with the
      wrap-around [wrap64] wherever the source does arithmetic.
    - Functions of the Go standard library that the program calls are
      modelled by definitions named [package_Function]. *)

From Stdlib Require Import ZArith NArith Ascii String List.
From Stdlib Require Import Lia.
From stdpp Require Import base decidable option list sorting gmap strings.

Local Open Scope string_scope.
Local Open Scope Z_scope.

(** String concatenation computes by [simpl] on a literal first argument. *)
#[local] Arguments String.append !s1 s2 : simpl nomatch.

(* ================================================================== *)
(** * Part I: the model *)
(* ================================================================== *)

(** ** Bytes and 64-bit integers *)

Definition byte_of (n : N) : ascii := ascii_of_N n.
Definition code (c : ascii) : N := N_of_ascii c.

Definition str_of_bytes (l : list N) : string :=
  string_of_list_ascii (map byte_of l).

Definition minInt64 : Z := - 2 ^ 63.
Definition maxInt64 : Z := 2 ^ 63 - 1.

Definition in_int64 (z : Z) : Prop := minInt64 <= z <= maxInt64.

(** Two's complement wrap-around of Go's [int] arithmetic. *)
Definition wrap64 (z : Z) : Z := (z + 2 ^ 63) mod 2 ^ 64 - 2 ^ 63.

(** ** Package [unicode/utf8] *)

Definition RuneError : N := 0xFFFD%N.

Definition is_cont (c : ascii) : bool :=
  ((0x80 <=? code c) && (code c <=? 0xBF))%N.

Definition in_range (lo hi : N) (c : ascii) : bool :=
  ((lo <=? code c) && (code c <=? hi))%N.

(** [utf8.DecodeRuneInString]: the first rune of [s] and its width in
    bytes; [(RuneError, 1)] on an invalid or truncated encoding, and
    [(RuneError, 0)] on the empty string. *)
Definition utf8_DecodeRune (s : string) : N * nat :=
  match s with
  | EmptyString => (RuneError, 0%nat)
  | String c0 r0 =>
    let x := code c0 in
    if (x <? 0x80)%N then (x, 1%nat)
    else if in_range 0xC2 0xDF c0 then
      match r0 with
      | String c1 _ =>
        if is_cont c1
        then (((x - 0xC0) * 64 + (code c1 - 0x80))%N, 2%nat)
        else (RuneError, 1%nat)
      | _ => (RuneError, 1%nat)
      end
    else if in_range 0xE0 0xEF c0 then
      match r0 with
      | String c1 (String c2 _) =>
        let lo := if (x =? 0xE0)%N then 0xA0%N else 0x80%N in
        let hi := if (x =? 0xED)%N then 0x9F%N else 0xBF%N in
        if in_range lo hi c1 && is_cont c2
        then ((((x - 0xE0) * 64 + (code c1 - 0x80)) * 64
               + (code c2 - 0x80))%N, 3%nat)
        else (RuneError, 1%nat)
      | _ => (RuneError, 1%nat)
      end
    else if in_range 0xF0 0xF4 c0 then
      match r0 with
      | String c1 (String c2 (String c3 _)) =>
        let lo := if (x =? 0xF0)%N then 0x90%N else 0x80%N in
        let hi := if (x =? 0xF4)%N then 0x8F%N else 0xBF%N in
        if in_range lo hi c1 && is_cont c2 && is_cont c3
        then (((((x - 0xF0) * 64 + (code c1 - 0x80)) * 64
                + (code c2 - 0x80)) * 64 + (code c3 - 0x80))%N, 4%nat)
        else (RuneError, 1%nat)
      | _ => (RuneError, 1%nat)
      end
    else (RuneError, 1%nat)
  end.

(** [utf8.EncodeRune] (as [utf8.AppendRune]): surrogates and values
    above U+10FFFF are written as U+FFFD. *)
Definition utf8_EncodeRune (r : N) : string :=
  let r := if ((0xD800 <=? r) && (r <=? 0xDFFF) || (0x10FFFF <? r))%N
           then RuneError else r in
  if (r <? 0x80)%N then str_of_bytes [r]
  else if (r <? 0x800)%N then
    str_of_bytes [0xC0 + r / 64; 0x80 + r mod 64]%N
  else if (r <? 0x10000)%N then
    str_of_bytes [0xE0 + r / 4096; 0x80 + (r / 64) mod 64; 0x80 + r mod 64]%N
  else
    str_of_bytes [0xF0 + r / 262144; 0x80 + (r / 4096) mod 64;
                  0x80 + (r / 64) mod 64; 0x80 + r mod 64]%N.

(** [utf8.RuneStart]: the byte is not a continuation byte. *)
Definition utf8_RuneStart (c : ascii) : bool := negb (is_cont c).

(** [utf8.DecodeLastRuneInString], on the bytes of [s] in reverse order
    (last byte first).  From the byte before the last it steps back over
    at most three bytes to the nearest rune start ([start] stops at the
    beginning of the string, or one byte before the limit when no rune
    start is found) and decodes forward from there; the rune counts
    only if it ends exactly at the end of the string. *)
Definition decode_to_end (fwd : string) : N * nat :=
  let '(r, size) := utf8_DecodeRune fwd in
  if Nat.eqb size (String.length fwd) then (r, size) else (RuneError, 1%nat).

Definition utf8_DecodeLastRune_rev (rs : string) : N * nat :=
  match rs with
  | EmptyString => (RuneError, 0%nat)
  | String c0 r0 =>
    if (code c0 <? 0x80)%N then (code c0, 1%nat)
    else
      let s1 := String c0 "" in
      match r0 with
      | EmptyString => decode_to_end s1
      | String c1 r1 =>
        let s2 := String c1 s1 in
        if utf8_RuneStart c1 then decode_to_end s2
        else match r1 with
        | EmptyString => decode_to_end s2
        | String c2 r2 =>
          let s3 := String c2 s2 in
          if utf8_RuneStart c2 then decode_to_end s3
          else match r2 with
          | EmptyString => decode_to_end s3
          | String c3 r3 =>
            let s4 := String c3 s3 in
            if utf8_RuneStart c3 then decode_to_end s4
            else match r3 with
            | EmptyString => decode_to_end s4
            | String c4 _ => decode_to_end (String c4 s4)
            end
          end
        end
      end
  end.

(** The runes of a string, as a [range] loop over it sees them, with the
    bytes of each. *)
Fixpoint runes_fuel (fuel : nat) (s : string) : list (N * string) :=
  match fuel with
  | O => []
  | S fuel' =>
    match s with
    | EmptyString => []
    | _ =>
      let '(r, size) := utf8_DecodeRune s in
      (r, substring 0 size s)
        :: runes_fuel fuel' (substring size (String.length s - size) s)
    end
  end.

Definition runes (s : string) : list (N * string) :=
  runes_fuel (String.length s) s.

(** [utf8.ValidString]. *)
Definition utf8_ValidString (s : string) : bool :=
  forallb (fun p => negb ((fst p =? RuneError)%N
                          && Nat.eqb (String.length (snd p)) 1)) (runes s).

(** ** Package [unicode] *)

(** [unicode.IsSpace]: the Latin-1 spaces and the [White_Space] table. *)
Definition unicode_IsSpace (r : N) : bool :=
  if (r <=? 0xFF)%N then
    ((r =? 0x09) || (r =? 0x0A) || (r =? 0x0B) || (r =? 0x0C) || (r =? 0x0D)
     || (r =? 0x20) || (r =? 0x85) || (r =? 0xA0))%N
  else
    ((r =? 0x1680) || ((0x2000 <=? r) && (r <=? 0x200A))
     || (r =? 0x2028) || (r =? 0x2029) || (r =? 0x202F) || (r =? 0x205F)
     || (r =? 0x3000))%N.

(** ** Package [strings] *)

Definition drop_bytes (k : nat) (s : string) : string :=
  substring k (String.length s - k) s.

Fixpoint strings_HasPrefix (s pre : string) {struct pre} : bool :=
  match pre with
  | EmptyString => true
  | String p pre' =>
    match s with
    | String c s' => bool_decide (c = p) && strings_HasPrefix s' pre'
    | EmptyString => false
    end
  end.

Definition strings_HasSuffix (s suf : string) : bool :=
  strings_HasPrefix (String.rev s) (String.rev suf).

Definition strings_TrimPrefix (s pre : string) : string :=
  if strings_HasPrefix s pre then drop_bytes (String.length pre) s else s.

Fixpoint strings_Contains (s sub : string) : bool :=
  strings_HasPrefix s sub ||
  match s with
  | EmptyString => false
  | String _ s' => strings_Contains s' sub
  end.

Fixpoint strings_Join (elems : list string) (sep : string) : string :=
  match elems with
  | [] => ""
  | [x] => x
  | x :: rest => x ++ sep ++ strings_Join rest sep
  end.

(** [strings.Split] for a non-empty separator.  [skip] counts the bytes of
    a separator just matched that are still to be passed over, [cur] is
    the piece being collected, in reverse. *)
Fixpoint split_go (sep : string) (skip : nat) (cur : string) (s : string)
  : list string :=
  match s with
  | EmptyString => [String.rev cur]
  | String c r =>
    match skip with
    | S k => split_go sep k cur r
    | O =>
      if strings_HasPrefix s sep
      then String.rev cur :: split_go sep (String.length sep - 1) "" r
      else split_go sep 0 (String c cur) r
    end
  end.

Definition strings_Split (s sep : string) : list string :=
  split_go sep 0 "" s.

(** [strings.TrimLeftFunc s unicode.IsSpace]: drop leading space runes. *)
Fixpoint trim_left_fuel (fuel : nat) (s : string) : string :=
  match fuel with
  | O => s
  | S fuel' =>
    match s with
    | EmptyString => ""
    | _ =>
      let '(r, size) := utf8_DecodeRune s in
      if unicode_IsSpace r then trim_left_fuel fuel' (drop_bytes size s) else s
    end
  end.

(** [strings.TrimRightFunc s unicode.IsSpace], on the reversed string:
    drop trailing space runes, found with [utf8.DecodeLastRuneInString]. *)
Fixpoint trim_right_fuel (fuel : nat) (rs : string) : string :=
  match fuel with
  | O => rs
  | S fuel' =>
    match rs with
    | EmptyString => ""
    | _ =>
      let '(r, size) := utf8_DecodeLastRune_rev rs in
      if unicode_IsSpace r then trim_right_fuel fuel' (drop_bytes size rs)
      else rs
    end
  end.

(** [strings.TrimSpace]: its ASCII fast path and its fall-back to
    [TrimFunc] agree with trimming space runes on both sides. *)
Definition strings_TrimSpace (s : string) : string :=
  let l := trim_left_fuel (String.length s) s in
  String.rev (trim_right_fuel (String.length l) (String.rev l)).

Definition is_ascii_string (s : string) : bool :=
  forallb (fun c => (code c <? 0x80)%N) (list_ascii_of_string s).

Definition lower_byte (c : ascii) : ascii :=
  if in_range 0x41 0x5A c then byte_of (code c + 0x20) else c.

Fixpoint map_bytes (f : ascii -> ascii) (s : string) : string :=
  match s with
  | EmptyString => ""
  | String c r => String (f c) (map_bytes f r)
  end.

Section LowerCase.
(** The lower-case mapping of Go's table [unicode.CaseRanges] for the
    runes above U+007F.  The table is data of the Go library; the model
    takes it as a parameter. *)
Variable case_table : N -> N.

(** [unicode.ToLower]. *)
Definition unicode_ToLower (r : N) : N :=
  if (r <=? 0x7F)%N then
    (if ((0x41 <=? r) && (r <=? 0x5A))%N then r + 0x20 else r)%N
  else case_table r.

(** [strings.ToLower]: bytes are mapped one by one when the string is
    pure ASCII; otherwise [strings.Map unicode.ToLower] re-encodes
    every rune, an invalid byte becoming U+FFFD. *)
Definition strings_ToLower (s : string) : string :=
  if is_ascii_string s then map_bytes lower_byte s
  else
    fold_right (fun p acc => utf8_EncodeRune (unicode_ToLower (fst p)) ++ acc)
               "" (runes s).
End LowerCase.

(** ** Packages [strconv] and [fmt] *)

Definition digit_char (n : N) : ascii := byte_of (0x30 + n).

(** Decimal digits of a natural number, without leading zeros: the
    division loop of [strconv.FormatInt]. *)
Fixpoint decimal_fuel (fuel : nat) (n : N) : string :=
  match fuel with
  | O => ""
  | S fuel' =>
    if (n <? 10)%N then String (digit_char n) ""
    else decimal_fuel fuel' (n / 10) ++ String (digit_char (n mod 10)) ""
  end.

Definition decimal (n : N) : string :=
  decimal_fuel (S (N.to_nat (N.log2 n))) n.

Fixpoint repeat_byte (c : ascii) (k : nat) : string :=
  match k with
  | O => ""
  | S k' => String c (repeat_byte c k')
  end.

Definition pad_left (c : ascii) (width : nat) (s : string) : string :=
  repeat_byte c (width - String.length s) ++ s.

(** [fmt]'s verb [%d] with a width, and with the flag [0] when [zero] is
    set: with zero padding the sign takes one column of the width. *)
Definition fmt_d (zero : bool) (width : nat) (z : Z) : string :=
  let neg := z <? 0 in
  let ds := decimal (Z.abs_N z) in
  if zero then
    let body := pad_left "0" (if neg then width - 1 else width) ds in
    if neg then "-" ++ body else body
  else pad_left " " width (if neg then "-" ++ ds else ds).

Definition is_digit (c : ascii) : bool := in_range 0x30 0x39 c.

Definition digits_value (s : string) : N :=
  fold_left (fun acc c => (acc * 10 + (code c - 0x30))%N)
            (list_ascii_of_string s) 0%N.

Definition all_digits (s : string) : bool :=
  forallb is_digit (list_ascii_of_string s).

(** [strconv.Atoi]: an optional sign and decimal digits, within the range
    of [int]; [None] stands for its [*NumError]. *)
Definition strconv_Atoi (s : string) : option Z :=
  let '(neg, ds) :=
    match s with
    | String "-" r => (true, r)
    | String "+" r => (false, r)
    | _ => (false, s)
    end in
  match ds with
  | EmptyString => None
  | _ =>
    if all_digits ds then
      let v := Z.of_N (digits_value ds) in
      let z := if neg then - v else v in
      if (minInt64 <=? z) && (z <=? maxInt64) then Some z else None
    else None
  end.

(** ** Package [time] *)

(** A [time.Time] as the calendar reading it prints: date and clock in its
    own zone, and the zone's offset east of UTC in minutes ([0] for UTC). *)
Record time_Time := {
  t_year : Z; t_month : N; t_day : N;
  t_hour : N; t_minute : N; t_second : N; t_nsec : N;
  t_zone : Z
}.

(** The zero [time.Time]: January 1, year 1, 00:00:00 UTC. *)
Definition time_zero : time_Time :=
  {| t_year := 1; t_month := 1; t_day := 1; t_hour := 0; t_minute := 0;
     t_second := 0; t_nsec := 0; t_zone := 0 |}.

Definition is_leap (y : Z) : bool :=
  (y mod 4 =? 0) && (negb (y mod 100 =? 0) || (y mod 400 =? 0)).

Definition daysIn (m : N) (y : Z) : N :=
  (if (m =? 2) then (if is_leap y then 29 else 28)
   else if (m =? 4) || (m =? 6) || (m =? 9) || (m =? 11) then 30 else 31)%N.

Definition digits_w (width : nat) (n : N) : string :=
  pad_left "0" width (decimal n).

Fixpoint strip_zeros_rev (rs : string) : string :=
  match rs with
  | String "0" r => strip_zeros_rev r
  | _ => rs
  end.

(** The fraction of layout [.999999999]: nothing for zero nanoseconds,
    otherwise nine digits without the trailing zeros. *)
Definition frac_string (ns : N) : string :=
  if (ns =? 0)%N then ""
  else "." ++ String.rev (strip_zeros_rev (String.rev (digits_w 9 ns))).

Definition zone_string (z : Z) : string :=
  if z =? 0 then "Z"
  else (if z <? 0 then "-" else "+")
       ++ digits_w 2 (Z.abs_N z / 60) ++ ":" ++ digits_w 2 (Z.abs_N z mod 60).

(** [Time.MarshalJSON] without the quotes: layout [RFC3339Nano]; an
    error for a year outside 0..9999 or a zone hour outside 0..23. *)
Definition time_format (t : time_Time) : option string :=
  if (t_year t <? 0) || (9999 <? t_year t) || (24 * 60 <=? Z.abs (t_zone t))
  then None
  else Some (digits_w 4 (Z.to_N (t_year t)) ++ "-" ++ digits_w 2 (t_month t)
             ++ "-" ++ digits_w 2 (t_day t) ++ "T" ++ digits_w 2 (t_hour t)
             ++ ":" ++ digits_w 2 (t_minute t) ++ ":" ++ digits_w 2 (t_second t)
             ++ frac_string (t_nsec t) ++ zone_string (t_zone t)).

(** The closure [parseUint] of [parseRFC3339]. *)
Definition parseUint (s : string) (lo hi : N) : option N :=
  if all_digits s then
    let x := digits_value s in
    if ((lo <=? x) && (x <=? hi))%N then Some x else None
  else None.

Fixpoint span_digits (s : string) : string * string :=
  match s with
  | String c r =>
    if is_digit c then let '(d, rest) := span_digits r in (String c d, rest)
    else ("", s)
  | EmptyString => ("", "")
  end.

(** [parseNanoseconds]: at most nine digits count. *)
Definition parse_nanos (ds : string) : N :=
  let d9 := substring 0 9 ds in
  (digits_value d9 * 10 ^ N.of_nat (9 - String.length d9))%N.

Definition byte_at (i : nat) (s : string) : option ascii := String.get i s.

(** [parseRFC3339], the parser behind [Time.UnmarshalJSON]. *)
Definition time_parse (s : string) : option time_Time :=
  if (String.length s <? 19)%nat then None else
  y ← parseUint (substring 0 4 s) 0 9999;
  mo ← parseUint (substring 5 2 s) 1 12;
  d ← parseUint (substring 8 2 s) 1 (daysIn mo (Z.of_N y));
  h ← parseUint (substring 11 2 s) 0 23;
  mi ← parseUint (substring 14 2 s) 0 59;
  se ← parseUint (substring 17 2 s) 0 59;
  if negb (bool_decide (byte_at 4 s = Some "-"%char)
           && bool_decide (byte_at 7 s = Some "-"%char)
           && bool_decide (byte_at 10 s = Some "T"%char)
           && bool_decide (byte_at 13 s = Some ":"%char)
           && bool_decide (byte_at 16 s = Some ":"%char))
  then None else
  let rest := drop_bytes 19 s in
  let '(ns, rest) :=
    match rest with
    | String "." (String c r) =>
      if is_digit c
      then let '(ds, rest') := span_digits (String c r) in (parse_nanos ds, rest')
      else (0%N, rest)
    | _ => (0%N, rest)
    end in
  let mk z := {| t_year := Z.of_N y; t_month := mo; t_day := d; t_hour := h;
                 t_minute := mi; t_second := se; t_nsec := ns; t_zone := z |} in
  if bool_decide (rest = "Z") then Some (mk 0)
  else if negb (String.length rest =? 6)%nat then None else
    zh ← parseUint (substring 1 2 rest) 0 23;
    zm ← parseUint (substring 4 2 rest) 0 59;
    let off := Z.of_N (zh * 60 + zm) in
    if bool_decide (byte_at 3 rest = Some ":"%char) then
      if bool_decide (byte_at 0 rest = Some "-"%char) then Some (mk (- off))
      else if bool_decide (byte_at 0 rest = Some "+"%char) then Some (mk off)
      else None
    else None.

(** ** The note record *)

Record Note := {
  ID : Z;
  Title : string;
  Body : string;
  Tags : list string;
  Created : time_Time
}.

(** The zero value of [Note], what [var n Note] declares. *)
Definition zeroNote : Note :=
  {| ID := 0; Title := ""; Body := ""; Tags := []; Created := time_zero |}.

(** ** Package [encoding/json]: encoding *)

(** The quotation mark, as a byte and as a string. *)
Definition dquote : ascii := byte_of 34.
Definition qt : string := String dquote "".

(** An object key as [json.MarshalIndent] writes it: quoted, followed by
    a colon and a blank. *)
Definition json_key (k : string) : string := qt ++ k ++ qt ++ ": ".

(** The two bytes that open a [u] escape. *)
Definition esc_u : string := String "\" (String "u" "").

Definition hex_digit (n : N) : ascii :=
  if (n <? 10)%N then byte_of (0x30 + n) else byte_of (0x61 + (n - 10)).

(** One byte below 0x80 inside a JSON string, with HTML escaping on, as
    [json.Marshal] has it. *)
Definition escape_byte (c : ascii) : string :=
  let x := code c in
  if bool_decide (c = dquote) then String "\" qt
  else if bool_decide (c = "\"%char) then "\\"
  else if (x =? 0x08)%N then "\b"
  else if (x =? 0x0C)%N then "\f"
  else if (x =? 0x0A)%N then "\n"
  else if (x =? 0x0D)%N then "\r"
  else if (x =? 0x09)%N then "\t"
  else if (x <? 0x20)%N || bool_decide (c = "<"%char)
          || bool_decide (c = ">"%char) || bool_decide (c = "&"%char)
  then esc_u ++ "00" ++ String (hex_digit (x / 16)) (String (hex_digit (x mod 16)) "")
  else String c "".

(** One rune of the source string with its bytes: an invalid byte is
    written as the escape of U+FFFD, the line separators U+2028 and U+2029 are escaped,
    any other rune is copied. *)
Definition escape_rune (p : N * string) : string :=
  let '(r, bs) := p in
  match bs with
  | String c EmptyString =>
    if (code c <? 0x80)%N then escape_byte c else esc_u ++ "fffd"
  | _ =>
    if (r =? 0x2028)%N then esc_u ++ "2028"
    else if (r =? 0x2029)%N then esc_u ++ "2029"
    else bs
  end.

(** A Go string as a JSON string literal. *)
Definition json_quote (s : string) : string :=
  qt ++ fold_right (fun p acc => escape_rune p ++ acc) "" (runes s) ++ qt.

Definition newline : string := String (byte_of 10) "".

(** [json.MarshalIndent n "" "  "] for a [Note]: [None] when
    [Time.MarshalJSON] fails.  An empty [Tags] slice is written [[]]. *)
Definition json_tags (tags : list string) : string :=
  match tags with
  | [] => "[]"
  | _ =>
    "[" ++ newline ++ "    "
    ++ strings_Join (map json_quote tags) ("," ++ newline ++ "    ")
    ++ newline ++ "  ]"
  end.

Definition json_MarshalIndent (n : Note) : option string :=
  c ← time_format (Created n);
  Some ("{" ++ newline
        ++ "  " ++ json_key "id" ++ (if ID n <? 0 then "-" else "")
        ++ decimal (Z.abs_N (ID n)) ++ "," ++ newline
        ++ "  " ++ json_key "title" ++ json_quote (Title n) ++ "," ++ newline
        ++ "  " ++ json_key "body" ++ json_quote (Body n) ++ "," ++ newline
        ++ "  " ++ json_key "tags" ++ json_tags (Tags n) ++ "," ++ newline
        ++ "  " ++ json_key "created" ++ qt ++ c ++ qt ++ newline
        ++ "}").

(** ** Package [encoding/json]: decoding *)

#[local] Set Warnings "-register-all".

(** A parsed JSON text.  Strings and object keys are kept as they stand
    between their quotes, numbers as their literal. *)
Inductive json :=
  | JNull
  | JBool (b : bool)
  | JNumber (lit : string)
  | JString (raw : string)
  | JArray (elems : list json)
  | JObject (members : list (string * json)).

Definition is_some {A} (o : option A) : bool :=
  match o with Some _ => true | None => false end.

Definition is_json_space (c : ascii) : bool :=
  bool_decide (c = " "%char) || (code c =? 0x09)%N || (code c =? 0x0D)%N
  || (code c =? 0x0A)%N.

Fixpoint skip_ws (s : string) : string :=
  match s with
  | String c r => if is_json_space c then skip_ws r else s
  | EmptyString => ""
  end.

Definition hex_value (c : ascii) : option N :=
  if is_digit c then Some (code c - 0x30)%N
  else if in_range 0x61 0x66 c then Some (code c - 0x61 + 10)%N
  else if in_range 0x41 0x46 c then Some (code c - 0x41 + 10)%N
  else None.

(** [getu4]: the value of [\uXXXX] at the head of [s]. *)
Definition getu4 (s : string) : option N :=
  match s with
  | String "\" (String "u" (String a (String b (String c (String d _))))) =>
    va ← hex_value a; vb ← hex_value b; vc ← hex_value c; vd ← hex_value d;
    Some (((va * 16 + vb) * 16 + vc) * 16 + vd)%N
  | _ => None
  end.

(** The scanner's view of a string literal: [s] starts after the opening
    quote; the result is the raw text before the closing quote and the
    input after it.  Control bytes and bad escapes are syntax errors. *)
Fixpoint scan_string (s : string) : option (string * string) :=
  match s with
  | EmptyString => None
  | String c r =>
    if bool_decide (c = dquote) then Some ("", r)
    else if (code c <? 0x20)%N then None
    else if bool_decide (c = "\"%char) then
      match r with
      | String e r' =>
        if bool_decide (e = "u"%char) then
          match r' with
          | String h1 (String h2 (String h3 (String h4 r'')))  =>
            if is_some (hex_value h1) && is_some (hex_value h2)
               && is_some (hex_value h3) && is_some (hex_value h4)
            then '(raw, rest) ← scan_string r'';
                 Some (String c (String e (String h1 (String h2
                        (String h3 (String h4 raw))))), rest)
            else None
          | _ => None
          end
        else if existsb (fun x => bool_decide (e = x))
                  (dquote :: list_ascii_of_string "\/bfnrt")
        then '(raw, rest) ← scan_string r';
             Some (String c (String e raw), rest)
        else None
      | EmptyString => None
      end
    else '(raw, rest) ← scan_string r; Some (String c raw, rest)
  end.

(** A number literal at the head of [s]: an optional minus, an integer
    part without leading zeros, an optional fraction and exponent. *)
Definition scan_number (s : string) : option (string * string) :=
  let '(sign, s1) :=
    match s with String "-" r => ("-", r) | _ => ("", s) end in
  '(int, s2) ←
    match s1 with
    | String "0" r => Some ("0", r)
    | String c _ =>
      if is_digit c then Some (span_digits s1) else None
    | EmptyString => None
    end;
  '(frac, s3) ←
    match s2 with
    | String "." r =>
      let '(ds, r') := span_digits r in
      match ds with EmptyString => None | _ => Some ("." ++ ds, r') end
    | _ => Some ("", s2)
    end;
  '(ex, s4) ←
    match s3 with
    | String e r =>
      if bool_decide (e = "e"%char) || bool_decide (e = "E"%char) then
        let '(sg, r1) :=
          match r with
          | String "+" r1 => ("+", r1)
          | String "-" r1 => ("-", r1)
          | _ => ("", r)
          end in
        let '(ds, r2) := span_digits r1 in
        match ds with
        | EmptyString => None
        | _ => Some (String e (sg ++ ds), r2)
        end
      else Some ("", s3)
    | EmptyString => Some ("", s3)
    end;
  Some (sign ++ int ++ frac ++ ex, s4).

(** The JSON grammar as [encoding/json]'s scanner accepts it.  Every call
    uses up one unit of [fuel]; [json_parse] supplies enough for any
    text of the given length. *)
Fixpoint parse_value (fuel : nat) (s : string) : option (json * string) :=
  match fuel with
  | O => None
  | S f =>
    match skip_ws s with
    | EmptyString => None
    | String c r =>
      if bool_decide (c = "{"%char) then
        match skip_ws r with
        | String "}" r' => Some (JObject [], r')
        | _ => '(ms, r') ← parse_members f r; Some (JObject ms, r')
        end
      else if bool_decide (c = "["%char) then
        match skip_ws r with
        | String "]" r' => Some (JArray [], r')
        | _ => '(vs, r') ← parse_elems f r; Some (JArray vs, r')
        end
      else if bool_decide (c = dquote) then
        '(raw, r') ← scan_string r; Some (JString raw, r')
      else if bool_decide (c = "-"%char) || is_digit c then
        '(lit, r') ← scan_number (String c r); Some (JNumber lit, r')
      else if strings_HasPrefix (String c r) "true" then
        Some (JBool true, drop_bytes 4 (String c r))
      else if strings_HasPrefix (String c r) "false" then
        Some (JBool false, drop_bytes 5 (String c r))
      else if strings_HasPrefix (String c r) "null" then
        Some (JNull, drop_bytes 4 (String c r))
      else None
    end
  end
with parse_elems (fuel : nat) (s : string) : option (list json * string) :=
  match fuel with
  | O => None
  | S f =>
    '(v, r) ← parse_value f s;
    match skip_ws r with
    | String "," r' => '(vs, r'') ← parse_elems f r'; Some (v :: vs, r'')
    | String "]" r' => Some ([v], r')
    | _ => None
    end
  end
with parse_members (fuel : nat) (s : string)
  : option (list (string * json) * string) :=
  match fuel with
  | O => None
  | S f =>
    match skip_ws s with
    | String c r =>
      if bool_decide (c = dquote) then
        '(k, r1) ← scan_string r;
        match skip_ws r1 with
        | String ":" r2 =>
          '(v, r3) ← parse_value f r2;
          match skip_ws r3 with
          | String "," r4 =>
            '(ms, r5) ← parse_members f r4; Some ((k, v) :: ms, r5)
          | String "}" r4 => Some ([(k, v)], r4)
          | _ => None
          end
        | _ => None
        end
      else None
    | EmptyString => None
    end
  end.

(** A whole JSON text: one value, blanks around it, nothing else. *)
Definition json_parse (b : string) : option json :=
  '(v, rest) ← parse_value (2 * String.length b + 2) b;
  match skip_ws rest with
  | EmptyString => Some v
  | _ => None
  end.

Definition is_surrogate (r : N) : bool := ((0xD800 <=? r) && (r <? 0xE000))%N.

(** [utf16.DecodeRune]. *)
Definition utf16_DecodeRune (r1 r2 : N) : N :=
  if ((0xD800 <=? r1) && (r1 <? 0xDC00) && (0xDC00 <=? r2) && (r2 <? 0xE000))%N
  then ((r1 - 0xD800) * 1024 + (r2 - 0xDC00) + 0x10000)%N
  else RuneError.

Definition unescape_byte (e : ascii) : option ascii :=
  if bool_decide (e = dquote) || bool_decide (e = "\"%char)
     || bool_decide (e = "/"%char) then Some e
  else if bool_decide (e = "b"%char) then Some (byte_of 0x08)
  else if bool_decide (e = "f"%char) then Some (byte_of 0x0C)
  else if bool_decide (e = "n"%char) then Some (byte_of 0x0A)
  else if bool_decide (e = "r"%char) then Some (byte_of 0x0D)
  else if bool_decide (e = "t"%char) then Some (byte_of 0x09)
  else None.

(** [unquoteBytes] on the text between the quotes: escapes are resolved,
    and the result is coerced to well-formed UTF-8. *)
Fixpoint unquote_fuel (fuel : nat) (s : string) : option string :=
  match s with
  | EmptyString => Some ""
  | String c r =>
    match fuel with
    | O => None
    | S f =>
      if bool_decide (c = "\"%char) then
        match r with
        | EmptyString => None
        | String e r' =>
          if bool_decide (e = "u"%char) then
            rr ← getu4 s;
            let after := drop_bytes 6 s in
            if is_surrogate rr then
              match getu4 after with
              | Some rr1 =>
                let dec := utf16_DecodeRune rr rr1 in
                if negb (dec =? RuneError)%N
                then t ← unquote_fuel f (drop_bytes 6 after);
                     Some (utf8_EncodeRune dec ++ t)
                else t ← unquote_fuel f after;
                     Some (utf8_EncodeRune RuneError ++ t)
              | None => t ← unquote_fuel f after;
                        Some (utf8_EncodeRune RuneError ++ t)
              end
            else t ← unquote_fuel f after; Some (utf8_EncodeRune rr ++ t)
          else
            b ← unescape_byte e; t ← unquote_fuel f r'; Some (String b t)
        end
      else if bool_decide (c = dquote) || (code c <? 0x20)%N then None
      else if (code c <? 0x80)%N then t ← unquote_fuel f r; Some (String c t)
      else
        let '(rr, size) := utf8_DecodeRune s in
        t ← unquote_fuel f (drop_bytes size s);
        Some (utf8_EncodeRune rr ++ t)
    end
  end.

Definition json_unquote (raw : string) : option string :=
  unquote_fuel (String.length raw) raw.

(** [foldName]: the key under which a struct field is looked up.  ASCII
    letters are upper-cased; the long s (U+017F) and the Kelvin sign
    (U+212A) fold to [S] and [K]; every other rune above U+007F folds to
    a rune above U+007F and is kept here as it stands. *)
Definition fold_rune (p : N * string) : string :=
  let '(r, bs) := p in
  if (r <? 0x80)%N then
    (if ((0x61 <=? r) && (r <=? 0x7A))%N then str_of_bytes [r - 0x20]%N else bs)
  else if (r =? 0x17F)%N then "S"
  else if (r =? 0x212A)%N then "K"
  else bs.

Definition foldName (k : string) : string :=
  fold_right (fun p acc => fold_rune p ++ acc) "" (runes k).

(** Storing one JSON value into the field a key names; [None] is an
    [UnmarshalTypeError] or the error of [Time.UnmarshalJSON].  A [null]
    leaves a field as it is, and empties a slice. *)
Definition decode_string (v : json) (old : string) : option string :=
  match v with
  | JNull => Some old
  | JString raw => json_unquote raw
  | _ => None
  end.

Definition decode_tag (v : json) : option string := decode_string v "".

Definition decode_field (n : Note) (kv : string * json) : option Note :=
  let '(rawkey, v) := kv in
  key ← json_unquote rawkey;
  let f := foldName key in
  if bool_decide (f = "ID") then
    match v with
    | JNull => Some n
    | JNumber lit =>
      i ← strconv_Atoi lit;
      Some {| ID := i; Title := Title n; Body := Body n; Tags := Tags n;
              Created := Created n |}
    | _ => None
    end
  else if bool_decide (f = "TITLE") then
    t ← decode_string v (Title n);
    Some {| ID := ID n; Title := t; Body := Body n; Tags := Tags n;
            Created := Created n |}
  else if bool_decide (f = "BODY") then
    b ← decode_string v (Body n);
    Some {| ID := ID n; Title := Title n; Body := b; Tags := Tags n;
            Created := Created n |}
  else if bool_decide (f = "TAGS") then
    ts ← match v with
         | JNull => Some []
         | JArray vs => mapM decode_tag vs
         | _ => None
         end;
    Some {| ID := ID n; Title := Title n; Body := Body n; Tags := ts;
            Created := Created n |}
  else if bool_decide (f = "CREATED") then
    c ← match v with
        | JNull => Some (Created n)
        | JString raw => time_parse raw
        | _ => None
        end;
    Some {| ID := ID n; Title := Title n; Body := Body n; Tags := Tags n;
            Created := c |}
  else Some n.

Fixpoint decode_members (n : Note) (ms : list (string * json)) : option Note :=
  match ms with
  | [] => Some n
  | kv :: rest => n' ← decode_field n kv; decode_members n' rest
  end.

(** [json.Unmarshal b &n] for a zero [n]: [Some] the note when it
    returns no error.  The text is checked as a whole first; an object
    fills the fields its keys name, other keys are passed over; the text
    [null] leaves the note zero. *)
Definition json_Unmarshal (b : string) : option Note :=
  v ← json_parse b;
  match v with
  | JNull => Some zeroNote
  | JObject ms => decode_members zeroNote ms
  | _ => None
  end.

(** ** The directory [notes_db] and the system calls on it *)

(** What a name in the directory stands for.  A symbolic link carries the
    bytes of the file it resolves to, [None] when it resolves to nothing
    readable; links are taken to point outside the directory. *)
Inductive node :=
  | Regular (data : string)
  | Directory
  | Symlink (target : option string).

(** The state of the path [notes_db]: missing, taken by something that
    is not a directory, or a directory with its entries by name. *)
Inductive store :=
  | NoDir
  | NotADir
  | Dir (entries : gmap string node).

Inductive error :=
  | PathError (op path : string)
  | MarshalerError
  | SyntaxError
  | NumError (s : string)
  | UsageError (msg : string)
  | EditorError (e : error).

Inductive result (A : Type) :=
  | Ok (a : A)
  | Err (e : error).
Arguments Ok {A} a.
Arguments Err {A} e.

(** How [os.WriteFile] can go wrong: not at all, before the file is
    opened (nothing changes), or after the file was created or truncated
    and only [k] bytes reached it. *)
Inductive write_fault :=
  | WriteOK
  | WriteOpenFails
  | WriteCutShort (k : nat).

(** The failures the environment injects into the system calls of one
    operation of the program. *)
Record faults := {
  mkdir_fails : bool;
  readdir_fails : bool;
  read_fails : string -> bool;
  write_fails : write_fault;
  rename_fails : bool
}.

Definition no_faults : faults :=
  {| mkdir_fails := false; readdir_fails := false;
     read_fails := fun _ => false; write_fails := WriteOK;
     rename_fails := false |}.

(** Computations on the directory that may fail: state passing with an
    error result.  A failed step keeps the state it reached. *)
Definition M (A : Type) : Type := store -> result A * store.

Definition ret {A} (a : A) : M A := fun w => (Ok a, w).
Definition fail {A} (e : error) : M A := fun w => (Err e, w).
Definition bind {A B} (m : M A) (k : A -> M B) : M B :=
  fun w =>
    match m w with
    | (Ok a, w') => k a w'
    | (Err e, w') => (Err e, w')
    end.

Notation "'do' x <- m ; k" := (bind m (fun x => k))
  (at level 10, x name, m at level 100, k at level 200,
   format "'[v' 'do'  x  <-  m ; '/' k ']'").
Notation "'do' ' pat <- m ; k" := (bind m (fun x => let 'pat := x in k))
  (at level 10, pat pattern, m at level 100, k at level 200,
   format "'[v' 'do'  ' pat  <-  m ; '/' k ']'").

Definition dbDir : string := "notes_db".

(** [filepath.Join dir name] for a clean [dir] and a plain file name. *)
Definition filepath_Join (dir name : string) : string := dir ++ "/" ++ name.

(** The name inside [notes_db] that a path denotes, if it lies there. *)
Definition db_name (path : string) : option string :=
  if strings_HasPrefix path (dbDir ++ "/")
  then Some (drop_bytes (String.length (dbDir ++ "/")) path)
  else None.

Definition entries (w : store) : gmap string node :=
  match w with
  | Dir d => d
  | _ => ∅
  end.

(** [os.MkdirAll dbDir 0o755]. *)
Definition os_MkdirAll (f : faults) : M unit := fun w =>
  if mkdir_fails f then (Err (PathError "mkdir" dbDir), w)
  else match w with
       | Dir _ => (Ok tt, w)
       | NotADir => (Err (PathError "mkdir" dbDir), w)
       | NoDir => (Ok tt, Dir ∅)
       end.

Record DirEntry := { Name : string; IsDir : bool }.

Definition entry_of (p : string * node) : DirEntry :=
  {| Name := p.1;
     IsDir := match p.2 with Directory => true | _ => false end |}.

Definition name_le (a b : string * node) : Prop := (a.1 ≤ b.1)%string.

#[global] Instance name_le_dec : RelDecision name_le.
Proof. intros a b. unfold name_le. apply _. Defined.

(** [os.ReadDir dbDir]: the entries, sorted by file name. *)
Definition listing (d : gmap string node) : list (string * node) :=
  merge_sort name_le (map_to_list d).

Definition os_ReadDir (f : faults) : M (list DirEntry) := fun w =>
  if readdir_fails f then (Err (PathError "open" dbDir), w)
  else match w with
       | Dir d => (Ok (map entry_of (listing d)), w)
       | _ => (Err (PathError "open" dbDir), w)
       end.

(** What reading through a node yields. *)
Definition node_data (o : option node) : option string :=
  match o with
  | Some (Regular b) => Some b
  | Some (Symlink (Some b)) => Some b
  | _ => None
  end.

(** [os.ReadFile path]. *)
Definition os_ReadFile (f : faults) (path : string) : M string := fun w =>
  match db_name path with
  | None => (Err (PathError "open" path), w)
  | Some name =>
    if read_fails f name then (Err (PathError "read" path), w)
    else match node_data (entries w !! name) with
         | Some b => (Ok b, w)
         | None => (Err (PathError "open" path), w)
         end
  end.

Definition take_bytes (k : nat) (s : string) : string := substring 0 k s.

(** [os.WriteFile path data 0o644]: create or truncate, write, close.  A
    directory cannot be opened for writing; writing to a symbolic link
    writes the file it points to. *)
Definition write_through (o : option node) (b : string) : option node :=
  match o with
  | Some Directory => None
  | Some (Symlink _) => Some (Symlink (Some b))
  | _ => Some (Regular b)
  end.

Definition os_WriteFile (f : faults) (path data : string) : M unit := fun w =>
  match db_name path, w with
  | Some name, Dir d =>
    match write_fails f with
    | WriteOpenFails => (Err (PathError "open" path), w)
    | WriteOK =>
      match write_through (d !! name) data with
      | Some nd => (Ok tt, Dir (<[name := nd]> d))
      | None => (Err (PathError "open" path), w)
      end
    | WriteCutShort k =>
      match write_through (d !! name) (take_bytes k data) with
      | Some nd => (Err (PathError "write" path), Dir (<[name := nd]> d))
      | None => (Err (PathError "open" path), w)
      end
    end
  | _, _ => (Err (PathError "open" path), w)
  end.

(** [os.Rename oldpath newpath]: one step; the entry moves and replaces
    what was at the new name, or nothing changes.  A file does not
    replace a directory, nor a directory anything that exists. *)
Definition can_replace (nd : node) (target : option node) : bool :=
  match nd, target with
  | Directory, Some _ => false
  | _, Some Directory => false
  | _, _ => true
  end.

Definition os_Rename (f : faults) (oldpath newpath : string) : M unit := fun w =>
  match db_name oldpath, db_name newpath, w with
  | Some old, Some new, Dir d =>
    if rename_fails f then (Err (PathError "rename" oldpath), w)
    else match d !! old with
         | None => (Err (PathError "rename" oldpath), w)
         | Some nd =>
           if bool_decide (old = new) then (Ok tt, w)
           else if can_replace nd (d !! new)
                then (Ok tt, Dir (<[new := nd]> (delete old d)))
                else (Err (PathError "rename" oldpath), w)
         end
  | _, _, _ => (Err (PathError "rename" oldpath), w)
  end.

(** [sort.Slice notes (fun i j => notes[i].ID < notes[j].ID)].  The Go
    sort is not stable; this one is, and any other sort agrees with it
    whenever the ids are distinct. *)
Definition id_le (a b : Note) : Prop := ID a <= ID b.

#[global] Instance id_le_dec : RelDecision id_le.
Proof. intros a b. unfold id_le. apply _. Defined.

Definition sort_Slice (notes : list Note) : list Note := merge_sort id_le notes.

(** ** The storage layer of [notes.go] *)

Definition ensureDir (f : faults) : M unit := os_MkdirAll f.

Definition noteName (id : Z) : string := fmt_d true 4 id ++ ".json".

Definition notePath (id : Z) : string := filepath_Join dbDir (noteName id).

(** The body of the loop of [loadAll] over the directory entries. *)
Definition loadAll_step (f : faults) (w : store) (notes : list Note)
    (e : DirEntry) : list Note :=
  if IsDir e || negb (strings_HasSuffix (Name e) ".json") then notes
  else
    match os_ReadFile f (filepath_Join dbDir (Name e)) w with
    | (Err _, _) => notes
    | (Ok b, _) =>
      match json_Unmarshal b with
      | Some n => (notes ++ [n])%list
      | None => notes
      end
    end.

Definition loadAll (f : faults) : M (list Note) :=
  do _ <- ensureDir f;
  do entries <- os_ReadDir f;
  fun w => (Ok (sort_Slice (fold_left (loadAll_step f w) entries [])), w).

Definition nextID (notes : list Note) : Z :=
  let max := fold_left (fun max n => if ID n >? max then ID n else max)
                       notes 0 in
  wrap64 (max + 1).

Definition json_MarshalIndent_M (n : Note) : M string :=
  match json_MarshalIndent n with
  | Some b => ret b
  | None => fail MarshalerError
  end.

Definition saveNote (f : faults) (n : Note) : M unit :=
  do _ <- ensureDir f;
  do b <- json_MarshalIndent_M n;
  let tmp := notePath (ID n) ++ ".tmp" in
  do _ <- os_WriteFile f tmp b;
  os_Rename f tmp (notePath (ID n)).

Definition loadNote (f : faults) (id : Z) : M Note :=
  do b <- os_ReadFile f (notePath id);
  match json_Unmarshal b with
  | Some n => ret n
  | None => fail SyntaxError
  end.

(** ** The editor collaborator *)

(** The files of [os.TempDir ()] by name, and what the environment does
    during one call of [openEditor]. *)
Record editor_env := {
  EDITOR : string;
  (** the name [os.CreateTemp] settles on, [None] when it fails *)
  temp_name : option string;
  (** how writing the initial content goes *)
  seed_fails : write_fault;
  (** [cmd.Run]: the editor program, the file name and the temporary
      directory before; whether it exits cleanly and the directory after *)
  run : string -> string -> gmap string string -> bool * gmap string string;
  readback_fails : bool;
  (** [os.Remove] fails (its error is dropped by the source) *)
  remove_fails : bool
}.

Definition os_Remove (env : editor_env) (name : string)
    (t : gmap string string) : gmap string string :=
  if remove_fails env then t else delete name t.

Definition openEditor (env : editor_env) (initial : string)
    (t : gmap string string) : result string * gmap string string :=
  let editor := if bool_decide (EDITOR env = "") then "vim" else EDITOR env in
  match temp_name env with
  | None => (Err (PathError "open" "note-*.md"), t)
  | Some name =>
    match t !! name with
    | Some _ => (Err (PathError "open" name), t)
    | None =>
      let t := <[name := ""]> t in
      match seed_fails env with
      | WriteOpenFails => (Err (PathError "open" name), os_Remove env name t)
      | WriteCutShort k =>
        (Err (PathError "write" name),
         os_Remove env name (<[name := take_bytes k initial]> t))
      | WriteOK =>
        let t := <[name := initial]> t in
        let '(ok, t) := run env editor name t in
        if negb ok then (Err (PathError "exec" editor), os_Remove env name t)
        else
          let b := if readback_fails env then None else t !! name in
          let t := os_Remove env name t in
          match b with
          | None => (Err (PathError "open" name), t)
          | Some b => (Ok b, t)
          end
      end
    end
  end.

(** ** The commands *)

Definition usage {A} (msg : string) : M A := fail (UsageError msg).

(** [fmt]'s verb [%d] without width. *)
Definition fmt_int (z : Z) : string := fmt_d false 0 z.

Definition strconv_Atoi_M (s : string) : M Z :=
  match strconv_Atoi s with
  | Some z => ret z
  | None => fail (NumError s)
  end.

(** [cmdAdd]: [now] is the reading of [time.Now ().UTC ()], [f] and [f2]
    the failures injected into the scan and into the save.  The result
    carries the text printed, the store and the temporary directory. *)
Definition cmdAdd (f f2 : faults) (env : editor_env) (now : time_Time)
    (args : list string) (t : gmap string string) (w : store)
    : result string * store * gmap string string :=
  match args with
  | [] => (Err (UsageError "usage: add <title>"), w, t)
  | _ =>
    let title := strings_Join args " " in
    match loadAll f w with
    | (Err e, w1) => (Err e, w1, t)
    | (Ok notes, w1) =>
      let id := nextID notes in
      match openEditor env "" t with
      | (Err e, t1) => (Err (EditorError e), w1, t1)
      | (Ok body, t1) =>
        let n := {| ID := id; Title := title; Body := body; Tags := [];
                    Created := now |} in
        match saveNote f2 n w1 with
        | (Err e, w2) => (Err e, w2, t1)
        | (Ok _, w2) => (Ok ("Saved note #" ++ fmt_int id ++ newline), w2, t1)
        end
      end
    end
  end.

Definition cmdList (f : faults) (args : list string) : M string :=
  do notes <- loadAll f;
  match notes with
  | [] => ret ("No notes." ++ newline)
  | _ =>
    ret (fold_left
           (fun out n => out ++ fmt_d false 3 (ID n) ++ "  " ++ Title n ++ " - "
                           ++ strings_Join (Tags n) "," ++ newline)
           notes ("ID  Title - tags" ++ newline))
  end.

Definition cmdView (f : faults) (args : list string) : M string :=
  match args with
  | [] => usage "usage: view <id>"
  | a :: _ =>
    do id <- strconv_Atoi_M a;
    do n <- loadNote f id;
    ret ("# " ++ Title n ++ newline ++ newline ++ Body n ++ newline)
  end.

Section Search.
Variable case_table : N -> N.

(** The condition of the loop of [cmdSearch], for a lower-cased query. *)
Definition matches (q : string) (n : Note) : bool :=
  strings_Contains (strings_ToLower case_table (Title n)) q
  || strings_Contains (strings_ToLower case_table (Body n)) q
  || strings_Contains
       (strings_ToLower case_table (strings_Join (Tags n) ",")) q.

(** The loop of [cmdSearch]: the text printed so far and [found].  The
    counter is bounded by the length of the slice, so it cannot wrap. *)
Definition search_step (q : string) (acc : string * Z) (n : Note)
  : string * Z :=
  if matches q n
  then (acc.1 ++ fmt_d false 3 (ID n) ++ "  " ++ Title n ++ newline,
        acc.2 + 1)
  else acc.

Definition cmdSearch (f : faults) (args : list string) : M string :=
  match args with
  | [] => usage "usage: search <query>"
  | _ =>
    let q := strings_ToLower case_table (strings_Join args " ") in
    do notes <- loadAll f;
    let '(out, found) := fold_left (search_step q) notes ("", 0) in
    if found =? 0 then ret (out ++ "No matches." ++ newline) else ret out
  end.
End Search.

(** The first loop of [cmdTag]: append the trimmed, non-empty new tags. *)
Definition append_tags (tags newTags : list string) : list string :=
  fold_left
    (fun tags t =>
       let t := strings_TrimSpace t in
       if bool_decide (t = "") then tags else (tags ++ [t])%list)
    newTags tags.

(** The second loop of [cmdTag]: [seen] is the map [map[string]bool],
    [res] the slice built. *)
Definition dedupe_step (acc : gmap string bool * list string) (t : string)
  : gmap string bool * list string :=
  let '(seen, res) := acc in
  if negb (default false (seen !! t))
  then (<[t := true]> seen, (res ++ [t])%list)
  else (seen, res).

Definition dedupe (tags : list string) : list string :=
  (fold_left dedupe_step tags (∅, [])).2.

Definition with_tags (n : Note) (tags : list string) : Note :=
  {| ID := ID n; Title := Title n; Body := Body n; Tags := tags;
     Created := Created n |}.

Definition cmdTag (f : faults) (args : list string) : M string :=
  match args with
  | a :: newTags =>
    if (length args <? 2)%nat then usage "usage: tag <id> tag1 [tag2 ...]"
    else
      do id <- strconv_Atoi_M a;
      do n <- loadNote f id;
      let n := with_tags n (append_tags (Tags n) newTags) in
      let n := with_tags n (dedupe (Tags n)) in
      do _ <- saveNote f n;
      ret ("Updated tags for #" ++ fmt_int id ++ newline)
  | [] => usage "usage: tag <id> tag1 [tag2 ...]"
  end.

(** [strings.NewReplacer (...).Replace]: all four old strings are single
    bytes, so every byte is replaced on its own, left to right. *)
Definition escape_html_byte (c : ascii) : string :=
  if bool_decide (c = "&"%char) then "&amp;"
  else if bool_decide (c = "<"%char) then "&lt;"
  else if bool_decide (c = ">"%char) then "&gt;"
  else if bool_decide (c = dquote) then "&quot;"
  else String c "".

Fixpoint htmlEscape (s : string) : string :=
  match s with
  | EmptyString => ""
  | String c r => escape_html_byte c ++ htmlEscape r
  end.

(** The body of the loop of [cmdExport] over the lines: the text added
    to the builder for one line. *)
Definition export_line (L : string) : string :=
  if strings_HasPrefix L "# " then
    "<h2>" ++ htmlEscape (strings_TrimSpace (strings_TrimPrefix L "# "))
    ++ "</h2>" ++ newline
  else if bool_decide (strings_TrimSpace L = "") then ""
  else "<p>" ++ htmlEscape L ++ "</p>" ++ newline.

Definition html_head (n : Note) : string :=
  "<!doctype html>" ++ newline ++ "<html>" ++ newline ++ "<head>" ++ newline
  ++ "<meta charset=" ++ qt ++ "utf-8" ++ qt ++ ">" ++ newline
  ++ "<title>" ++ htmlEscape (Title n) ++ "</title>" ++ newline
  ++ "</head>" ++ newline ++ "<body>" ++ newline
  ++ "<h1>" ++ htmlEscape (Title n) ++ "</h1>" ++ newline.

Definition html_foot : string := "</body>" ++ newline ++ "</html>" ++ newline.

(** The document [cmdExport] builds in its [strings.Builder]. *)
Definition export_html (n : Note) : string :=
  fold_left (fun b L => b ++ export_line L)
            (strings_Split (Body n) newline) (html_head n)
  ++ html_foot.

(** A file name that names an entry of a directory: not empty, without a
    slash, and not one of the two dot names. *)
Definition plain_name (name : string) : bool :=
  negb (bool_decide (name = "")) && negb (strings_Contains name "/")
  && negb (bool_decide (name = ".")) && negb (bool_decide (name = "..")).

(** The entry of the store that a path denotes.  A path is taken as it
    is spelled, relative to the working directory: [notes_db/<name>]
    with a plain name is an entry of the store. *)
Definition entry_name (path : string) : option string :=
  match db_name path with
  | Some name => if plain_name name then Some name else None
  | None => None
  end.

(** [os.WriteFile path data 0o644] for any path.  An entry of the store
    is written as [os_WriteFile] writes it.  The path [notes_db] itself
    cannot be opened for writing while it is a directory; otherwise the
    write puts a file in its place.  Every other path is a file of its
    own among the files outside the store, [o], by path.  Outside the
    store the same failures can be injected: the file is not opened and
    nothing changes, or it is created or truncated and only [k] bytes
    reach it. *)
Definition os_WriteFile_any (f : faults) (path data : string)
    (o : gmap string string) (w : store)
    : result unit * store * gmap string string :=
  match entry_name path with
  | Some _ => let '(r, w') := os_WriteFile f path data w in (r, w', o)
  | None =>
    if bool_decide (path = dbDir) then
      match w, write_fails f with
      | Dir _, _ => (Err (PathError "open" path), w, o)
      | _, WriteOK => (Ok tt, NotADir, o)
      | _, WriteOpenFails => (Err (PathError "open" path), w, o)
      | _, WriteCutShort _ => (Err (PathError "write" path), NotADir, o)
      end
    else
      match write_fails f with
      | WriteOK => (Ok tt, w, <[path := data]> o)
      | WriteOpenFails => (Err (PathError "open" path), w, o)
      | WriteCutShort k =>
        (Err (PathError "write" path), w, <[path := take_bytes k data]> o)
      end
  end.

(** [cmdExport]: the result carries the text printed, the store and the
    files outside the store. *)
Definition cmdExport (f : faults) (args : list string)
    (o : gmap string string) (w : store)
    : result string * store * gmap string string :=
  match args with
  | a :: out :: _ =>
    match strconv_Atoi a with
    | None => (Err (NumError a), w, o)
    | Some id =>
      match loadNote f id w with
      | (Err e, w1) => (Err e, w1, o)
      | (Ok n, w1) =>
        match os_WriteFile_any f out (export_html n) o w1 with
        | (Err e, w2, o2) => (Err e, w2, o2)
        | (Ok _, w2, o2) =>
          (Ok ("Exported note #" ++ fmt_int id ++ " to " ++ out ++ newline),
           w2, o2)
        end
      end
    end
  | _ => (Err (UsageError "usage: export <id> <file.html>"), w, o)
  end.

(** Sample data for the examples below. *)
Definition sample_time : time_Time :=
  {| t_year := 2024; t_month := 3; t_day := 9; t_hour := 7; t_minute := 5;
     t_second := 0; t_nsec := 120000000; t_zone := 0 |}.

Definition note_with_id (id : Z) : Note :=
  {| ID := id; Title := "t"; Body := ""; Tags := []; Created := sample_time |}.

(** The largest of [0] and the ids of a snapshot, and what it means for
    an id to be the largest one present. *)
Definition max_id (notes : list Note) : Z := fold_right Z.max 0 (map ID notes).

Definition is_max_id (m : Z) (notes : list Note) : Prop :=
  (exists n, n ∈ notes /\ ID n = m) /\ Forall (fun n => ID n <= m) notes.

(** ** Definitions used to state the properties *)

(** The name of the temporary file [saveNote] writes for an id. *)
Definition tmpName (id : Z) : string := noteName id ++ ".tmp".

Definition is_dir (o : option node) : bool :=
  match o with Some Directory => true | _ => false end.

(** What a scan makes of one directory entry: the note parsed from it,
    if it is not a directory, its name ends in [.json], it can be read
    and its content parses. *)
Definition record_of (f : faults) (p : string * node) : option Note :=
  match p.2 with
  | Directory => None
  | nd =>
    if strings_HasSuffix p.1 ".json" && negb (read_fails f p.1)
    then node_data (Some nd) ≫= json_Unmarshal
    else None
  end.

Definition is_ok {A} (r : result A) : bool :=
  match r with Ok _ => true | Err _ => false end.

(** What [loadNote] returns when reading the record yields [data]. *)
Definition load_result (f : faults) (id : Z) (data : option string)
  : result Note :=
  if read_fails f (noteName id) then Err (PathError "read" (notePath id))
  else match data with
       | None => Err (PathError "open" (notePath id))
       | Some b =>
         match json_Unmarshal b with
         | Some n => Ok n
         | None => Err SyntaxError
         end
       end.

(** A sequence of saves, each under its own injected failures. *)
Fixpoint saveAll (saves : list (faults * Note)) : M unit :=
  match saves with
  | [] => ret tt
  | (f, n) :: rest => do _ <- saveNote f n; saveAll rest
  end.

(** The serialization of a note decodes back to the note. *)
Definition roundtrips (n : Note) : Prop :=
  exists b, json_MarshalIndent n = Some b /\ json_Unmarshal b = Some n.

(** The file a note is stored in, by name. *)
Definition file_of (n : Note) : string * node :=
  (noteName (ID n), Regular (default "" (json_MarshalIndent n))).

Definition id_lt (a b : Note) : Prop := ID a < ID b.

(** The file [saveNote] writes for the sample note with id 1. *)
Definition sample_json : string :=
  Eval vm_compute in default "" (json_MarshalIndent (note_with_id 1)).

(** Deduplication that keeps the first occurrence of every string, and
    the new tags of [cmdTag] as they are appended. *)
Fixpoint keep_first (l : list string) : list string :=
  match l with
  | [] => []
  | x :: l' => x :: filter (fun y => y <> x) (keep_first l')
  end.

Definition trimmed_tags (newTags : list string) : list string :=
  filter (fun t => t <> "") (strings_TrimSpace <$> newTags).

(** The tags [cmdTag] stores, from the tags it loaded and its arguments. *)
Definition addTags (tags newTags : list string) : list string :=
  dedupe (append_tags tags newTags).

(** A store holding the sample note 1, as [saveNote] leaves it. *)
Definition sample_store : store := Dir {[ noteName 1 := Regular sample_json ]}.

Definition concat_str (l : list string) : string := fold_right append "" l.

(** The lines of a text: the pieces between its newline bytes. *)
Fixpoint lines (s : string) : list string :=
  match s with
  | EmptyString => [""]
  | String c r =>
    if bool_decide (c = byte_of 10) then "" :: lines r
    else match lines r with
         | x :: xs => String c x :: xs
         | [] => [String c ""]
         end
  end.

Definition has_byte (c : ascii) (s : string) : bool :=
  existsb (fun x => bool_decide (x = c)) (list_ascii_of_string s).

(** The note of the export scenario. *)
Definition export_note : Note :=
  {| ID := 3; Title := "Plan";
     Body := "# Intro" ++ newline ++ "Hello <world>" ++ newline ++ newline
             ++ "Bye";
     Tags := []; Created := sample_time |}.

(** The notes of the search scenario. *)
Definition groceries : Note :=
  {| ID := 1; Title := "Groceries"; Body := ""; Tags := ["home"];
     Created := sample_time |}.

Definition design_review : Note :=
  {| ID := 2; Title := "Design Review"; Body := "discuss the API";
     Tags := ["work"]; Created := sample_time |}.

(** A note whose title ends and whose body begins with halves of a word. *)
Definition split_word : Note :=
  {| ID := 5; Title := "ab"; Body := "cd"; Tags := []; Created := sample_time |}.

(** The text printed for the notes found. *)
Definition render_hits (hits : list Note) : string :=
  concat_str ((fun n => fmt_d false 3 (ID n) ++ "  " ++ Title n ++ newline)
                <$> hits).

(** The store after saving the two notes of the search scenario, and one
    holding the note with the split word. *)
Definition search_store : store :=
  (saveAll [(no_faults, groceries); (no_faults, design_review)] NoDir).2.

Definition split_word_store : store := (saveNote no_faults split_word NoDir).2.

(** Failures injected into the rename alone. *)
Definition rename_fault : faults :=
  {| mkdir_fails := false; readdir_fails := false;
     read_fails := fun _ => false; write_fails := WriteOK;
     rename_fails := true |}.

(** A note whose title is a single byte that is not valid UTF-8, and the
    note that comes back for it. *)
Definition bad_utf8_note : Note :=
  {| ID := 4; Title := str_of_bytes [0xFF]%N; Body := ""; Tags := [];
     Created := sample_time |}.

Definition replaced_note : Note :=
  {| ID := 4; Title := str_of_bytes [0xEF; 0xBF; 0xBD]%N; Body := "";
     Tags := []; Created := sample_time |}.

(** An editor session for the examples: no [EDITOR] set, a fixed
    temporary name, an editor that types a text and exits cleanly or
    not. *)
Definition sample_editor (ok : bool) : editor_env :=
  {| EDITOR := ""; temp_name := Some "/tmp/note-1.md"; seed_fails := WriteOK;
     run := fun _ name t => (ok, <[name := "typed"]> t);
     readback_fails := false; remove_fails := false |}.

(** The note [cmdAdd] builds from a scan, its arguments, the text from
    the editor and the clock. *)
Definition added_note (notes : list Note) (args : list string)
    (body : string) (now : time_Time) : Note :=
  {| ID := nextID notes; Title := strings_Join args " "; Body := body;
     Tags := []; Created := now |}.

(** ** The program *)

Fixpoint strip_slashes (rs : string) : string :=
  match rs with
  | String "/" r => strip_slashes r
  | _ => rs
  end.

Fixpoint until_slash (rs : string) : string :=
  match rs with
  | String c r => if bool_decide (c = "/"%char) then "" else String c (until_slash r)
  | EmptyString => ""
  end.

(** [filepath.Base]: the last element of a path, after trailing slashes
    are dropped; [.] for the empty path and [/] for one of slashes only. *)
Definition filepath_Base (path : string) : string :=
  match path with
  | EmptyString => "."
  | _ =>
    match until_slash (strip_slashes (String.rev path)) with
    | EmptyString => "/"
    | r => String.rev r
    end
  end.

(** The text [cmdHelp] prints, for the program name [os.Args[0]]. *)
Definition cmdHelp (arg0 : string) : string :=
  filepath_Base arg0 ++ " - markdown notes CLI" ++ newline ++ newline
  ++ "Commands:" ++ newline
  ++ "  add <title>           Add a note (opens $EDITOR or vim)" ++ newline
  ++ "  list                  List notes" ++ newline
  ++ "  view <id>             View note" ++ newline
  ++ "  search <query>        Search title/body/tags" ++ newline
  ++ "  tag <id> tag1 ...     Add tags to a note" ++ newline
  ++ "  export <id> file.html Export to simple HTML" ++ newline
  ++ "  help                  Show this help" ++ newline.

(** What a run of the program leaves behind: its exit status, what its
    own statements wrote to the standard output ([fmt.Printf],
    [fmt.Println]) and to the standard error ([fmt.Fprintln]), the
    store, the temporary directory and the files outside the store.  The
    editor that [cmdAdd] starts is a process of its own that shares the
    two streams; what it writes there is no part of [printed] and
    [reported]. *)
Record outcome := {
  exit_code : Z;
  printed : string;
  reported : string;
  db : store;
  tmpdir : gmap string string;
  files : gmap string string
}.

Section Main.
(** The lower-case table of [unicode], and the text of an error value as
    its method [Error] gives it; both belong to the Go library. *)
Variable case_table : N -> N.
Variable error_text : error -> string.

(** The end of [main]: an error goes to the error stream behind
    [Error:] and the exit status is 1.  Every command prints after its
    last step that can fail, so a command that fails has printed
    nothing itself. *)
Definition finish (r : result string) (w : store) (t : gmap string string)
    (o : gmap string string) : outcome :=
  match r with
  | Ok out =>
    {| exit_code := 0; printed := out; reported := ""; db := w; tmpdir := t;
       files := o |}
  | Err e =>
    {| exit_code := 1; printed := "";
       reported := "Error: " ++ error_text e ++ newline; db := w; tmpdir := t;
       files := o |}
  end.

Definition help (arg0 : string) (w : store) (t : gmap string string)
    (o : gmap string string) : outcome :=
  {| exit_code := 0; printed := cmdHelp arg0; reported := ""; db := w;
     tmpdir := t; files := o |}.

(** [main] for [os.Args = arg0 :: rest], under the failures, the editor
    session and the clock the environment supplies. *)
Definition main (f f2 : faults) (env : editor_env) (now : time_Time)
    (arg0 : string) (rest : list string)
    (t : gmap string string) (o : gmap string string) (w : store) : outcome :=
  match rest with
  | [] => help arg0 w t o
  | cmd :: args =>
    if bool_decide (cmd = "add") then
      let '(r, w', t') := cmdAdd f f2 env now args t w in finish r w' t' o
    else if bool_decide (cmd = "list") then
      let '(r, w') := cmdList f args w in finish r w' t o
    else if bool_decide (cmd = "view") then
      let '(r, w') := cmdView f args w in finish r w' t o
    else if bool_decide (cmd = "search") then
      let '(r, w') := cmdSearch case_table f args w in finish r w' t o
    else if bool_decide (cmd = "tag") then
      let '(r, w') := cmdTag f args w in finish r w' t o
    else if bool_decide (cmd = "export") then
      let '(r, w', o') := cmdExport f args o w in finish r w' t o'
    else help arg0 w t o
  end.
End Main.

Definition commands : list string :=
  ["add"; "list"; "view"; "search"; "tag"; "export"].

(** ** Well-formed text, for the round trip through JSON *)

(** One encoded rune: one to four bytes. *)
Inductive urune :=
  | U1 (c0 : ascii)
  | U2 (c0 c1 : ascii)
  | U3 (c0 c1 c2 : ascii)
  | U4 (c0 c1 c2 c3 : ascii).

Definition bytes_of (u : urune) : string :=
  match u with
  | U1 c0 => String c0 ""
  | U2 c0 c1 => String c0 (String c1 "")
  | U3 c0 c1 c2 => String c0 (String c1 (String c2 ""))
  | U4 c0 c1 c2 c3 => String c0 (String c1 (String c2 (String c3 "")))
  end.

(** The byte patterns of well-formed UTF-8. *)
Definition valid_urune (u : urune) : bool :=
  match u with
  | U1 c0 => (code c0 <? 0x80)%N
  | U2 c0 c1 => in_range 0xC2 0xDF c0 && is_cont c1
  | U3 c0 c1 c2 =>
    in_range 0xE0 0xEF c0
    && in_range (if (code c0 =? 0xE0)%N then 0xA0 else 0x80)
                (if (code c0 =? 0xED)%N then 0x9F else 0xBF) c1
    && is_cont c2
  | U4 c0 c1 c2 c3 =>
    in_range 0xF0 0xF4 c0
    && in_range (if (code c0 =? 0xF0)%N then 0x90 else 0x80)
                (if (code c0 =? 0xF4)%N then 0x8F else 0xBF) c1
    && is_cont c2 && is_cont c3
  end.

Definition rune_of (u : urune) : N := (utf8_DecodeRune (bytes_of u)).1.

Definition text_of (us : list urune) : string :=
  fold_right (fun u acc => bytes_of u ++ acc) "" us.

(** A rune of well-formed text as [json.Marshal] writes it, and a whole
    text between its quotes. *)
Definition esc (u : urune) : string := escape_rune (rune_of u, bytes_of u).

Definition escaped (us : list urune) : string :=
  fold_right (fun u acc => esc u ++ acc) "" us.

(** An integer as [json.Marshal] and [strconv.Itoa] write it. *)
Definition int_literal (z : Z) : string :=
  (if z <? 0 then "-" else "") ++ decimal (Z.abs_N z).

(** ** Times that a calendar shows *)

(** The last [k] decimal digits of a number. *)
Fixpoint fixed (k : nat) (n : N) : string :=
  match k with
  | O => ""
  | S k' => fixed k' (n / 10) ++ String (digit_char (n mod 10)) ""
  end.

(** The fields of a [time.Time] are those of a date and a time of day,
    and the zone is less than a day away from UTC. *)
Definition valid_time (t : time_Time) : Prop :=
  0 <= t_year t <= 9999
  /\ (1 <= t_month t <= 12)%N
  /\ (1 <= t_day t <= daysIn (t_month t) (t_year t))%N
  /\ (t_hour t <= 23)%N /\ (t_minute t <= 59)%N /\ (t_second t <= 59)%N
  /\ (t_nsec t < 10 ^ 9)%N
  /\ Z.abs (t_zone t) < 24 * 60.

(** ** Notes that Go can hold *)

(** A byte that stands for itself inside a JSON string. *)
Definition plain_char (c : ascii) : bool :=
  negb (bool_decide (c = dquote)) && negb (code c <? 0x20)%N
  && negb (bool_decide (c = "\"%char)).

Definition plain (s : string) : bool :=
  forallb plain_char (list_ascii_of_string s).

(** A key without escapes. *)
Definition plain_key (k : string) : Prop :=
  forall Y, scan_string (k ++ qt ++ Y) = Some (k, Y).

(** The id is an [int], the texts are well-formed UTF-8 and the time is
    one that a calendar shows. *)
Definition valid_note (n : Note) : Prop :=
  in_int64 (ID n)
  /\ utf8_ValidString (Title n) = true
  /\ utf8_ValidString (Body n) = true
  /\ Forall (fun t => utf8_ValidString t = true) (Tags n)
  /\ valid_time (Created n).

(** A note whose texts hold escapes and runes of every width, made on a
    leap day, half a second before midnight, five and a half hours east
    of UTC. *)
Definition unicode_note : Note :=
  {| ID := 12;
     Title := "Caf" ++ str_of_bytes [0xC3; 0xA9]%N ++ " <menu> & more";
     Body := "line one" ++ newline ++ qt ++ "quoted\" ++ qt
             ++ str_of_bytes [0xE2; 0x80; 0xA8; 0xF0; 0x9F; 0x98; 0x80; 0x09]%N;
     Tags := ["a&b"; str_of_bytes [0xE2; 0x82; 0xAC]%N];
     Created := {| t_year := 2024; t_month := 2; t_day := 29; t_hour := 23;
                   t_minute := 59; t_second := 59; t_nsec := 500000000;
                   t_zone := 330 |} |}.

(** ** Blanks around a text *)

(** An ASCII blank (space, tab, newline, vertical tab, form feed,
    carriage return), and an ASCII byte that is not one. *)
Definition is_blank (c : ascii) : bool :=
  (code c <? 0x80)%N && unicode_IsSpace (code c).

Definition is_graphic (c : ascii) : bool :=
  (code c <? 0x80)%N && negb (unicode_IsSpace (code c)).

Definition blanks (s : string) : bool :=
  forallb is_blank (list_ascii_of_string s).

Definition first_graphic (s : string) : bool :=
  match s with
  | String c _ => is_graphic c
  | EmptyString => false
  end.

(** A text that begins and ends with an ASCII byte that is no blank. *)
Definition solid (s : string) : bool :=
  first_graphic s && first_graphic (String.rev s).

Definition tab : string := String (byte_of 9) "".

(** Two bytes that are one space rune each: U+00A0 and U+3000. *)
Definition nbsp : string := str_of_bytes [0xC2; 0xA0]%N.
Definition wide_space : string := str_of_bytes [0xE3; 0x80; 0x80]%N.

(** A note whose title holds all four bytes that are escaped and whose
    body has blanks around a heading, a line of blanks, a paragraph that
    ends in a blank and a line that begins with [#] without a blank. *)
Definition spaced_note : Note :=
  {| ID := 6; Title := "Q&A <" ++ qt ++ "draft" ++ qt ++ ">";
     Body := "#   Spaced  " ++ tab ++ newline ++ " " ++ tab ++ " " ++ newline
             ++ "plain text " ++ newline ++ "#nohead";
     Tags := []; Created := sample_time |}.

(** The stores after saving the note of the export scenario, and after
    saving the note with blanks. *)
Definition export_store : store := (saveNote no_faults export_note NoDir).2.
Definition spaced_store : store := (saveNote no_faults spaced_note NoDir).2.

(** Failures injected into a write: cut short after [k] bytes. *)
Definition cut_short (k : nat) : faults :=
  {| mkdir_fails := false; readdir_fails := false;
     read_fails := fun _ => false; write_fails := WriteCutShort k;
     rename_fails := false |}.

(* ================================================================== *)
(** * Part II: properties *)
(* ================================================================== *)

(** ** [nextID] *)

Lemma wrap64_id z : minInt64 <= z <= maxInt64 -> wrap64 z = z.
Proof.
  unfold wrap64, minInt64, maxInt64. intros H.
  rewrite Z.mod_small; lia.
Qed.

Lemma nextID_fold notes m :
  fold_left (fun max n => if ID n >? max then ID n else max) notes m
  = Z.max m (fold_right Z.max m (map ID notes)).
Proof.
  revert m. induction notes as [|n notes IH]; intros m; simpl.
  - lia.
  - rewrite IH. destruct (Z.gtb_spec (ID n) m).
    + assert (Hm : forall l a b, a <= b -> Z.max b (fold_right Z.max b l)
                                 = Z.max b (fold_right Z.max a l)).
      { clear. induction l as [|x l IHl]; intros a b Hab; simpl; [lia|].
        specialize (IHl a b Hab). lia. }
      rewrite (Hm (map ID notes) m (ID n)) by lia. lia.
    + lia.
Qed.

Lemma max_id_ge notes : Forall (fun n => ID n <= max_id notes) notes.
Proof.
  unfold max_id. induction notes as [|n notes IH]; simpl; constructor.
  - lia.
  - eapply Forall_impl; [exact IH|]. simpl. intros. lia.
Qed.

Lemma max_id_nonneg notes : 0 <= max_id notes.
Proof. unfold max_id. induction notes; simpl; lia. Qed.

Lemma max_id_bound notes b :
  0 < b -> Forall (fun n => ID n < b) notes -> max_id notes < b.
Proof.
  unfold max_id. intros Hb. induction 1; simpl; lia.
Qed.

Lemma is_max_id_max_id m notes :
  is_max_id m notes -> 0 <= m -> max_id notes = m.
Proof.
  intros [[n [Hin Hn]] Hall] Hm.
  assert (max_id notes <= m).
  { clear Hin. unfold max_id. induction Hall; simpl; lia. }
  pose proof (max_id_ge notes) as Hge.
  rewrite Forall_forall in Hge. specialize (Hge n Hin). lia.
Qed.

Lemma nextID_wrap notes : nextID notes = wrap64 (1 + max_id notes).
Proof.
  unfold nextID. rewrite nextID_fold. f_equal. unfold max_id.
  pose proof (max_id_nonneg notes) as H. unfold max_id in H. lia.
Qed.

(** C3 (amended).  On a snapshot whose ids are all below the largest
    64-bit integer, [nextID] is one more than the largest of 0 and the
    ids present: strictly greater than every id, 1 on the empty snapshot,
    and one more than the maximum id whenever that maximum is not
    negative.  It is a function of the snapshot alone. *)
Theorem nextID_spec (notes : list Note)
    (Hbound : Forall (fun n => ID n < maxInt64) notes) :
  nextID notes = 1 + max_id notes
  /\ Forall (fun n => ID n < nextID notes) notes
  /\ (notes = [] -> nextID notes = 1)
  /\ (forall m, is_max_id m notes -> 0 <= m -> nextID notes = 1 + m).
Proof.
  assert (Hn : nextID notes = 1 + max_id notes).
  { rewrite nextID_wrap. apply wrap64_id.
    pose proof (max_id_nonneg notes).
    pose proof (max_id_bound notes maxInt64 eq_refl Hbound).
    unfold minInt64, maxInt64 in *. lia. }
  split; [exact Hn|]. split; [|split].
  - rewrite Hn. eapply Forall_impl; [apply max_id_ge|]. simpl. intros. lia.
  - intros ->. reflexivity.
  - intros m Hm H0. rewrite Hn. rewrite (is_max_id_max_id m notes Hm H0).
    reflexivity.
Qed.

Lemma nextID_spec_witness :
  nextID [note_with_id 3; note_with_id 7; note_with_id (-2)] = 8.
Proof.
  destruct (nextID_spec [note_with_id 3; note_with_id 7; note_with_id (-2)])
    as [H _].
  - repeat constructor.
  - exact H.
Defined.

(** C3 as stated fails: with only negative ids present the result is 1,
    not one more than the maximum id; and at the largest 64-bit id the
    sum wraps around, so the result is not above that id. *)
Lemma nextID_claim_fails :
  (is_max_id (-5) [note_with_id (-5)]
   /\ nextID [note_with_id (-5)] <> 1 + (-5))
  /\ ~ Forall (fun n => ID n < nextID [note_with_id maxInt64])
              [note_with_id maxInt64].
Proof.
  split; [split|].
  - split; [exists (note_with_id (-5)); split; [apply list_elem_of_here|reflexivity]|].
    repeat constructor. simpl. lia.
  - vm_compute. discriminate.
  - intros H. inversion H as [|? ? Hlt _]; subst. vm_compute in Hlt.
    discriminate.
Qed.

(** ** Strings: prefixes, suffixes, reversal *)

Lemma append_nil_r (s : string) : s ++ "" = s.
Proof. induction s; simpl; congruence. Qed.

Lemma append_assoc (a b c : string) : (a ++ b) ++ c = a ++ b ++ c.
Proof. induction a; simpl; congruence. Qed.

Lemma length_append (a b : string) :
  String.length (a ++ b) = (String.length a + String.length b)%nat.
Proof. induction a; simpl; congruence. Qed.

Lemma substring_all (s : string) : substring 0 (String.length s) s = s.
Proof. induction s; simpl; congruence. Qed.

Lemma drop_bytes_0 (s : string) : drop_bytes 0 s = s.
Proof. unfold drop_bytes. rewrite Nat.sub_0_r. apply substring_all. Qed.

Lemma drop_bytes_cons k c s : drop_bytes (S k) (String c s) = drop_bytes k s.
Proof. reflexivity. Qed.

Lemma drop_bytes_app (a b : string) : drop_bytes (String.length a) (a ++ b) = b.
Proof.
  induction a as [|c a IH]; simpl.
  - apply drop_bytes_0.
  - rewrite drop_bytes_cons. exact IH.
Qed.

Lemma take_bytes_app (a b : string) : take_bytes (String.length a) (a ++ b) = a.
Proof.
  unfold take_bytes. induction a as [|c a IH]; simpl.
  - by destruct b.
  - f_equal. exact IH.
Qed.

Lemma HasPrefix_app (pre s : string) : strings_HasPrefix (pre ++ s) pre = true.
Proof.
  induction pre as [|c pre IH]; simpl; [reflexivity|].
  rewrite bool_decide_eq_true_2 by reflexivity. exact IH.
Qed.

Lemma HasPrefix_inv (s pre : string) :
  strings_HasPrefix s pre = true -> exists r, s = pre ++ r.
Proof.
  revert s. induction pre as [|c pre IH]; intros s H.
  - exists s. reflexivity.
  - destruct s as [|d s]; [discriminate|]. simpl in H.
    apply andb_prop in H as [Hc Hp]. apply bool_decide_eq_true_1 in Hc.
    destruct (IH s Hp) as [r ->]. exists r. simpl. congruence.
Qed.

Lemma rev_app_spec (s acc : string) : String.rev_app s acc = String.rev s ++ acc.
Proof.
  unfold String.rev. revert acc. induction s as [|c s IH]; intros acc; simpl.
  - reflexivity.
  - rewrite IH. rewrite (IH (String c "")). rewrite append_assoc. reflexivity.
Qed.

Lemma rev_cons c (s : string) : String.rev (String c s) = String.rev s ++ String c "".
Proof. unfold String.rev at 1. simpl. apply rev_app_spec. Qed.

Lemma rev_append (a b : string) : String.rev (a ++ b) = String.rev b ++ String.rev a.
Proof.
  induction a as [|c a IH]; simpl.
  - rewrite append_nil_r. reflexivity.
  - rewrite !rev_cons, IH, append_assoc. reflexivity.
Qed.

Lemma rev_involutive (s : string) : String.rev (String.rev s) = s.
Proof.
  induction s as [|c s IH]; [reflexivity|].
  rewrite rev_cons, rev_append, IH. reflexivity.
Qed.

Lemma HasSuffix_app (s suf : string) : strings_HasSuffix (s ++ suf) suf = true.
Proof. unfold strings_HasSuffix. rewrite rev_append. apply HasPrefix_app. Qed.

Lemma HasSuffix_inv (s suf : string) :
  strings_HasSuffix s suf = true -> exists p, s = p ++ suf.
Proof.
  unfold strings_HasSuffix. intros H. apply HasPrefix_inv in H as [r Hr].
  exists (String.rev r).
  rewrite <- (rev_involutive s), Hr, rev_append, rev_involutive. reflexivity.
Qed.

(** A name that ends in [.tmp] does not end in [.json]. *)
Lemma tmp_not_json (s : string) : strings_HasSuffix (s ++ ".tmp") ".json" = false.
Proof. unfold strings_HasSuffix. rewrite rev_append. reflexivity. Qed.

Lemma append_inj_r (a b c : string) : a ++ b = a ++ c -> b = c.
Proof. induction a; simpl; intros H; [exact H|]. injection H. auto. Qed.

Lemma append_inj_l (a b c : string) : a ++ c = b ++ c -> a = b.
Proof.
  intros H. apply (f_equal String.rev) in H. rewrite !rev_append in H.
  apply append_inj_r in H. apply (f_equal String.rev) in H.
  rewrite !rev_involutive in H. exact H.
Qed.

(** ** Paths *)

Lemma db_name_Join (name : string) :
  db_name (filepath_Join dbDir name) = Some name.
Proof.
  unfold db_name, filepath_Join. rewrite <- append_assoc.
  rewrite HasPrefix_app, drop_bytes_app. reflexivity.
Qed.

Lemma db_name_notePath id : db_name (notePath id) = Some (noteName id).
Proof. apply db_name_Join. Qed.

Lemma db_name_tmp id :
  db_name (notePath id ++ ".tmp") = Some (noteName id ++ ".tmp").
Proof.
  unfold notePath, filepath_Join. rewrite !append_assoc.
  rewrite <- (append_assoc dbDir "/"). unfold db_name.
  rewrite HasPrefix_app, drop_bytes_app. reflexivity.
Qed.

Lemma noteName_json id : strings_HasSuffix (noteName id) ".json" = true.
Proof. apply HasSuffix_app. Qed.

Lemma tmp_neq_noteName id id' : noteName id ++ ".tmp" <> noteName id'.
Proof.
  intros H. pose proof (tmp_not_json (noteName id)) as Ht.
  rewrite H, noteName_json in Ht. discriminate.
Qed.

(** ** Decimal printing is injective *)

Lemma digits_value_snoc (s : string) c :
  digits_value (s ++ String c "") = (digits_value s * 10 + (code c - 0x30))%N.
Proof.
  unfold digits_value.
  assert (H : forall a, fold_left (fun acc c => (acc * 10 + (code c - 48))%N)
                        (list_ascii_of_string (s ++ String c "")) a
                 = (fold_left (fun acc c => (acc * 10 + (code c - 48))%N)
                        (list_ascii_of_string s) a * 10 + (code c - 48))%N).
  { induction s as [|d s IH]; intros a; simpl; [reflexivity|apply IH]. }
  apply H.
Qed.

Lemma code_digit_char n : (n < 10)%N -> (code (digit_char n) - 0x30 = n)%N.
Proof.
  intros H. unfold code, digit_char, byte_of.
  rewrite N_ascii_embedding by lia. lia.
Qed.

Lemma digits_value_decimal_fuel fuel n :
  (n < 2 ^ N.of_nat fuel)%N -> digits_value (decimal_fuel fuel n) = n.
Proof.
  revert n. induction fuel as [|fuel IH]; intros n Hn.
  - simpl in Hn. assert (n = 0%N) by lia. subst. reflexivity.
  - simpl. destruct (N.ltb_spec n 10) as [Hlt|Hge].
    + unfold digits_value. simpl. rewrite code_digit_char by exact Hlt. lia.
    + rewrite digits_value_snoc, code_digit_char
        by (apply N.mod_upper_bound; lia).
      rewrite IH.
      * pose proof (N.div_mod n 10). lia.
      * rewrite Nat2N.inj_succ, N.pow_succ_r' in Hn.
        apply N.Div0.div_lt_upper_bound. lia.
Qed.

Lemma digits_value_decimal n : digits_value (decimal n) = n.
Proof.
  unfold decimal. apply digits_value_decimal_fuel.
  rewrite Nat2N.inj_succ, N2Nat.id.
  destruct n as [|p]; [reflexivity|]. apply N.log2_spec. lia.
Qed.

Lemma digits_value_zeros k (s : string) :
  digits_value (repeat_byte "0" k ++ s) = digits_value s.
Proof. induction k as [|k IH]; simpl; [reflexivity|]. exact IH. Qed.

Lemma decimal_inj n m : decimal n = decimal m -> n = m.
Proof.
  intros H. rewrite <- (digits_value_decimal n), <- (digits_value_decimal m).
  congruence.
Qed.

Lemma digit_char_not_minus k : (k < 10)%N -> digit_char k <> "-"%char.
Proof.
  intros Hk Hc. apply (f_equal code) in Hc.
  unfold code, digit_char, byte_of in Hc.
  rewrite N_ascii_embedding in Hc by lia.
  change (N_of_ascii "-") with 45%N in Hc. lia.
Qed.

Lemma decimal_fuel_head fuel n :
  exists c r, decimal_fuel (S fuel) n = String c r /\ c <> "-"%char.
Proof.
  revert n. induction fuel as [|fuel IH]; intros n.
  - simpl. destruct (N.ltb_spec n 10).
    + eexists _, _. split; [reflexivity|]. by apply digit_char_not_minus.
    + eexists _, _. split; [reflexivity|].
      apply digit_char_not_minus, N.mod_upper_bound. lia.
  - cbn [decimal_fuel]. destruct (N.ltb_spec n 10).
    + eexists _, _. split; [reflexivity|]. by apply digit_char_not_minus.
    + destruct (IH (n / 10)%N) as (c & r & Hr & Hc).
      cbn [decimal_fuel] in Hr. rewrite Hr. simpl. eauto.
Qed.

Lemma padded_head k n :
  exists c r, repeat_byte "0" k ++ decimal n = String c r /\ c <> "-"%char.
Proof.
  destruct k as [|k]; simpl.
  - apply decimal_fuel_head.
  - eexists _, _. split; [reflexivity|]. discriminate.
Qed.

Lemma fmt_d_zero_inj w a b : fmt_d true w a = fmt_d true w b -> a = b.
Proof.
  unfold fmt_d, pad_left.
  destruct (Z.ltb_spec a 0) as [Ha|Ha], (Z.ltb_spec b 0) as [Hb|Hb]; intros H.
  - simpl in H. injection H as H.
    apply (f_equal digits_value) in H.
    rewrite !digits_value_zeros, !digits_value_decimal in H. lia.
  - exfalso.
    destruct (padded_head (w - String.length (decimal (Z.abs_N b))) (Z.abs_N b))
      as (c & r & Hr & Hc).
    rewrite Hr in H. simpl in H. congruence.
  - exfalso.
    destruct (padded_head (w - String.length (decimal (Z.abs_N a))) (Z.abs_N a))
      as (c & r & Hr & Hc).
    rewrite Hr in H. simpl in H. congruence.
  - apply (f_equal digits_value) in H.
    rewrite !digits_value_zeros, !digits_value_decimal in H. lia.
Qed.

Lemma noteName_inj id id' : noteName id = noteName id' -> id = id'.
Proof.
  unfold noteName. intros H. apply append_inj_l in H.
  eapply fmt_d_zero_inj. exact H.
Qed.

#[global] Instance name_le_total : Total name_le.
Proof. intros a b. unfold name_le. apply total, _. Qed.
#[global] Instance name_le_trans : Transitive name_le.
Proof. intros a b c. unfold name_le. apply transitivity. Qed.
#[global] Instance id_le_total : Total id_le.
Proof. intros a b. unfold id_le. lia. Qed.
#[global] Instance id_le_trans : Transitive id_le.
Proof. intros a b c. unfold id_le. lia. Qed.

Lemma listing_Permutation d : listing d ≡ₚ map_to_list d.
Proof. apply merge_sort_Permutation. Qed.

Lemma listing_empty : listing ∅ = [].
Proof. unfold listing. rewrite map_to_list_empty. reflexivity. Qed.

Lemma listing_lookup d name nd :
  (name, nd) ∈ listing d <-> d !! name = Some nd.
Proof. rewrite listing_Permutation. apply elem_of_map_to_list. Qed.

Lemma loadAll_step_record f d acc p :
  p ∈ listing d ->
  loadAll_step f (Dir d) acc (entry_of p) = (acc ++ option_list (record_of f p))%list.
Proof.
  destruct p as [name nd]. intros Hin. apply listing_lookup in Hin.
  unfold loadAll_step, record_of, entry_of, os_ReadFile.
  cbn [Name IsDir fst snd]. rewrite db_name_Join. cbn [entries]. rewrite Hin.
  destruct nd as [b| |[b|]]; simpl; rewrite ?app_nil_r; try reflexivity;
    destruct (strings_HasSuffix name ".json"); simpl; rewrite ?app_nil_r;
    try reflexivity;
    destruct (read_fails f name); simpl; rewrite ?app_nil_r; try reflexivity;
    destruct (json_Unmarshal b); simpl; rewrite ?app_nil_r; reflexivity.
Qed.

Lemma loadAll_loop f d es acc :
  (forall p, p ∈ es -> p ∈ listing d) ->
  fold_left (loadAll_step f (Dir d)) (map entry_of es) acc
  = (acc ++ omap (record_of f) es)%list.
Proof.
  revert acc. induction es as [|p es IH]; intros acc Hin; simpl.
  - by rewrite app_nil_r.
  - rewrite loadAll_step_record by (apply Hin; left).
    rewrite IH by (intros; apply Hin; by right).
    rewrite <- app_assoc. f_equal. by destruct (record_of f p).
Qed.

(** The scan of a directory that is there. *)
Lemma loadAll_Dir f d :
  mkdir_fails f = false -> readdir_fails f = false ->
  loadAll f (Dir d) = (Ok (sort_Slice (omap (record_of f) (listing d))), Dir d).
Proof.
  intros Hm Hr. unfold loadAll, bind, ensureDir, os_MkdirAll, os_ReadDir.
  rewrite Hm, Hr. rewrite loadAll_loop by auto. reflexivity.
Qed.

Lemma loadAll_NoDir f :
  mkdir_fails f = false -> readdir_fails f = false ->
  loadAll f NoDir = (Ok [], Dir ∅).
Proof.
  intros Hm Hr. unfold loadAll, bind, ensureDir, os_MkdirAll, os_ReadDir.
  rewrite Hm, Hr. reflexivity.
Qed.

Lemma loadAll_Err f w r w' :
  loadAll f w = (r, w') ->
  is_ok r = true <-> (mkdir_fails f = false /\ readdir_fails f = false /\ w <> NotADir).
Proof.
  unfold loadAll, bind, ensureDir, os_MkdirAll, os_ReadDir.
  destruct (mkdir_fails f), (readdir_fails f), w; simpl;
    intros [= <- <-]; simpl; split; intros; try discriminate;
    try (repeat split; congruence); try tauto.
  all: destruct H as (? & ? & ?); congruence.
Qed.

Lemma record_of_Some f name nd n :
  record_of f (name, nd) = Some n <->
  nd <> Directory /\ strings_HasSuffix name ".json" = true
  /\ read_fails f name = false
  /\ exists b, node_data (Some nd) = Some b /\ json_Unmarshal b = Some n.
Proof.
  unfold record_of. simpl. split.
  - destruct nd as [b| |[b|]]; try discriminate;
      destruct (strings_HasSuffix name ".json"); try discriminate;
      destruct (read_fails f name); try discriminate; simpl; intros H;
      try discriminate; (split; [discriminate|]); repeat split; eauto.
  - intros (Hd & -> & -> & b & Hb & Hn).
    destruct nd as [b'| |[b'|]]; simpl in *; try congruence.
Qed.

(** ** [saveNote] *)


Lemma tmpName_neq id id' : tmpName id <> noteName id'.
Proof. apply tmp_neq_noteName. Qed.


(** [saveNote] on a directory that is there, step by step. *)
Lemma saveNote_Dir f n d :
  saveNote f n (Dir d) =
  if mkdir_fails f then (Err (PathError "mkdir" dbDir), Dir d) else
  match json_MarshalIndent n with
  | None => (Err MarshalerError, Dir d)
  | Some b =>
    let tmp := notePath (ID n) ++ ".tmp" in
    match write_fails f with
    | WriteOpenFails => (Err (PathError "open" tmp), Dir d)
    | WriteCutShort k =>
      match write_through (d !! tmpName (ID n)) (take_bytes k b) with
      | Some nd => (Err (PathError "write" tmp), Dir (<[tmpName (ID n) := nd]> d))
      | None => (Err (PathError "open" tmp), Dir d)
      end
    | WriteOK =>
      match write_through (d !! tmpName (ID n)) b with
      | None => (Err (PathError "open" tmp), Dir d)
      | Some nd =>
        if rename_fails f || is_dir (d !! noteName (ID n))
        then (Err (PathError "rename" tmp), Dir (<[tmpName (ID n) := nd]> d))
        else (Ok tt, Dir (<[noteName (ID n) := nd]> (delete (tmpName (ID n)) d)))
      end
    end
  end.
Proof.
  unfold saveNote, bind, ensureDir, os_MkdirAll, json_MarshalIndent_M,
    os_WriteFile, os_Rename, ret, fail.
  rewrite db_name_tmp, db_name_notePath. fold (tmpName (ID n)).
  pose proof (tmpName_neq (ID n) (ID n)) as Hne.
  destruct (mkdir_fails f); [reflexivity|].
  destruct (json_MarshalIndent n) as [b|]; [|reflexivity].
  destruct (write_fails f) as [| |k]; [|reflexivity|].
  - destruct (write_through (d !! tmpName (ID n)) b) as [nd|] eqn:Hw;
      [|reflexivity].
    destruct (rename_fails f); [reflexivity|]. simpl.
    rewrite lookup_insert_eq, bool_decide_eq_false_2 by exact Hne.
    rewrite lookup_insert_ne by exact Hne. rewrite delete_insert_eq.
    assert (Hnd : nd <> Directory).
    { unfold write_through in Hw.
      destruct (d !! tmpName (ID n)) as [[| |]|]; congruence. }
    unfold can_replace, is_dir.
    destruct nd; [|congruence|];
      destruct (d !! noteName (ID n)) as [[| |]|]; reflexivity.
  - destruct (write_through (d !! tmpName (ID n)) (take_bytes k b)); reflexivity.
Qed.

Lemma saveNote_NoDir f n :
  saveNote f n NoDir =
  if mkdir_fails f then (Err (PathError "mkdir" dbDir), NoDir)
  else saveNote f n (Dir ∅).
Proof.
  unfold saveNote, bind, ensureDir, os_MkdirAll.
  destruct (mkdir_fails f); reflexivity.
Qed.

Lemma saveNote_NotADir f n : saveNote f n NotADir = (Err (PathError "mkdir" dbDir), NotADir).
Proof.
  unfold saveNote, bind, ensureDir, os_MkdirAll.
  destruct (mkdir_fails f); reflexivity.
Qed.

Lemma loadNote_spec f id w :
  loadNote f id w = (load_result f id (node_data (entries w !! noteName id)), w).
Proof.
  unfold loadNote, bind, os_ReadFile, load_result, ret, fail.
  rewrite db_name_notePath.
  destruct (read_fails f (noteName id)); [reflexivity|].
  destruct (node_data (entries w !! noteName id)) as [b|]; [|reflexivity].
  destruct (json_Unmarshal b); reflexivity.
Qed.

Lemma write_through_data o b nd :
  write_through o b = Some nd -> node_data (Some nd) = Some b.
Proof.
  unfold write_through. destruct o as [[| |]|]; intros [= <-]; reflexivity.
Qed.

(** The outcome of [saveNote] in terms of the entries before and after. *)
Lemma saveNote_outcome f n w r w' :
  saveNote f n w = (r, w') ->
  (is_ok r = true /\ write_fails f = WriteOK /\ rename_fails f = false /\
   exists b nd, json_MarshalIndent n = Some b /\
     write_through (entries w !! tmpName (ID n)) b = Some nd /\
     entries w' = <[noteName (ID n) := nd]> (delete (tmpName (ID n)) (entries w)))
  \/ (is_ok r = false /\
      (entries w' = entries w
       \/ exists nd, entries w' = <[tmpName (ID n) := nd]> (entries w))).
Proof.
  assert (HD : forall d, saveNote f n (Dir d) = (r, w') ->
    (is_ok r = true /\ write_fails f = WriteOK /\ rename_fails f = false /\
     exists b nd, json_MarshalIndent n = Some b /\
       write_through (d !! tmpName (ID n)) b = Some nd /\
       entries w' = <[noteName (ID n) := nd]> (delete (tmpName (ID n)) d))
    \/ (is_ok r = false /\
        (entries w' = d \/ exists nd, entries w' = <[tmpName (ID n) := nd]> d))).
  { intros d. rewrite saveNote_Dir.
    destruct (mkdir_fails f); [intros [= <- <-]; right; auto|].
    destruct (json_MarshalIndent n) as [b|]; [|intros [= <- <-]; right; auto].
    cbv zeta. destruct (write_fails f) as [| |k].
    - destruct (write_through _ b) as [nd|] eqn:Hw;
        [|intros [= <- <-]; right; auto].
      destruct (rename_fails f); simpl.
      + intros [= <- <-]. right. simpl. eauto.
      + destruct (is_dir _); intros [= <- <-].
        * right. simpl. eauto.
        * left. repeat split; auto. exists b, nd.
          repeat split; eauto.
    - intros [= <- <-]; right; auto.
    - destruct (write_through _ _) as [nd|]; intros [= <- <-]; right; simpl; eauto. }
  destruct w as [| |d].
  - rewrite saveNote_NoDir. destruct (mkdir_fails f).
    + intros [= <- <-]. right. auto.
    + apply HD.
  - rewrite saveNote_NotADir. intros [= <- <-]. right. auto.
  - apply HD.
Qed.

Lemma saveNote_entries f n w :
  mkdir_fails f = false -> w <> NotADir ->
  saveNote f n w = saveNote f n (Dir (entries w)).
Proof.
  intros Hm Hw. destruct w as [| |d]; [|done|reflexivity].
  by rewrite saveNote_NoDir, Hm.
Qed.

Lemma write_through_is_dir o b :
  is_dir o = false -> exists nd, write_through o b = Some nd.
Proof. destruct o as [[| |]|]; intros H; try discriminate H; by eexists. Qed.

(** [saveNote] when neither the directory nor the serialization stands
    in its way: by the failure injected into the write and the rename. *)
Lemma saveNote_steps f n w b :
  mkdir_fails f = false -> w <> NotADir -> json_MarshalIndent n = Some b ->
  is_dir (entries w !! tmpName (ID n)) = false ->
  exists r w', saveNote f n w = (r, w') /\
    match write_fails f with
    | WriteOpenFails => is_ok r = false /\ entries w' = entries w
    | WriteCutShort k =>
      is_ok r = false
      /\ node_data (entries w' !! tmpName (ID n)) = Some (take_bytes k b)
    | WriteOK =>
      if rename_fails f || is_dir (entries w !! noteName (ID n))
      then is_ok r = false
           /\ node_data (entries w' !! tmpName (ID n)) = Some b
      else is_ok r = true
    end.
Proof.
  intros Hm Hw Hb Ht. rewrite (saveNote_entries f n w Hm Hw), saveNote_Dir.
  rewrite Hm, Hb. cbv zeta.
  destruct (write_fails f) as [| |k].
  - destruct (write_through_is_dir _ b Ht) as [nd Hnd]. rewrite Hnd.
    destruct (rename_fails f || is_dir _); eexists _, _; (split; [reflexivity|]).
    + split; [reflexivity|]. cbn [entries]. rewrite lookup_insert_eq.
      by eapply write_through_data.
    + reflexivity.
  - eexists _, _. split; [reflexivity|]. done.
  - destruct (write_through_is_dir _ (take_bytes k b) Ht) as [nd Hnd].
    rewrite Hnd. eexists _, _. split; [reflexivity|].
    split; [reflexivity|]. cbn [entries]. rewrite lookup_insert_eq.
    by eapply write_through_data.
Qed.

(** C1.  [saveNote] writes the serialized note under a temporary name in
    the directory and renames it onto the name derived from the id.
    When nothing stands in its way (no injected failure, a note that can
    be serialized, no directory at either name) it succeeds.  The record
    goes to the temporary name first: when the write is cut short, the
    part written is there, and when the write went through but the save
    failed all the same, the complete record is there.  Any injected
    failure of the write or of the rename makes it fail; when it fails,
    the entry at the final name is what it was (or still absent); when
    it succeeds, the final name reads as the complete serialization and
    the temporary name is gone; no other name is touched.  So a later
    [loadNote] sees either what it saw before or the complete new record,
    never a part of it.  (Every name of the directory has bytes of its
    own: no two names are links to one file.) *)
Theorem saveNote_atomic (f : faults) (n : Note) (w w' : store)
    (r : result unit) (Hrun : saveNote f n w = (r, w')) :
  db_name (notePath (ID n) ++ ".tmp") = Some (tmpName (ID n))
  /\ db_name (notePath (ID n)) = Some (noteName (ID n))
  /\ (mkdir_fails f = false -> write_fails f = WriteOK ->
      rename_fails f = false -> w <> NotADir ->
      is_some (json_MarshalIndent n) = true ->
      is_dir (entries w !! tmpName (ID n)) = false ->
      is_dir (entries w !! noteName (ID n)) = false ->
      is_ok r = true)
  /\ (forall b, mkdir_fails f = false -> w <> NotADir ->
      json_MarshalIndent n = Some b ->
      is_dir (entries w !! tmpName (ID n)) = false ->
      (write_fails f = WriteOK -> is_ok r = false ->
       node_data (entries w' !! tmpName (ID n)) = Some b)
      /\ (forall k, write_fails f = WriteCutShort k ->
          node_data (entries w' !! tmpName (ID n)) = Some (take_bytes k b)))
  /\ (write_fails f <> WriteOK \/ rename_fails f = true -> is_ok r = false)
  /\ (is_ok r = false ->
      entries w' !! noteName (ID n) = entries w !! noteName (ID n))
  /\ (is_ok r = true ->
      exists b, json_MarshalIndent n = Some b
        /\ node_data (entries w' !! noteName (ID n)) = Some b
        /\ entries w' !! tmpName (ID n) = None)
  /\ (forall name, name <> noteName (ID n) -> name <> tmpName (ID n) ->
      entries w' !! name = entries w !! name)
  /\ (forall f',
      (loadNote f' (ID n) w').1 = (loadNote f' (ID n) w).1
      \/ (is_ok r = true /\ exists b, json_MarshalIndent n = Some b
          /\ (loadNote f' (ID n) w').1 = load_result f' (ID n) (Some b))).
Proof.
  pose proof (tmpName_neq (ID n) (ID n)) as Hne.
  split; [apply db_name_tmp|]. split; [apply db_name_notePath|].
  split.
  { intros Hm Hwf Hrf Hw Hb Ht Hd.
    destruct (json_MarshalIndent n) as [b|] eqn:Eb; [|discriminate Hb].
    destruct (saveNote_steps f n w b Hm Hw Eb Ht) as (r0 & w0 & Hs & H).
    rewrite Hwf, Hrf, Hd in H. cbn in H. congruence. }
  split.
  { intros b Hm Hw Eb Ht.
    destruct (saveNote_steps f n w b Hm Hw Eb Ht) as (r0 & w0 & Hs & H).
    assert (r0 = r /\ w0 = w') as [-> ->] by (split; congruence).
    split.
    - intros Hwf Hfail. rewrite Hwf in H.
      destruct (rename_fails f || is_dir _); [apply H|congruence].
    - intros k Hwf. rewrite Hwf in H. apply H. }
  apply saveNote_outcome in Hrun
    as [(Hok & Hw & Hr & b & nd & Hb & Hnd & He)|(Hok & He)].
  - split; [intros [?|?]; congruence|].
    split; [congruence|].
    split; [intros _; exists b; rewrite He, lookup_insert_eq, lookup_insert_ne,
                         lookup_delete_eq by congruence;
            eauto using write_through_data|].
    split.
    + intros name H1 H2.
      rewrite He, lookup_insert_ne, lookup_delete_ne by congruence. reflexivity.
    + intros f'. right. split; [exact Hok|]. exists b. split; [exact Hb|].
      rewrite loadNote_spec. simpl.
      rewrite He, lookup_insert_eq, (write_through_data _ _ _ Hnd).
      reflexivity.
  - assert (Hfinal : entries w' !! noteName (ID n) = entries w !! noteName (ID n)).
    { destruct He as [->|[nd ->]]; [reflexivity|].
      apply lookup_insert_ne. exact Hne. }
    split; [auto|]. split; [auto|]. split; [congruence|]. split.
    + intros name H1 H2. destruct He as [->|[nd ->]]; [reflexivity|].
      apply lookup_insert_ne. congruence.
    + intros f'. left. rewrite !loadNote_spec. simpl. rewrite Hfinal.
      reflexivity.
Qed.

Lemma saveNote_atomic_witness :
  (let run := saveNote no_faults (with_tags (note_with_id 1) ["x"]) sample_store in
   is_ok run.1 = true
   /\ node_data (entries run.2 !! noteName 1)
      = json_MarshalIndent (with_tags (note_with_id 1) ["x"])
   /\ entries run.2 !! tmpName 1 = None)
  /\ (let run := saveNote rename_fault (with_tags (note_with_id 1) ["x"])
                   sample_store in
      is_ok run.1 = false
      /\ entries run.2 !! noteName 1 = Some (Regular sample_json)
      /\ node_data (entries run.2 !! tmpName 1)
         = json_MarshalIndent (with_tags (note_with_id 1) ["x"])).
Proof.
  split; cbv zeta.
  - destruct (saveNote no_faults (with_tags (note_with_id 1) ["x"]) sample_store)
      as [r w'] eqn:Hrun.
    destruct (saveNote_atomic _ _ _ _ _ Hrun) as (_ & _ & Hs & _ & _ & _ & Hg & _).
    assert (Hr : is_ok r = true) by (apply Hs; by vm_compute).
    split; [exact Hr|]. cbn [fst snd].
    destruct (Hg Hr) as (b & Hb & Hd & Ht).
    change (ID (with_tags (note_with_id 1) ["x"])) with 1 in Hd, Ht.
    by rewrite Hd, Ht, Hb.
  - destruct (saveNote rename_fault (with_tags (note_with_id 1) ["x"]) sample_store)
      as [r w'] eqn:Hrun.
    destruct (saveNote_atomic _ _ _ _ _ Hrun) as (_ & _ & _ & Ht & Hf & Hu & _).
    assert (Hr : is_ok r = false) by (apply Hf; right; reflexivity).
    split; [exact Hr|]. cbn [fst snd]. split.
    + etrans; [exact (Hu Hr)|]. vm_compute. reflexivity.
    + destruct (json_MarshalIndent (with_tags (note_with_id 1) ["x"]))
        as [b|] eqn:Eb; [|by vm_compute in Eb].
      destruct (Ht b eq_refl ltac:(discriminate) eq_refl ltac:(by vm_compute))
        as [Hfull _].
      exact (Hfull eq_refl Hr).
Defined.

(** C4 (amended).  If the serialization of [n] decodes back to [n], then
    after a successful [saveNote n] a [loadNote] of its id, whose read
    does not fail, returns [n]. *)
Theorem save_load_roundtrip (f f' : faults) (n : Note) (w w' : store) (b : string)
    (Hb : json_MarshalIndent n = Some b)
    (Hrt : json_Unmarshal b = Some n)
    (Hsave : saveNote f n w = (Ok tt, w'))
    (Hread : read_fails f' (noteName (ID n)) = false) :
  loadNote f' (ID n) w' = (Ok n, w').
Proof.
  apply saveNote_outcome in Hsave
    as [(_ & _ & _ & b' & nd & Hb' & Hnd & He)|(Hok & _)]; [|discriminate].
  rewrite loadNote_spec, He, lookup_insert_eq, (write_through_data _ _ _ Hnd).
  unfold load_result. rewrite Hread.
  assert (b' = b) as -> by congruence. rewrite Hrt. reflexivity.
Qed.

Lemma save_load_roundtrip_witness :
  loadNote no_faults 1 sample_store = (Ok (note_with_id 1), sample_store).
Proof.
  apply (save_load_roundtrip no_faults no_faults (note_with_id 1) NoDir
           sample_store sample_json); vm_compute; reflexivity.
Defined.

(** C4 as stated fails: [json.Marshal] writes a byte that is not valid
    UTF-8 as the replacement character, so a note whose title holds such
    a byte is saved without error and read back with another title. *)
Lemma roundtrip_fails_invalid_utf8 :
  (saveNote no_faults bad_utf8_note NoDir).1 = Ok tt
  /\ (loadNote no_faults (ID bad_utf8_note)
                (saveNote no_faults bad_utf8_note NoDir).2).1
     = Ok replaced_note
  /\ Title replaced_note <> Title bad_utf8_note.
Proof. repeat split; vm_compute; (reflexivity || discriminate). Qed.

#[global] Instance noteName_Inj : Inj (=) (=) noteName.
Proof. intros a b. apply noteName_inj. Qed.

Lemma files_lookup_tmp (ns : list Note) id :
  (list_to_map (file_of <$> ns) : gmap string node) !! tmpName id = None.
Proof.
  apply not_elem_of_list_to_map_1. rewrite <- list_fmap_compose.
  intros Hin. apply list_elem_of_fmap in Hin as (n & Hn & _).
  simpl in Hn. by apply tmpName_neq in Hn.
Qed.

Lemma saveAll_fresh saves : forall done w0 w,
  w0 <> NotADir ->
  entries w0 = list_to_map (file_of <$> done) ->
  saveAll saves w0 = (Ok tt, w) ->
  w <> NotADir /\
  entries w = list_to_map (file_of <$> (reverse (snd <$> saves) ++ done)%list).
Proof.
  induction saves as [|[f n] saves IH]; intros done w0 w Hw0 He.
  - intros [= <-]. auto.
  - cbn [saveAll]. unfold bind at 1.
    destruct (saveNote f n w0) as [[[]|e] w1] eqn:Hs; [|discriminate].
    intros Hrest.
    pose proof Hs as Hs'.
    apply saveNote_outcome in Hs
      as [(_ & _ & _ & b & nd & Hb & Hnd & He1)|(Hok & _)]; [|discriminate].
    rewrite He, files_lookup_tmp in Hnd. injection Hnd as <-.
    rewrite He, delete_id in He1 by apply files_lookup_tmp.
    apply (IH (n :: done) w1 w) in Hrest.
    + destruct Hrest as [Hw ->]. split; [exact Hw|].
      rewrite fmap_cons, reverse_cons, <- app_assoc. reflexivity.
    + destruct w1; [| |discriminate].
      * destruct w0; rewrite ?saveNote_NoDir, ?saveNote_NotADir, ?saveNote_Dir in Hs';
          simpl in Hs'; repeat (case_match; simplify_eq); done.
      * destruct w0; rewrite ?saveNote_NoDir, ?saveNote_NotADir, ?saveNote_Dir in Hs';
          simpl in Hs'; repeat (case_match; simplify_eq); done.
    + rewrite He1. simpl. unfold file_of at 2. rewrite Hb. reflexivity.
Qed.

Lemma StronglySorted_id_lt l :
  Sorted id_le l -> NoDup (ID <$> l) -> StronglySorted id_lt l.
Proof.
  intros Hs%Sorted_StronglySorted; [|apply _]. induction Hs as [|a l Hs IH Ha].
  - constructor.
  - rewrite fmap_cons, NoDup_cons. intros [Hnotin Hnd].
    constructor; [auto|]. rewrite Forall_forall in Ha |- *.
    intros b Hb. specialize (Ha b Hb). unfold id_le, id_lt in *.
    assert (ID a <> ID b).
    { intros Heq. apply Hnotin. rewrite Heq. apply list_elem_of_fmap. eauto. }
    lia.
Qed.

Lemma sort_Slice_Permutation l : sort_Slice l ≡ₚ l.
Proof. apply merge_sort_Permutation. Qed.

Lemma sort_Slice_Sorted l : Sorted id_le (sort_Slice l).
Proof. apply Sorted_merge_sort, _. Qed.

Lemma record_of_file f n :
  read_fails f (noteName (ID n)) = false -> roundtrips n ->
  record_of f (file_of n) = Some n.
Proof.
  intros Hr (b & Hb & Hn). unfold record_of, file_of. cbn [fst snd].
  rewrite noteName_json, Hr, Hb. simpl. exact Hn.
Qed.

Lemma omap_record_files f ns :
  (forall name, read_fails f name = false) -> Forall roundtrips ns ->
  omap (record_of f) (file_of <$> ns) = ns.
Proof.
  intros Hr. induction 1 as [|n ns Hn _ IH]; [reflexivity|].
  rewrite fmap_cons. cbn [omap list_omap].
  rewrite record_of_file by auto. f_equal. exact IH.
Qed.

(** After saves with distinct ids into a fresh store, a scan returns
    exactly the saved notes by ascending id. *)
Lemma loadAll_after_saves f saves w0 w :
  w0 = NoDir \/ w0 = Dir ∅ ->
  NoDup (ID <$> saves.*2) -> Forall roundtrips saves.*2 ->
  saveAll saves w0 = (Ok tt, w) ->
  mkdir_fails f = false -> readdir_fails f = false ->
  (forall name, read_fails f name = false) ->
  exists l, loadAll f w = (Ok l, Dir (entries w))
    /\ l ≡ₚ saves.*2 /\ StronglySorted id_lt l.
Proof.
  intros Hw0 Hnd Hrt Hs Hm Hd Hr.
  apply (saveAll_fresh saves [] w0 w) in Hs as [Hw He].
  2:{ destruct Hw0 as [->| ->]; discriminate. }
  2:{ destruct Hw0 as [->| ->]; reflexivity. }
  rewrite app_nil_r in He.
  assert (Hl : sort_Slice (omap (record_of f) (listing (entries w))) ≡ₚ saves.*2).
  { rewrite sort_Slice_Permutation, listing_Permutation, He.
    rewrite map_to_list_to_map.
    - rewrite omap_record_files; [apply reverse_Permutation|exact Hr|].
      apply Forall_reverse. exact Hrt.
    - rewrite <- list_fmap_compose.
      change (fst ∘ file_of) with (noteName ∘ ID).
      rewrite list_fmap_compose. apply NoDup_fmap_2; [apply _|].
      rewrite fmap_reverse, reverse_Permutation. exact Hnd. }
  exists (sort_Slice (omap (record_of f) (listing (entries w)))).
  split; [|split; [exact Hl|]].
  - destruct w as [| |d]; [|done|].
    + rewrite loadAll_NoDir by done. cbn [entries]. rewrite listing_empty.
      reflexivity.
    + apply loadAll_Dir; done.
  - apply StronglySorted_id_lt; [apply sort_Slice_Sorted|].
    rewrite Hl. exact Hnd.
Qed.

(** ** Entries that a scan passes over *)

Lemma listing_StronglySorted d : StronglySorted name_le (listing d).
Proof. apply StronglySorted_merge_sort; apply _. Qed.

Lemma listing_delete d k v :
  d !! k = Some v ->
  exists l1 l2, listing d = (l1 ++ (k, v) :: l2)%list
             /\ listing (delete k d) = (l1 ++ l2)%list.
Proof.
  intros Hk.
  assert (Hin : (k, v) ∈ listing d) by by apply listing_lookup.
  apply list_elem_of_split in Hin as (l1 & l2 & Hl).
  exists l1, l2. split; [exact Hl|].
  pose proof (listing_StronglySorted d) as Hs. rewrite Hl in Hs.
  apply StronglySorted_app in Hs as (H12 & Hs1 & Hs2).
  apply StronglySorted_cons in Hs2 as [Hk2 Hs2].
  assert (Hp : listing (delete k d) ≡ₚ (l1 ++ l2)%list).
  { apply (Permutation.Permutation_cons_inv (a := (k, v))).
    rewrite Permutation_middle, <- Hl.
    rewrite !listing_Permutation. by apply map_to_list_delete. }
  apply (StronglySorted_unique_strong name_le).
  - intros [a x] [b y] Ha Hb Hab Hba. unfold name_le in *. simpl in *.
    assert (a = b) as -> by (by apply (anti_symm String.le)).
    apply listing_lookup in Ha. rewrite <- Hp in Hb.
    apply listing_lookup in Hb. congruence.
  - apply listing_StronglySorted.
  - apply StronglySorted_app. split; [|done].
    intros x1 x2 H1 H2. apply H12; [done|by right].
  - exact Hp.
Qed.

Lemma record_of_not_json f k v :
  strings_HasSuffix k ".json" = false -> record_of f (k, v) = None.
Proof. unfold record_of. simpl. intros ->. by destruct v. Qed.

(** A name that does not end in [.json] makes no difference to a scan. *)
Lemma scan_delete f d k :
  strings_HasSuffix k ".json" = false ->
  omap (record_of f) (listing (delete k d)) = omap (record_of f) (listing d).
Proof.
  intros Hk. destruct (d !! k) as [v|] eqn:Hd.
  - destruct (listing_delete d k v Hd) as (l1 & l2 & -> & ->).
    rewrite !omap_app. cbn [omap list_omap].
    rewrite record_of_not_json by exact Hk. reflexivity.
  - by rewrite delete_id.
Qed.

Lemma scan_insert f d k v :
  strings_HasSuffix k ".json" = false ->
  omap (record_of f) (listing (<[k := v]> d)) = omap (record_of f) (listing d).
Proof.
  intros Hk. rewrite <- (scan_delete f (<[k := v]> d) k Hk).
  rewrite delete_insert_eq. by apply scan_delete.
Qed.

(** [loadAll] in one equation. *)
Lemma loadAll_eq f w :
  loadAll f w =
  if mkdir_fails f then (Err (PathError "mkdir" dbDir), w)
  else match w with
       | NotADir => (Err (PathError "mkdir" dbDir), w)
       | _ =>
         if readdir_fails f then (Err (PathError "open" dbDir), Dir (entries w))
         else (Ok (sort_Slice (omap (record_of f) (listing (entries w)))),
               Dir (entries w))
       end.
Proof.
  destruct (mkdir_fails f) eqn:Hm.
  - unfold loadAll, bind, ensureDir, os_MkdirAll. by rewrite Hm.
  - destruct w as [| |d].
    + destruct (readdir_fails f) eqn:Hr.
      * unfold loadAll, bind, ensureDir, os_MkdirAll, os_ReadDir.
        by rewrite Hm, Hr.
      * rewrite loadAll_NoDir by done. cbn [entries].
        by rewrite listing_empty.
    + unfold loadAll, bind, ensureDir, os_MkdirAll. by rewrite Hm.
    + destruct (readdir_fails f) eqn:Hr.
      * unfold loadAll, bind, ensureDir, os_MkdirAll, os_ReadDir.
        by rewrite Hm, Hr.
      * by apply loadAll_Dir.
Qed.

Lemma saveNote_NotADir_iff f n w r w' :
  saveNote f n w = (r, w') -> (w' = NotADir <-> w = NotADir).
Proof.
  destruct w as [| |d].
  - rewrite saveNote_NoDir. destruct (mkdir_fails f);
      [intros [= <- <-]; done|].
    rewrite saveNote_Dir. simpl.
    repeat case_match; intros [= <- <-]; done.
  - rewrite saveNote_NotADir. intros [= <- <-]; done.
  - rewrite saveNote_Dir. repeat case_match; intros [= <- <-]; done.
Qed.

(** C9.  The temporary file of [saveNote] is named after the final path
    with [.tmp] appended, and such a name does not end in [.json]; so a
    scan never parses a record out of it: whatever the directory holds
    under that name, [loadAll] returns what it would return without the
    entry, and after a failed [saveNote], which may leave its temporary
    file behind, [loadAll] returns what it returned before. *)
Theorem tmp_never_scanned :
  (forall id, db_name (notePath id ++ ".tmp") = Some (tmpName id)
              /\ tmpName id = noteName id ++ ".tmp"
              /\ strings_HasSuffix (tmpName id) ".json" = false)
  /\ (forall f id nd, record_of f (tmpName id, nd) = None)
  /\ (forall f d id nd,
        (loadAll f (Dir (<[tmpName id := nd]> d))).1
        = (loadAll f (Dir (delete (tmpName id) d))).1)
  /\ (forall f f' n w r w',
        saveNote f n w = (r, w') -> is_ok r = false ->
        (loadAll f' w').1 = (loadAll f' w).1).
Proof.
  assert (Htmp : forall id, strings_HasSuffix (tmpName id) ".json" = false)
    by (intros; apply tmp_not_json).
  split; [intros id; split; [apply db_name_tmp|split; [reflexivity|apply Htmp]]|].
  split; [intros; apply record_of_not_json, Htmp|].
  split.
  - intros f d id nd. rewrite !loadAll_eq.
    destruct (mkdir_fails f); [reflexivity|].
    destruct (readdir_fails f); [reflexivity|]. cbn [entries fst].
    rewrite scan_insert, scan_delete by apply Htmp. reflexivity.
  - intros f f' n w r w' Hs Hr.
    pose proof (saveNote_NotADir_iff _ _ _ _ _ Hs) as Hna.
    apply saveNote_outcome in Hs as [(Hok & _)|(_ & He)]; [congruence|].
    rewrite !loadAll_eq. destruct (mkdir_fails f'); [reflexivity|].
    assert (Hscan : omap (record_of f') (listing (entries w'))
                    = omap (record_of f') (listing (entries w))).
    { destruct He as [->|[nd ->]]; [reflexivity|].
      apply scan_insert, Htmp. }
    destruct w as [| |d], w' as [| |d']; cbn [fst];
      try (destruct Hna as [H1 H2]; first [by specialize (H1 eq_refl)
                                          |by specialize (H2 eq_refl)]);
      try reflexivity;
      destruct (readdir_fails f'); try reflexivity; cbn [fst];
      by rewrite Hscan.
Qed.

Lemma loadAll_Sorted f w l w' : loadAll f w = (Ok l, w') -> Sorted id_le l.
Proof.
  rewrite loadAll_eq. destruct (mkdir_fails f); [discriminate|].
  destruct w; try discriminate; destruct (readdir_fails f); try discriminate;
    intros [= <- <-]; apply sort_Slice_Sorted.
Qed.

(** C2 (amended).  [loadAll] fails only when the directory cannot be made
    or listed, never because of an entry.  Otherwise it returns, sorted
    by ascending id, exactly the notes parsed from the entries that are
    not directories, whose name ends in [.json], that can be read and
    whose content parses; every other entry is passed over.  After
    successful saves with distinct ids into a fresh store it returns
    exactly the saved notes by ascending id, and on a missing or empty
    directory it returns the empty list. *)
Theorem loadAll_spec :
  (forall f w r w', loadAll f w = (r, w') ->
     (is_ok r = true <->
      mkdir_fails f = false /\ readdir_fails f = false /\ w <> NotADir)
     /\ forall l, r = Ok l ->
        Sorted id_le l
        /\ l ≡ₚ omap (record_of f) (map_to_list (entries w))
        /\ forall n, n ∈ l <->
             exists name nd b,
               entries w !! name = Some nd /\ nd <> Directory
               /\ strings_HasSuffix name ".json" = true
               /\ read_fails f name = false
               /\ node_data (Some nd) = Some b /\ json_Unmarshal b = Some n)
  /\ (forall f saves w0 w,
        w0 = NoDir \/ w0 = Dir ∅ ->
        NoDup (ID <$> saves.*2) -> Forall roundtrips saves.*2 ->
        saveAll saves w0 = (Ok tt, w) ->
        mkdir_fails f = false -> readdir_fails f = false ->
        (forall name, read_fails f name = false) ->
        exists l, loadAll f w = (Ok l, Dir (entries w))
          /\ l ≡ₚ saves.*2 /\ StronglySorted id_lt l)
  /\ (forall f w, w = NoDir \/ w = Dir ∅ ->
        mkdir_fails f = false -> readdir_fails f = false ->
        loadAll f w = (Ok [], Dir ∅)).
Proof.
  split; [|split].
  - intros f w r w' Hrun. split; [by eapply loadAll_Err|].
    intros l ->. rewrite loadAll_eq in Hrun.
    destruct (mkdir_fails f); [discriminate|].
    assert (Hl : l = sort_Slice (omap (record_of f) (listing (entries w)))).
    { destruct w; try discriminate; destruct (readdir_fails f);
        congruence. }
    assert (Hp : l ≡ₚ omap (record_of f) (map_to_list (entries w))).
    { rewrite Hl, sort_Slice_Permutation, listing_Permutation. reflexivity. }
    split; [rewrite Hl; apply sort_Slice_Sorted|]. split; [exact Hp|].
    intros n. rewrite Hp, list_elem_of_omap. split.
    + intros ([name nd] & Hin & Hrec). apply elem_of_map_to_list in Hin.
      apply record_of_Some in Hrec as (H1 & H2 & H3 & b & H4 & H5).
      exists name, nd, b. repeat split; assumption.
    + intros (name & nd & b & Hin & H1 & H2 & H3 & H4 & H5).
      exists (name, nd). split; [by apply elem_of_map_to_list|].
      apply record_of_Some. eauto 10.
  - intros. by eapply loadAll_after_saves.
  - intros f w [-> | ->] Hm Hr.
    + by apply loadAll_NoDir.
    + rewrite loadAll_eq, Hm, Hr. cbn [entries]. by rewrite listing_empty.
Qed.

(** C2 as stated fails: an entry that is not a regular file is still
    read when it is not a directory.  A symbolic link named [x.json]
    that resolves to a note file yields a record of the scan. *)
Lemma loadAll_reads_symlink :
  let w := Dir {[ "x.json" := Symlink (Some sample_json) ]} in
  (loadAll no_faults w).1 = Ok [note_with_id 1]
  /\ ~ (forall n, n ∈ [note_with_id 1] ->
          exists name b, entries w !! name = Some (Regular b)).
Proof.
  split; [vm_compute; reflexivity|].
  intros H. destruct (H (note_with_id 1)) as (name & b & Hb);
    [apply list_elem_of_here|].
  cbn [entries] in Hb. apply lookup_singleton_Some in Hb as [_ Hb].
  discriminate.
Qed.

(** C10.  Neither [loadNote] nor [loadAll] compares the id inside a
    record with the id in its file name: with the record of note 1
    stored under the name of note 2, [loadNote 2] returns a note whose
    id is 1, and [loadAll] returns it as well. *)
Theorem loadNote_id_unchecked :
  let w := Dir {[ noteName 2 := Regular sample_json ]} in
  exists n, loadNote no_faults 2 w = (Ok n, w) /\ ID n <> 2
         /\ (loadAll no_faults w).1 = Ok [n].
Proof.
  exists (note_with_id 1). split; [vm_compute; reflexivity|].
  split; [discriminate|vm_compute; reflexivity].
Qed.

(** ** Trimming *)

Lemma trim_left_nil fuel : trim_left_fuel fuel "" = "".
Proof. by destruct fuel. Qed.

Lemma trim_right_nil fuel : trim_right_fuel fuel "" = "".
Proof. by destruct fuel. Qed.

Lemma decode_ascii c (r : string) :
  (code c <? 0x80)%N = true -> utf8_DecodeRune (String c r) = (code c, 1%nat).
Proof. intros H. unfold utf8_DecodeRune. cbv zeta. by rewrite H. Qed.

Lemma decode_last_ascii c (r : string) :
  (code c <? 0x80)%N = true ->
  utf8_DecodeLastRune_rev (String c r) = (code c, 1%nat).
Proof. intros H. unfold utf8_DecodeLastRune_rev. by rewrite H. Qed.

Lemma trim_left_blanks (ws t : string) fuel :
  blanks ws = true -> (String.length ws <= fuel)%nat ->
  trim_left_fuel fuel (ws ++ t) = trim_left_fuel (fuel - String.length ws) t.
Proof.
  unfold blanks. revert fuel. induction ws as [|c ws IH]; intros fuel Hb Hf.
  - cbn [String.append String.length]. by rewrite Nat.sub_0_r.
  - cbn [list_ascii_of_string forallb] in Hb.
    apply andb_prop in Hb as [[Hc Hs]%andb_prop Hb].
    destruct fuel as [|fuel]; [cbn in Hf; lia|].
    cbn [String.append trim_left_fuel String.length Nat.sub].
    rewrite decode_ascii by exact Hc. rewrite Hs.
    rewrite drop_bytes_cons, drop_bytes_0. apply IH; [exact Hb|].
    cbn in Hf. lia.
Qed.

Lemma trim_right_blanks (ws t : string) fuel :
  blanks ws = true -> (String.length ws <= fuel)%nat ->
  trim_right_fuel fuel (ws ++ t) = trim_right_fuel (fuel - String.length ws) t.
Proof.
  unfold blanks. revert fuel. induction ws as [|c ws IH]; intros fuel Hb Hf.
  - cbn [String.append String.length]. by rewrite Nat.sub_0_r.
  - cbn [list_ascii_of_string forallb] in Hb.
    apply andb_prop in Hb as [[Hc Hs]%andb_prop Hb].
    destruct fuel as [|fuel]; [cbn in Hf; lia|].
    cbn [String.append trim_right_fuel String.length Nat.sub].
    rewrite decode_last_ascii by exact Hc. rewrite Hs.
    rewrite drop_bytes_cons, drop_bytes_0. apply IH; [exact Hb|].
    cbn in Hf. lia.
Qed.

Lemma trim_left_graphic (s : string) fuel :
  first_graphic s = true -> trim_left_fuel fuel s = s.
Proof.
  destruct s as [|c r]; [discriminate|]. cbn [first_graphic].
  intros [Hc Hs]%andb_prop. apply negb_true_iff in Hs.
  destruct fuel; [reflexivity|]. cbn [trim_left_fuel].
  by rewrite decode_ascii, Hs by exact Hc.
Qed.

Lemma trim_right_graphic (s : string) fuel :
  first_graphic s = true -> trim_right_fuel fuel s = s.
Proof.
  destruct s as [|c r]; [discriminate|]. cbn [first_graphic].
  intros [Hc Hs]%andb_prop. apply negb_true_iff in Hs.
  destruct fuel; [reflexivity|]. cbn [trim_right_fuel].
  by rewrite decode_last_ascii, Hs by exact Hc.
Qed.

Lemma blanks_app (a b : string) : blanks (a ++ b) = blanks a && blanks b.
Proof.
  unfold blanks. induction a as [|c a IH]; [reflexivity|].
  cbn [String.append list_ascii_of_string forallb]. by rewrite IH, andb_assoc.
Qed.

Lemma blanks_rev (s : string) : blanks (String.rev s) = blanks s.
Proof.
  induction s as [|c s IH]; [reflexivity|].
  rewrite rev_cons, blanks_app, IH. unfold blanks.
  cbn [list_ascii_of_string forallb]. rewrite andb_true_r. apply andb_comm.
Qed.

Lemma length_rev (s : string) : String.length (String.rev s) = String.length s.
Proof.
  induction s as [|c s IH]; [reflexivity|].
  rewrite rev_cons, length_append, IH. cbn. lia.
Qed.

(** [strings.TrimSpace] takes the blanks off both sides of a text that
    begins and ends with something else, and leaves nothing of a text
    that is all blanks. *)
Lemma TrimSpace_solid (ws core ws' : string) :
  blanks ws = true -> blanks ws' = true -> solid core = true ->
  strings_TrimSpace (ws ++ core ++ ws') = core.
Proof.
  intros Hws Hws' [Hf Hl]%andb_prop. unfold strings_TrimSpace. cbv zeta.
  rewrite trim_left_blanks by (rewrite ?length_append; first [done|lia]).
  assert (Hfc : first_graphic (core ++ ws') = true).
  { destruct core; [discriminate|exact Hf]. }
  rewrite trim_left_graphic by exact Hfc.
  rewrite rev_append.
  rewrite trim_right_blanks
    by (rewrite ?blanks_rev, ?length_rev, ?length_append; first [done|lia]).
  rewrite trim_right_graphic by exact Hl. apply rev_involutive.
Qed.

Lemma TrimSpace_blanks (ws : string) :
  blanks ws = true -> strings_TrimSpace ws = "".
Proof.
  intros Hws. unfold strings_TrimSpace. cbv zeta.
  assert (trim_left_fuel (String.length ws) ws = "") as ->; [|reflexivity].
  rewrite <- (append_nil_r ws) at 2.
  rewrite trim_left_blanks by first [done|lia].
  apply trim_left_nil.
Qed.

(** ** Tags *)

Lemma filter_none {A} (P : A -> Prop) `{!forall x, Decision (P x)} (l : list A) :
  Forall (fun x => ~ P x) l -> filter P l = [].
Proof.
  induction 1 as [|x l Hx _ IH]; [reflexivity|].
  by rewrite filter_cons, decide_False.
Qed.

Lemma filter_all {A} (P : A -> Prop) `{!forall x, Decision (P x)} (l : list A) :
  Forall P l -> filter P l = l.
Proof.
  induction 1 as [|x l Hx _ IH]; [reflexivity|].
  by rewrite filter_cons, decide_True, IH.
Qed.

Lemma append_tags_spec tags newTags :
  append_tags tags newTags = (tags ++ trimmed_tags newTags)%list.
Proof.
  unfold append_tags, trimmed_tags. revert tags.
  induction newTags as [|t ts IH]; intros tags.
  - simpl. by rewrite app_nil_r.
  - cbn [fold_left]. rewrite IH, fmap_cons, filter_cons.
    case_bool_decide as Ht.
    + rewrite decide_False by (intros H; by apply H). reflexivity.
    + rewrite decide_True by exact Ht. by rewrite <- app_assoc.
Qed.

Lemma keep_first_filter (P : string -> Prop) `{!forall x, Decision (P x)} l :
  filter P (keep_first l) = keep_first (filter P l).
Proof.
  induction l as [|x l IH]; [reflexivity|].
  cbn [keep_first]. rewrite !filter_cons. destruct (decide (P x)) as [Hx|Hx].
  - cbn [keep_first]. f_equal. rewrite <- IH.
    rewrite !list_filter_filter. apply list_filter_iff. tauto.
  - rewrite <- IH. rewrite list_filter_filter. apply list_filter_iff.
    intros y. split; [tauto|]. intros Hy. split; [exact Hy|]. congruence.
Qed.

Lemma elem_of_keep_first l x : x ∈ keep_first l <-> x ∈ l.
Proof.
  induction l as [|y l IH]; [reflexivity|]. cbn [keep_first].
  rewrite !elem_of_cons, list_elem_of_filter, IH.
  destruct (decide (x = y)); tauto.
Qed.

Lemma NoDup_keep_first l : NoDup (keep_first l).
Proof.
  induction l as [|y l IH]; [constructor|]. cbn [keep_first].
  apply NoDup_cons. split.
  - rewrite list_elem_of_filter. tauto.
  - by apply NoDup_filter.
Qed.

Lemma keep_first_sublist l : keep_first l `sublist_of` l.
Proof.
  induction l as [|y l IH]; [constructor|]. cbn [keep_first].
  apply sublist_skip. etrans; [apply sublist_filter|exact IH].
Qed.

Lemma keep_first_NoDup l : NoDup l -> keep_first l = l.
Proof.
  induction 1 as [|x l Hx _ IH]; [reflexivity|]. cbn [keep_first].
  rewrite IH. f_equal. apply filter_all, Forall_forall.
  intros y Hy ->. contradiction.
Qed.

Lemma keep_first_app l1 l2 :
  keep_first (l1 ++ l2)
  = (keep_first l1 ++ filter (fun y => y ∉ l1) (keep_first l2))%list.
Proof.
  induction l1 as [|x l1 IH]; simpl.
  - symmetry. apply filter_all, Forall_forall.
    intros x _. apply not_elem_of_nil.
  - f_equal. rewrite IH, filter_app. f_equal.
    rewrite list_filter_filter. apply list_filter_iff.
    intros y. rewrite not_elem_of_cons. tauto.
Qed.

Lemma dedupe_loop l : forall (seen : gmap string bool) res,
  (forall t, default false (seen !! t) = true <-> t ∈ res) ->
  (fold_left dedupe_step l (seen, res)).2
  = (res ++ keep_first (filter (fun t => t ∉ res) l))%list.
Proof.
  induction l as [|t l IH]; intros seen res Hinv; simpl.
  - by rewrite app_nil_r.
  - rewrite filter_cons. destruct (default false (seen !! t)) eqn:Hs; simpl.
    + rewrite decide_False by (intros H; apply H, Hinv, Hs).
      by apply IH.
    + assert (Ht : t ∉ res) by (rewrite <- Hinv; congruence).
      rewrite decide_True by exact Ht. rewrite IH.
      * cbn [keep_first]. rewrite <- app_assoc. simpl. do 2 f_equal.
        rewrite keep_first_filter, list_filter_filter. f_equal.
        apply list_filter_iff. intros y.
        rewrite not_elem_of_app, list_elem_of_singleton. tauto.
      * intros y. rewrite elem_of_app, list_elem_of_singleton.
        destruct (decide (t = y)) as [->|Hne].
        -- rewrite lookup_insert_eq. simpl. tauto.
        -- rewrite lookup_insert_ne by exact Hne. rewrite Hinv.
           split; [tauto|]. intros [?|?]; [done|congruence].
Qed.

(** The loop with the [seen] map computes first-occurrence deduplication. *)
Lemma dedupe_spec l : dedupe l = keep_first l.
Proof.
  unfold dedupe. rewrite dedupe_loop.
  - simpl. f_equal. apply filter_all, Forall_forall.
    intros x _. apply not_elem_of_nil.
  - intros t. rewrite lookup_empty. simpl. split; [discriminate|].
    by intros ?%not_elem_of_nil.
Qed.

Lemma addTags_spec tags newTags :
  addTags tags newTags = keep_first (tags ++ trimmed_tags newTags).
Proof. unfold addTags. by rewrite dedupe_spec, append_tags_spec. Qed.

Lemma addTags_idempotent tags newTags :
  addTags (addTags tags newTags) newTags = addTags tags newTags.
Proof.
  rewrite !addTags_spec. set (T := trimmed_tags newTags).
  rewrite (keep_first_app (keep_first _)).
  rewrite (keep_first_NoDup (keep_first _)) by apply NoDup_keep_first.
  rewrite filter_none; [by rewrite app_nil_r|].
  apply Forall_forall. intros x Hx Hn. apply Hn.
  rewrite elem_of_keep_first in Hx |- *. apply elem_of_app. by right.
Qed.

Lemma cmdTag_inv f a newTags w out w' :
  cmdTag f (a :: newTags) w = (Ok out, w') ->
  exists id n, newTags <> [] /\ strconv_Atoi a = Some id
    /\ loadNote f id w = (Ok n, w)
    /\ saveNote f (with_tags n (addTags (Tags n) newTags)) w = (Ok tt, w')
    /\ out = "Updated tags for #" ++ fmt_int id ++ newline.
Proof.
  unfold cmdTag. destruct newTags as [|t ts]; [discriminate|].
  cbn [length Nat.ltb Nat.leb]. unfold bind, strconv_Atoi_M, ret, fail.
  destruct (strconv_Atoi a) as [id|]; [|discriminate].
  rewrite loadNote_spec.
  destruct (load_result f id _) as [n|e] eqn:Hl; [|discriminate].
  destruct (saveNote f _ w) as [[[]|e] w1] eqn:Hs; [|discriminate].
  intros [= <- <-]. exists id, n. split; [discriminate|].
  split; [reflexivity|]. rewrite loadNote_spec, Hl.
  split; [reflexivity|]. split; [exact Hs|reflexivity].
Qed.

(** C5.  When [cmdTag] succeeds it has saved a note that agrees with
    the loaded one in id, title, body and time, and whose tags are the
    old tags followed by the new ones, each trimmed and dropped when
    empty, deduplicated with first occurrences kept in order; the file
    of the note then holds the serialization of that note.  Trimming
    takes the blanks off both sides of a tag and leaves nothing of a tag
    of blanks (also for space runes outside ASCII).  Adding the same
    tags again changes nothing, and adding [a; a; b] and then [b; c] to
    a note without tags leaves the tags [a; b; c]. *)
Theorem cmdTag_spec :
  (forall f a newTags w out w',
     cmdTag f (a :: newTags) w = (Ok out, w') ->
     exists id n n' b,
       strconv_Atoi a = Some id /\ loadNote f id w = (Ok n, w)
       /\ saveNote f n' w = (Ok tt, w')
       /\ ID n' = ID n /\ Title n' = Title n /\ Body n' = Body n
       /\ Created n' = Created n
       /\ Tags n'
          = keep_first
              (Tags n ++ filter (fun t => t <> "") (strings_TrimSpace <$> newTags))
       /\ json_MarshalIndent n' = Some b
       /\ node_data (entries w' !! noteName (ID n)) = Some b
       /\ NoDup (Tags n')
       /\ Tags n' `sublist_of`
            (Tags n ++ filter (fun t => t <> "") (strings_TrimSpace <$> newTags))%list
       /\ (forall t, t ∈ Tags n' <->
             t ∈ Tags n
             \/ (t <> "" /\ exists s, s ∈ newTags /\ t = strings_TrimSpace s)))
  /\ ((forall ws core ws',
         blanks ws = true -> blanks ws' = true -> solid core = true ->
         strings_TrimSpace (ws ++ core ++ ws') = core)
      /\ (forall ws, blanks ws = true -> strings_TrimSpace ws = "")
      /\ strings_TrimSpace (nbsp ++ "x y" ++ wide_space) = "x y"
      /\ strings_TrimSpace (" " ++ tab ++ "tag" ++ newline) = "tag")
  /\ (forall tags newTags,
        addTags tags newTags = keep_first (tags ++ trimmed_tags newTags)
        /\ addTags (addTags tags newTags) newTags = addTags tags newTags)
  /\ addTags (addTags [] ["a"; "a"; "b"]) ["b"; "c"] = ["a"; "b"; "c"]
  /\ (let w1 := (cmdTag no_faults ["1"; "a"; "a"; "b"] sample_store).2 in
      let w2 := (cmdTag no_faults ["1"; "b"; "c"] w1).2 in
      is_ok (cmdTag no_faults ["1"; "a"; "a"; "b"] sample_store).1 = true
      /\ is_ok (cmdTag no_faults ["1"; "b"; "c"] w1).1 = true
      /\ (loadNote no_faults 1 w2).1
         = Ok {| ID := 1; Title := "t"; Body := ""; Tags := ["a"; "b"; "c"];
                 Created := sample_time |})
  /\ (let run := cmdTag no_faults
                   ["1"; "  a "; " " ++ tab; "b" ++ newline; "a"; ""]
                   sample_store in
      run.1 = Ok ("Updated tags for #1" ++ newline)
      /\ (loadNote no_faults 1 run.2).1
         = Ok {| ID := 1; Title := "t"; Body := ""; Tags := ["a"; "b"];
                 Created := sample_time |}).
Proof.
  split; [|split; [|split; [|split; [|split]]]].
  - intros f a newTags w out w' Hrun.
    apply cmdTag_inv in Hrun as (id & n & _ & Ha & Hl & Hs & _).
    rewrite addTags_spec in Hs. unfold trimmed_tags in Hs.
    pose proof Hs as Hs'.
    apply saveNote_outcome in Hs'
      as [(_ & _ & _ & b & nd & Hb & Hnd & He)|(Hok & _)]; [|discriminate].
    eexists id, n, (with_tags n _), b.
    split; [exact Ha|]. split; [exact Hl|]. split; [exact Hs|].
    do 5 (split; [reflexivity|]). split; [exact Hb|]. split.
    { rewrite He. cbn [ID with_tags]. rewrite lookup_insert_eq.
      by eapply write_through_data. }
    cbn [Tags with_tags].
    split; [apply NoDup_keep_first|]. split; [apply keep_first_sublist|].
    intros t. rewrite elem_of_keep_first, elem_of_app.
    rewrite list_elem_of_filter, list_elem_of_fmap.
    split; (intros [?|(? & s & ? & ?)]; [by left|right]); eauto.
  - split; [exact TrimSpace_solid|]. split; [exact TrimSpace_blanks|].
    split; vm_compute; reflexivity.
  - intros. split; [apply addTags_spec|apply addTags_idempotent].
  - vm_compute. reflexivity.
  - vm_compute. repeat split.
  - vm_compute. repeat split.
Qed.

(** ** Temporary files *)

(** C8, the failing path.  When the rename fails (here because the final
    name is taken by a directory; an injected failure does the same),
    [saveNote] returns the error and leaves its temporary file in the
    directory. *)
Theorem saveNote_leaves_tmp :
  let n := note_with_id 1 in
  (forall w', saveNote no_faults n (Dir {[ noteName 1 := Directory ]})
              = (Err (PathError "rename" (notePath 1 ++ ".tmp")), w') ->
     entries w' !! tmpName 1 = Some (Regular sample_json))
  /\ (exists w', saveNote no_faults n (Dir {[ noteName 1 := Directory ]})
              = (Err (PathError "rename" (notePath 1 ++ ".tmp")), w')
              /\ entries w' !! tmpName 1 = Some (Regular sample_json))
  /\ (exists f w', rename_fails f = true
        /\ saveNote f n (Dir ∅) = (Err (PathError "rename" (notePath 1 ++ ".tmp")), w')
        /\ entries w' !! tmpName 1 = Some (Regular sample_json)).
Proof.
  assert (H : exists w', saveNote no_faults (note_with_id 1)
                    (Dir {[ noteName 1 := Directory ]})
              = (Err (PathError "rename" (notePath 1 ++ ".tmp")), w')
              /\ entries w' !! tmpName 1 = Some (Regular sample_json)).
  { eexists. split; vm_compute; reflexivity. }
  split; [|split; [exact H|]].
  - destruct H as (w0 & Hs & Hl). intros w' Hw'.
    rewrite Hs in Hw'. by injection Hw' as <-.
  - exists rename_fault.
    eexists. split; [reflexivity|]. split; vm_compute; reflexivity.
Qed.

(** The editor flow removes its temporary file on every path, provided
    the removal itself does not fail. *)
Lemma openEditor_removes_tmp env initial t r t' name :
  openEditor env initial t = (r, t') ->
  temp_name env = Some name -> t !! name = None ->
  remove_fails env = false ->
  t' !! name = None.
Proof.
  unfold openEditor, os_Remove. intros Hrun Hn Hfresh Hr.
  rewrite Hn, Hfresh, Hr in Hrun.
  destruct (seed_fails env).
  - destruct (run env _ name _) as [ok t1]. destruct ok; simpl in Hrun.
    + destruct (if readback_fails env then None else t1 !! name);
        injection Hrun as <- <-; apply lookup_delete_eq.
    + injection Hrun as <- <-; apply lookup_delete_eq.
  - injection Hrun as <- <-; apply lookup_delete_eq.
  - injection Hrun as <- <-; apply lookup_delete_eq.
Qed.

(** ** Export *)

Lemma fold_append (g : string -> string) ls init :
  fold_left (fun b L => b ++ g L) ls init = init ++ concat_str (g <$> ls).
Proof.
  revert init. induction ls as [|L ls IH]; intros init; simpl.
  - by rewrite append_nil_r.
  - rewrite IH, append_assoc. reflexivity.
Qed.

Lemma export_html_eq n :
  export_html n
  = html_head n
    ++ concat_str (export_line <$> strings_Split (Body n) newline)
    ++ html_foot.
Proof. unfold export_html. rewrite fold_append, append_assoc. reflexivity. Qed.

Lemma lines_nonempty s : lines s <> [].
Proof. destruct s as [|c r]; simpl; [done|]. repeat case_match; done. Qed.

Lemma split_go_lines s : forall cur,
  split_go newline 0 cur s
  = match lines s with
    | x :: xs => (String.rev cur ++ x) :: xs
    | [] => []
    end.
Proof.
  induction s as [|c r IH]; intros cur.
  - simpl. by rewrite append_nil_r.
  - cbn [split_go lines]. unfold newline at 1. cbn [strings_HasPrefix].
    rewrite andb_true_r. case_bool_decide as Hc.
    + cbn [String.length newline Nat.sub]. rewrite IH.
      rewrite append_nil_r. simpl. destruct (lines r) eqn:E; [|reflexivity].
      by apply lines_nonempty in E.
    + rewrite IH. destruct (lines r) as [|x xs] eqn:E.
      * by apply lines_nonempty in E.
      * rewrite rev_cons, append_assoc. reflexivity.
Qed.

Lemma Split_newline s : strings_Split s newline = lines s.
Proof.
  unfold strings_Split. rewrite split_go_lines.
  destruct (lines s) eqn:E; [by apply lines_nonempty in E|reflexivity].
Qed.

Lemma Join_cons2 a b l sep :
  strings_Join (a :: b :: l) sep = a ++ sep ++ strings_Join (b :: l) sep.
Proof. reflexivity. Qed.

Lemma Join_cons_head c x xs sep :
  strings_Join (String c x :: xs) sep = String c (strings_Join (x :: xs) sep).
Proof. destruct xs; reflexivity. Qed.

Lemma Join_lines s : strings_Join (lines s) newline = s.
Proof.
  induction s as [|c r IH]; [reflexivity|]. cbn [lines].
  destruct (lines r) as [|x xs] eqn:E; [by apply lines_nonempty in E|].
  case_bool_decide as Hc.
  - subst c. rewrite Join_cons2, IH. reflexivity.
  - rewrite Join_cons_head, IH. reflexivity.
Qed.

Lemma lines_no_newline s : Forall (fun L => has_byte (byte_of 10) L = false) (lines s).
Proof.
  induction s as [|c r IH]; [by repeat constructor|]. cbn [lines].
  case_bool_decide as Hc; [by constructor|].
  destruct (lines r) as [|x xs] eqn:E; [by apply lines_nonempty in E|].
  inversion IH; subst. constructor; [|done].
  unfold has_byte in *. simpl. by rewrite bool_decide_eq_false_2.
Qed.

Lemma has_byte_app c a b : has_byte c (a ++ b) = has_byte c a || has_byte c b.
Proof.
  unfold has_byte. induction a as [|x a IH]; simpl; [done|].
  by rewrite IH, orb_assoc.
Qed.

Lemma htmlEscape_no_markup s c :
  c = "<"%char \/ c = ">"%char \/ c = dquote ->
  has_byte c (htmlEscape s) = false.
Proof.
  intros Hc. induction s as [|x s IH]; [reflexivity|].
  cbn [htmlEscape]. rewrite has_byte_app, IH, orb_false_r.
  unfold escape_html_byte. repeat case_bool_decide; subst;
    destruct Hc as [->|[->| ->]]; try reflexivity;
    unfold has_byte; simpl; rewrite orb_false_r;
    by apply bool_decide_eq_false_2.
Qed.

Lemma htmlEscape_app a b : htmlEscape (a ++ b) = htmlEscape a ++ htmlEscape b.
Proof. induction a as [|x a IH]; simpl; [done|]. by rewrite IH, append_assoc. Qed.

Lemma export_html_text n :
  export_html n
  = "<!doctype html>" ++ newline ++ "<html>" ++ newline ++ "<head>" ++ newline
    ++ "<meta charset=" ++ qt ++ "utf-8" ++ qt ++ ">" ++ newline
    ++ "<title>" ++ htmlEscape (Title n) ++ "</title>" ++ newline
    ++ "</head>" ++ newline ++ "<body>" ++ newline
    ++ "<h1>" ++ htmlEscape (Title n) ++ "</h1>" ++ newline
    ++ concat_str (export_line <$> strings_Split (Body n) newline)
    ++ "</body>" ++ newline ++ "</html>" ++ newline.
Proof.
  rewrite export_html_eq. unfold html_head, html_foot.
  rewrite !append_assoc. reflexivity.
Qed.

(** [cmdExport] once the id is read and the note loaded. *)
Lemma cmdExport_write f a out rest o w id n :
  strconv_Atoi a = Some id -> loadNote f id w = (Ok n, w) ->
  cmdExport f (a :: out :: rest) o w
  = match os_WriteFile_any f out (export_html n) o w with
    | (Err e, w2, o2) => (Err e, w2, o2)
    | (Ok _, w2, o2) =>
      (Ok ("Exported note #" ++ fmt_int id ++ " to " ++ out ++ newline), w2, o2)
    end.
Proof. intros Ha Hl. unfold cmdExport. by rewrite Ha, Hl. Qed.

Lemma cmdExport_inv f a out rest o w msg w' o' :
  cmdExport f (a :: out :: rest) o w = (Ok msg, w', o') ->
  exists id n, strconv_Atoi a = Some id /\ loadNote f id w = (Ok n, w)
    /\ os_WriteFile_any f out (export_html n) o w = (Ok tt, w', o')
    /\ msg = "Exported note #" ++ fmt_int id ++ " to " ++ out ++ newline.
Proof.
  unfold cmdExport. destruct (strconv_Atoi a) as [id|]; [|discriminate].
  rewrite loadNote_spec.
  destruct (load_result f id _) as [n|e] eqn:Hl; [|discriminate].
  destruct (os_WriteFile_any _ _ _ _ _) as [[[[]|e] w2] o2] eqn:Hw;
    [|discriminate].
  intros [= <- <- <-]. exists id, n. rewrite loadNote_spec, Hl. done.
Qed.

Lemma entry_name_db path name :
  entry_name path = Some name -> db_name path = Some name.
Proof.
  unfold entry_name. destruct (db_name path) as [nm|]; [|discriminate].
  destruct (plain_name nm); [|discriminate]. done.
Qed.

Lemma os_WriteFile_any_ok f path data o w w' o' :
  os_WriteFile_any f path data o w = (Ok tt, w', o') ->
  write_fails f = WriteOK
  /\ match entry_name path with
     | None =>
       if bool_decide (path = dbDir)
       then entries w = ∅ /\ w' = NotADir /\ o' = o
       else w' = w /\ o' = <[path := data]> o
     | Some name =>
       o' = o /\ node_data (entries w' !! name) = Some data
       /\ forall other, other <> name ->
            entries w' !! other = entries w !! other
     end.
Proof.
  unfold os_WriteFile_any, os_WriteFile.
  destruct (entry_name path) as [name|] eqn:En.
  - rewrite (entry_name_db _ _ En).
    destruct w as [| |d]; try discriminate.
    destruct (write_fails f) as [| |k]; [|discriminate|].
    + destruct (write_through (d !! name) data) as [nd|] eqn:Hnd;
        [|discriminate].
      intros [= <- <-]. split; [reflexivity|]. split; [reflexivity|].
      cbn [entries]. rewrite lookup_insert_eq.
      split; [by eapply write_through_data|].
      intros other Ho. by rewrite lookup_insert_ne.
    + destruct (write_through _ _); discriminate.
  - case_bool_decide.
    + destruct w as [| |d], (write_fails f) as [| |k]; try discriminate;
        intros [= <- <-]; done.
    + destruct (write_fails f) as [| |k]; try discriminate.
      intros [= <- <-]. done.
Qed.

Lemma loadNote_Ok_entries f id w n w' :
  loadNote f id w = (Ok n, w') -> entries w <> ∅.
Proof.
  rewrite loadNote_spec. unfold load_result.
  destruct (read_fails f _); [discriminate|].
  destruct (entries w !! noteName id) as [nd|] eqn:E; [|discriminate].
  intros _ He. by rewrite He, lookup_empty in E.
Qed.

Lemma blanks_no_marker (L : string) :
  blanks L = true -> strings_HasPrefix L "# " = false.
Proof.
  destruct L as [|c r]; [reflexivity|]. unfold blanks.
  cbn [list_ascii_of_string forallb]. intros [Hc _]%andb_prop.
  cbn [strings_HasPrefix]. case_bool_decide as E; [|reflexivity].
  subst c. discriminate Hc.
Qed.

(** C7.  The exported document is a fixed frame around the escaped
    title (in [title] and in [h1]) and one piece per line of the body;
    [cmdExport] writes it to the path given, into the store when the
    path is one of its entries, and prints one line.  The lines are the
    pieces of the body between newlines.  A line that begins with [# ]
    gives an [h2] with the marker stripped and the blanks around the
    rest taken off; any other line gives nothing when it is blank and a
    paragraph with the line as it is otherwise.  Title and line texts
    pass through [htmlEscape], which replaces [&], [<], [>] and the
    quotation mark and leaves no [<], [>] or quotation mark behind.  The
    scenario of the specification holds, as a run of [cmdExport]. *)
Theorem export_spec :
  (forall n,
     export_html n
     = "<!doctype html>" ++ newline ++ "<html>" ++ newline ++ "<head>" ++ newline
       ++ "<meta charset=" ++ qt ++ "utf-8" ++ qt ++ ">" ++ newline
       ++ "<title>" ++ htmlEscape (Title n) ++ "</title>" ++ newline
       ++ "</head>" ++ newline ++ "<body>" ++ newline
       ++ "<h1>" ++ htmlEscape (Title n) ++ "</h1>" ++ newline
       ++ concat_str (export_line <$> strings_Split (Body n) newline)
       ++ "</body>" ++ newline ++ "</html>" ++ newline)
  /\ (forall f a out rest o w msg w' o',
        cmdExport f (a :: out :: rest) o w = (Ok msg, w', o') ->
        exists id n, strconv_Atoi a = Some id /\ loadNote f id w = (Ok n, w)
          /\ msg = "Exported note #" ++ fmt_int id ++ " to " ++ out ++ newline
          /\ match entry_name out with
             | None =>
               out <> dbDir /\ w' = w /\ o' = <[out := export_html n]> o
             | Some name =>
               o' = o /\ node_data (entries w' !! name) = Some (export_html n)
               /\ forall other, other <> name ->
                    entries w' !! other = entries w !! other
             end)
  /\ (forall f a out rest o w id n,
        strconv_Atoi a = Some id -> loadNote f id w = (Ok n, w) ->
        entry_name out = None -> out <> dbDir ->
        cmdExport f (a :: out :: rest) o w
        = match write_fails f with
          | WriteOK =>
            (Ok ("Exported note #" ++ fmt_int id ++ " to " ++ out ++ newline),
             w, <[out := export_html n]> o)
          | WriteOpenFails => (Err (PathError "open" out), w, o)
          | WriteCutShort k =>
            (Err (PathError "write" out), w,
             <[out := take_bytes k (export_html n)]> o)
          end)
  /\ (forall s,
        strings_Join (strings_Split s newline) newline = s
        /\ Forall (fun L => has_byte (byte_of 10) L = false)
                  (strings_Split s newline))
  /\ (forall L,
        (strings_HasPrefix L "# " = true ->
         export_line L
         = "<h2>" ++ htmlEscape (strings_TrimSpace (drop_bytes 2 L))
           ++ "</h2>" ++ newline)
        /\ (strings_HasPrefix L "# " = false -> strings_TrimSpace L = "" ->
            export_line L = "")
        /\ (strings_HasPrefix L "# " = false -> strings_TrimSpace L <> "" ->
            export_line L = "<p>" ++ htmlEscape L ++ "</p>" ++ newline))
  /\ (forall ws core ws',
        blanks ws = true -> blanks ws' = true -> solid core = true ->
        export_line ("# " ++ ws ++ core ++ ws')
        = "<h2>" ++ htmlEscape core ++ "</h2>" ++ newline
        /\ (strings_HasPrefix (ws ++ core ++ ws') "# " = false ->
            export_line (ws ++ core ++ ws')
            = "<p>" ++ htmlEscape (ws ++ core ++ ws') ++ "</p>" ++ newline)
        /\ export_line ws = "")
  /\ (forall s,
        has_byte "<" (htmlEscape s) = false
        /\ has_byte ">" (htmlEscape s) = false
        /\ has_byte dquote (htmlEscape s) = false)
  /\ (htmlEscape "&" = "&amp;" /\ htmlEscape "<" = "&lt;"
      /\ htmlEscape ">" = "&gt;" /\ htmlEscape qt = "&quot;"
      /\ forall c s, c <> "&"%char -> c <> "<"%char -> c <> ">"%char ->
           c <> dquote -> htmlEscape (String c s) = String c (htmlEscape s))
  /\ (let doc :=
        "<!doctype html>" ++ newline ++ "<html>" ++ newline ++ "<head>"
        ++ newline ++ "<meta charset=" ++ qt ++ "utf-8" ++ qt ++ ">" ++ newline
        ++ "<title>Plan</title>" ++ newline ++ "</head>" ++ newline
        ++ "<body>" ++ newline ++ "<h1>Plan</h1>" ++ newline
        ++ "<h2>Intro</h2>" ++ newline ++ "<p>Hello &lt;world&gt;</p>"
        ++ newline ++ "<p>Bye</p>" ++ newline
        ++ "</body>" ++ newline ++ "</html>" ++ newline in
      (loadNote no_faults 3 export_store).1 = Ok export_note
      /\ cmdExport no_faults ["3"; "out.html"] ∅ export_store
         = (Ok ("Exported note #3 to out.html" ++ newline), export_store,
            {[ "out.html" := doc ]})
      /\ strings_Contains doc ("<h2>Intro</h2>" ++ newline) = true
      /\ strings_Contains doc ("<p>Hello &lt;world&gt;</p>" ++ newline) = true
      /\ strings_Contains doc ("<p>Bye</p>" ++ newline) = true
      /\ strings_Contains doc "<p></p>" = false
      /\ cmdExport no_faults ["3"; "notes_db/plan.html"] ∅ export_store
         = (Ok ("Exported note #3 to notes_db/plan.html" ++ newline),
            Dir (<["plan.html" := Regular doc]> (entries export_store)), ∅))
  /\ (cmdExport no_faults ["6"; "notes.html"] ∅ spaced_store
      = (Ok ("Exported note #6 to notes.html" ++ newline), spaced_store,
         {[ "notes.html" :=
            "<!doctype html>" ++ newline ++ "<html>" ++ newline ++ "<head>"
            ++ newline ++ "<meta charset=" ++ qt ++ "utf-8" ++ qt ++ ">"
            ++ newline
            ++ "<title>Q&amp;A &lt;&quot;draft&quot;&gt;</title>" ++ newline
            ++ "</head>" ++ newline ++ "<body>" ++ newline
            ++ "<h1>Q&amp;A &lt;&quot;draft&quot;&gt;</h1>" ++ newline
            ++ "<h2>Spaced</h2>" ++ newline ++ "<p>plain text </p>" ++ newline
            ++ "<p>#nohead</p>" ++ newline
            ++ "</body>" ++ newline ++ "</html>" ++ newline ]})).
Proof.
  split; [|split; [|split; [|split; [|split; [|split; [|split; [|split;
    [|split]]]]]]]].
  - apply export_html_text.
  - intros f a out rest o w msg w' o' Hrun.
    apply cmdExport_inv in Hrun as (id & n & Ha & Hl & Hw & Hm).
    exists id, n. split; [exact Ha|]. split; [exact Hl|].
    split; [exact Hm|]. apply os_WriteFile_any_ok in Hw as [_ Hw].
    destruct (entry_name out); [exact Hw|].
    case_bool_decide as Hd; [|by split].
    destruct Hw as (He & _). by apply loadNote_Ok_entries in Hl.
  - intros f a out rest o w id n Ha Hl Ho Hd.
    rewrite (cmdExport_write _ _ _ _ _ _ _ _ Ha Hl).
    unfold os_WriteFile_any. rewrite Ho, bool_decide_eq_false_2 by exact Hd.
    by destruct (write_fails f).
  - intros s. rewrite Split_newline. split; [apply Join_lines|].
    apply lines_no_newline.
  - intros L. unfold export_line, strings_TrimPrefix. split; [|split].
    + intros ->. reflexivity.
    + intros -> ->. reflexivity.
    + intros -> Hne. by rewrite bool_decide_eq_false_2.
  - intros ws core ws' Hws Hws' Hcore. split; [|split].
    + unfold export_line, strings_TrimPrefix.
      change (strings_HasPrefix ("# " ++ ws ++ core ++ ws') "# ") with true.
      cbv iota.
      change (drop_bytes (String.length "# ") ("# " ++ ws ++ core ++ ws'))
        with (drop_bytes 2 (String "#" (String " " (ws ++ core ++ ws')))).
      rewrite !drop_bytes_cons, drop_bytes_0.
      by rewrite TrimSpace_solid.
    + intros Hp. unfold export_line. rewrite Hp.
      rewrite TrimSpace_solid by assumption.
      rewrite bool_decide_eq_false_2; [reflexivity|].
      intros ->. discriminate Hcore.
    + unfold export_line. rewrite blanks_no_marker by exact Hws.
      by rewrite TrimSpace_blanks, bool_decide_eq_true_2.
  - intros s. repeat split; apply htmlEscape_no_markup; auto.
  - repeat split. intros c s H1 H2 H3 H4. cbn [htmlEscape].
    unfold escape_html_byte. by rewrite !bool_decide_eq_false_2.
  - cbv zeta. split_and!; vm_compute; reflexivity.
  - vm_compute. reflexivity.
Qed.

(** ** Search *)

Lemma Contains_spec s sub :
  strings_Contains s sub = true <-> exists a b, s = a ++ sub ++ b.
Proof.
  split.
  - induction s as [|c s IH]; cbn [strings_Contains].
    + rewrite orb_false_r. intros [r ->]%HasPrefix_inv. by exists "", r.
    + intros [[r ->]%HasPrefix_inv|H]%orb_prop; [by exists "", r|].
      destruct (IH H) as (a & b & ->). by exists (String c a), b.
  - intros (a & b & ->). induction a as [|c a IH].
    + simpl. destruct (sub ++ b) eqn:E; cbn [strings_Contains];
        rewrite <- E, HasPrefix_app; reflexivity.
    + simpl. cbn [strings_Contains]. rewrite IH. apply orb_true_r.
Qed.

Section SearchProps.
Variable case_table : N -> N.

Lemma search_step_hit q acc n :
  matches case_table q n = true ->
  search_step case_table q acc n
  = (acc.1 ++ fmt_d false 3 (ID n) ++ "  " ++ Title n ++ newline, acc.2 + 1).
Proof. unfold search_step. by intros ->. Qed.

Lemma search_step_miss q acc n :
  matches case_table q n = false -> search_step case_table q acc n = acc.
Proof. unfold search_step. by intros ->. Qed.

Lemma search_loop q notes out found :
  fold_left (search_step case_table q) notes (out, found)
  = (out ++ render_hits (filter (fun n => matches case_table q n = true) notes),
     found + Z.of_nat (length (filter (fun n => matches case_table q n = true) notes))).
Proof.
  revert out found. induction notes as [|n notes IH]; intros out found.
  - simpl. by rewrite append_nil_r, Z.add_0_r.
  - cbn [fold_left]. rewrite filter_cons.
    destruct (matches case_table q n) eqn:Hm.
    + rewrite decide_True by done. rewrite search_step_hit by exact Hm.
      cbn [fst snd]. rewrite IH.
      unfold render_hits. rewrite fmap_cons.
      cbn [concat_str fold_right length].
      f_equal; [by rewrite !append_assoc|lia].
    + rewrite decide_False by discriminate.
      rewrite search_step_miss by exact Hm. apply IH.
Qed.

Lemma ToLower_ascii s :
  is_ascii_string s = true ->
  strings_ToLower case_table s = map_bytes lower_byte s.
Proof. unfold strings_ToLower. by intros ->. Qed.
End SearchProps.

Lemma StronglySorted_filter_id (P : Note -> Prop) `{!forall x, Decision (P x)} l :
  StronglySorted id_le l -> StronglySorted id_le (filter P l).
Proof.
  induction 1 as [|x l Hs IH Hx]; [constructor|].
  rewrite filter_cons. case_decide; [|exact IH].
  constructor; [exact IH|]. rewrite Forall_forall in Hx |- *.
  intros y [_ Hy]%list_elem_of_filter. auto.
Qed.

Lemma map_lower_ascii s :
  is_ascii_string s = true -> is_ascii_string (map_bytes lower_byte s) = true.
Proof.
  unfold is_ascii_string. induction s as [|c s IH]; [done|]. simpl.
  intros [Hc Hs]%andb_prop. rewrite IH by exact Hs. rewrite andb_true_r.
  unfold lower_byte, in_range. destruct (_ && _) eqn:E; [|exact Hc].
  apply andb_prop in E as [_ E]. apply N.leb_le in E.
  unfold code, byte_of in *. rewrite N_ascii_embedding by lia.
  apply N.ltb_lt. lia.
Qed.

Section SearchSpec.
Variable case_table : N -> N.

Lemma cmdSearch_inv f a args w out w' :
  cmdSearch case_table f (a :: args) w = (Ok out, w') ->
  exists notes, loadAll f w = (Ok notes, w')
    /\ let q := strings_ToLower case_table (strings_Join (a :: args) " ") in
       let hits := filter (fun n => matches case_table q n = true) notes in
       out = if decide (hits = []) then "No matches." ++ newline
             else render_hits hits.
Proof.
  unfold cmdSearch, bind, ret.
  destruct (loadAll f w) as [[notes|e] w1]; [|discriminate].
  rewrite search_loop. cbn [fst snd]. intros Hrun. exists notes.
  split.
  - destruct (_ =? 0); by injection Hrun as <- <-.
  - cbv zeta.
    set (hits := filter _ notes) in *. destruct hits as [|h hits].
    + simpl in Hrun. by injection Hrun as <- <-.
    + rewrite decide_False by done.
      replace (0 + Z.of_nat (length (h :: hits)) =? 0) with false in Hrun
        by (symmetry; apply Z.eqb_neq; simpl; lia).
      by injection Hrun as <- <-.
Qed.
End SearchSpec.

Section SearchTheorem.
Variable case_table : N -> N.

(** C6 (amended).  [cmdSearch] lower-cases the query, scans the whole
    store once, and prints, in the ascending-id order of the scan, the
    notes for which the query is a substring of the lower-cased title, of
    the lower-cased body, or of the lower-cased comma-joined tags, each
    field taken on its own.  For ASCII text lower-casing maps bytes, so
    queries that differ only in case give the same result.  The scenario
    of the specification holds. *)
Theorem search_spec :
  (forall f a args w out w',
     cmdSearch case_table f (a :: args) w = (Ok out, w') ->
     exists notes, loadAll f w = (Ok notes, w')
       /\ let q := strings_ToLower case_table (strings_Join (a :: args) " ") in
          let hits := filter (fun n => matches case_table q n = true) notes in
          hits `sublist_of` notes /\ Sorted id_le hits
          /\ out = if decide (hits = []) then "No matches." ++ newline
                   else render_hits hits)
  /\ (forall q n,
        matches case_table q n = true <->
        (exists a b, strings_ToLower case_table (Title n) = a ++ q ++ b)
        \/ (exists a b, strings_ToLower case_table (Body n) = a ++ q ++ b)
        \/ (exists a b, strings_ToLower case_table (strings_Join (Tags n) ",")
                        = a ++ q ++ b))
  /\ (forall s s',
        is_ascii_string s = true -> is_ascii_string s' = true ->
        map_bytes lower_byte s = map_bytes lower_byte s' ->
        strings_ToLower case_table s = strings_ToLower case_table s')
  /\ (forall f q q' w,
        is_ascii_string q = true -> is_ascii_string q' = true ->
        map_bytes lower_byte q = map_bytes lower_byte q' ->
        cmdSearch case_table f [q] w = cmdSearch case_table f [q'] w)
  /\ (cmdSearch case_table no_faults ["api"] search_store
        = (Ok ("  2  Design Review" ++ newline), search_store)
      /\ cmdSearch case_table no_faults ["home"] search_store
        = (Ok ("  1  Groceries" ++ newline), search_store)
      /\ cmdSearch case_table no_faults ["zzz"] search_store
        = (Ok ("No matches." ++ newline), search_store)).
Proof.
  split; [|split; [|split; [|split]]].
  - intros f a args w out w' Hrun.
    apply cmdSearch_inv in Hrun as (notes & Hl & Hout).
    exists notes. split; [exact Hl|]. cbv zeta in *.
    split; [apply sublist_filter|]. split; [|exact Hout].
    apply StronglySorted_Sorted, StronglySorted_filter_id.
    apply Sorted_StronglySorted; [apply _|]. by eapply loadAll_Sorted.
  - intros q n. unfold matches. rewrite !orb_true_iff, !Contains_spec. tauto.
  - intros s s' Hs Hs' Heq. by rewrite !ToLower_ascii, Heq.
  - intros f q q' w Hq Hq' Heq. unfold cmdSearch. cbn [strings_Join].
    by rewrite !ToLower_ascii, Heq.
  - vm_compute. repeat split.
Qed.
End SearchTheorem.

(** C6 as stated fails: the match is not against the concatenation of
    the fields.  The query [bc] is a substring of title and body put
    together, with or without a separator between them, but the note is
    not found, because no single field contains it. *)
Lemma search_not_concatenation :
  let tbl := fun r : N => r in
  Forall (fun sep =>
    let q := strings_ToLower tbl ("b" ++ sep ++ "c") in
    strings_Contains
      (strings_ToLower tbl (Title split_word ++ sep ++ Body split_word ++ sep
                            ++ strings_Join (Tags split_word) ",")) q = true
    /\ matches tbl q split_word = false
    /\ cmdSearch tbl no_faults ["b" ++ sep ++ "c"] split_word_store
       = (Ok ("No matches." ++ newline), split_word_store))
    [""; " "; newline; ","].
Proof. repeat constructor; vm_compute; reflexivity. Qed.

(** * Part III: further properties of the code *)

(** ** File names *)

(** X1.  Distinct ids have distinct paths, whatever their size or sign:
    two notes never share a file. *)
Theorem notePath_distinct (id id' : Z) (Hne : id <> id') :
  notePath id <> notePath id'.
Proof.
  intros H. apply Hne. unfold notePath, filepath_Join in H.
  apply append_inj_r in H. apply append_inj_r in H.
  by apply noteName_inj.
Qed.

Lemma notePath_distinct_witness : notePath 1 <> notePath 10001.
Proof. apply (notePath_distinct 1 10001). discriminate. Defined.

Lemma all_digits_app a b :
  all_digits (a ++ b) = all_digits a && all_digits b.
Proof.
  unfold all_digits. induction a as [|c a IH]; simpl; [done|].
  by rewrite IH, andb_assoc.
Qed.

Lemma is_digit_digit_char n : (n < 10)%N -> is_digit (digit_char n) = true.
Proof.
  intros H. unfold is_digit, in_range, digit_char, code, byte_of.
  rewrite N_ascii_embedding by lia.
  apply andb_true_intro. split; apply N.leb_le; lia.
Qed.

Lemma all_digits_decimal_fuel fuel n : all_digits (decimal_fuel fuel n) = true.
Proof.
  revert n. induction fuel as [|fuel IH]; intros n; [reflexivity|].
  cbn [decimal_fuel]. destruct (N.ltb_spec n 10).
  - unfold all_digits. simpl. by rewrite is_digit_digit_char.
  - rewrite all_digits_app, IH. unfold all_digits. simpl.
    rewrite is_digit_digit_char; [done|]. apply N.mod_upper_bound. lia.
Qed.

Lemma all_digits_zeros k : all_digits (repeat_byte "0" k) = true.
Proof. induction k; [done|]. unfold all_digits in *. simpl. exact IHk. Qed.

Lemma length_repeat_byte c k : String.length (repeat_byte c k) = k.
Proof. induction k; simpl; congruence. Qed.

Lemma length_decimal_fuel fuel n k :
  (n < 10 ^ N.of_nat (S k))%N ->
  (String.length (decimal_fuel fuel n) <= S k)%nat.
Proof.
  revert n k. induction fuel as [|fuel IH]; intros n k Hn; [simpl; lia|].
  cbn [decimal_fuel]. destruct (N.ltb_spec n 10); [simpl; lia|].
  rewrite length_append. simpl. destruct k as [|k].
  - simpl in Hn. lia.
  - assert (String.length (decimal_fuel fuel (n / 10)) <= S k)%nat; [|lia].
    apply IH. rewrite (Nat2N.inj_succ (S k)), N.pow_succ_r' in Hn.
    apply N.Div0.div_lt_upper_bound. lia.
Qed.

(** X2.  The file of a note with a non-negative id is named by the
    decimal digits of the id, padded with zeros to at least four, and
    [.json]: exactly four digits up to 9999, all the digits beyond. *)
Theorem noteName_format (id : Z) (Hid : 0 <= id) :
  exists ds, noteName id = ds ++ ".json"
    /\ all_digits ds = true
    /\ Z.of_N (digits_value ds) = id
    /\ (4 <= String.length ds)%nat
    /\ (id <= 9999 -> String.length ds = 4%nat).
Proof.
  unfold noteName, fmt_d. rewrite (proj2 (Z.ltb_ge id 0)) by exact Hid.
  eexists. split; [reflexivity|]. unfold pad_left.
  rewrite all_digits_app, all_digits_zeros, digits_value_zeros,
    digits_value_decimal, length_append, length_repeat_byte.
  split; [apply all_digits_decimal_fuel|]. split; [lia|]. split; [lia|].
  intros Hmax.
  assert (String.length (decimal (Z.abs_N id)) <= 4)%nat; [|lia].
  apply (length_decimal_fuel _ _ 3). simpl. lia.
Qed.

Lemma noteName_format_witness :
  exists ds, noteName 12345 = ds ++ ".json"
    /\ all_digits ds = true
    /\ Z.of_N (digits_value ds) = 12345
    /\ (4 <= String.length ds)%nat
    /\ (12345 <= 9999 -> String.length ds = 4%nat).
Proof. apply (noteName_format 12345). lia. Defined.

(** ** Reading *)

(** X3.  A scan changes nothing in the directory (it only creates the
    directory when it is missing), and scanning again gives the same
    result. *)
Theorem loadAll_readonly (f : faults) (w w' : store) (r : result (list Note))
    (Hrun : loadAll f w = (r, w')) :
  entries w' = entries w
  /\ (w' = NotADir <-> w = NotADir)
  /\ loadAll f w' = (r, w').
Proof.
  rewrite loadAll_eq in Hrun. rewrite loadAll_eq.
  destruct (mkdir_fails f); [injection Hrun as <- <-; done|].
  destruct w as [| |d]; [|injection Hrun as <- <-; done|];
    destruct (readdir_fails f); injection Hrun as <- <-; done.
Qed.

Lemma loadAll_readonly_witness :
  entries (loadAll no_faults NoDir).2 = entries NoDir
  /\ ((loadAll no_faults NoDir).2 = NotADir <-> NoDir = NotADir)
  /\ loadAll no_faults (loadAll no_faults NoDir).2
     = ((loadAll no_faults NoDir).1, (loadAll no_faults NoDir).2).
Proof. apply (loadAll_readonly no_faults NoDir). reflexivity. Defined.

(** X4.  [loadNote] never changes the store, not even to create the
    directory.  It returns a note exactly when the file named after the
    id can be read and its content parses; a missing file gives the
    error of the open, an unparseable one the error of the parse. *)
Theorem loadNote_result (f : faults) (id : Z) (w w' : store) (r : result Note)
    (Hrun : loadNote f id w = (r, w')) :
  w' = w
  /\ (forall n, r = Ok n <->
        read_fails f (noteName id) = false
        /\ exists b, node_data (entries w !! noteName id) = Some b
                     /\ json_Unmarshal b = Some n)
  /\ (read_fails f (noteName id) = false ->
      entries w !! noteName id = None ->
      r = Err (PathError "open" (notePath id)))
  /\ (read_fails f (noteName id) = false ->
      forall b, node_data (entries w !! noteName id) = Some b ->
      json_Unmarshal b = None -> r = Err SyntaxError).
Proof.
  rewrite loadNote_spec in Hrun. injection Hrun as <- <-.
  unfold load_result. split; [reflexivity|].
  destruct (read_fails f (noteName id)).
  - split; [|split; discriminate]. intros n. split; [discriminate|].
    intros [? _]. discriminate.
  - split; [|split].
    + intros n. destruct (node_data _) as [b|].
      * destruct (json_Unmarshal b) as [m|] eqn:Hb.
        -- split; [intros [= ->]; eauto|].
           intros (_ & b' & [= <-] & Hn). congruence.
        -- split; [discriminate|]. intros (_ & b' & [= <-] & Hn). congruence.
      * split; [discriminate|]. intros (_ & b' & ? & _). discriminate.
    + intros _ ->. reflexivity.
    + intros _ b -> ->. reflexivity.
Qed.

Lemma loadNote_result_witness :
  let r := (loadNote no_faults 9 NoDir).1 in
  NoDir = NoDir
  /\ (forall n, r = Ok n <->
        read_fails no_faults (noteName 9) = false
        /\ exists b, node_data (entries NoDir !! noteName 9) = Some b
                     /\ json_Unmarshal b = Some n)
  /\ (read_fails no_faults (noteName 9) = false ->
      entries NoDir !! noteName 9 = None ->
      r = Err (PathError "open" (notePath 9)))
  /\ (read_fails no_faults (noteName 9) = false ->
      forall b, node_data (entries NoDir !! noteName 9) = Some b ->
      json_Unmarshal b = None -> r = Err SyntaxError).
Proof. apply (loadNote_result no_faults 9 NoDir NoDir). reflexivity. Defined.

(** ** Writing *)

(** X5.  Saving a note, whether it succeeds or fails, never changes what
    [loadNote] returns for any other id. *)
Theorem saveNote_other_ids (f f' : faults) (n : Note) (w w' : store)
    (r : result unit) (id : Z)
    (Hrun : saveNote f n w = (r, w')) (Hid : id <> ID n) :
  (loadNote f' id w').1 = (loadNote f' id w).1.
Proof.
  rewrite !loadNote_spec. cbn [fst]. f_equal. f_equal.
  assert (H1 : noteName id <> noteName (ID n))
    by (intros H; by apply noteName_inj in H).
  assert (H2 : tmpName (ID n) <> noteName id) by apply tmpName_neq.
  apply saveNote_outcome in Hrun
    as [(_ & _ & _ & b & nd & _ & _ & ->)|(_ & [->|[nd ->]])].
  - rewrite lookup_insert_ne, lookup_delete_ne by congruence. reflexivity.
  - reflexivity.
  - by rewrite lookup_insert_ne.
Qed.

Lemma saveNote_other_ids_witness :
  (loadNote no_faults 1
     (saveNote no_faults (note_with_id 2) sample_store).2).1
  = (loadNote no_faults 1 sample_store).1.
Proof.
  apply (saveNote_other_ids no_faults no_faults (note_with_id 2) sample_store
           _ (saveNote no_faults (note_with_id 2) sample_store).1 1).
  - by destruct (saveNote no_faults (note_with_id 2) sample_store).
  - discriminate.
Defined.

(** X6.  [saveNote] succeeds exactly when nothing is injected, the
    directory is or can be there, the note can be serialized, and
    neither its temporary name nor its final name is taken by a
    directory. *)
Theorem saveNote_success_iff (f : faults) (n : Note) (w w' : store)
    (r : result unit) (Hrun : saveNote f n w = (r, w')) :
  is_ok r = true <->
  mkdir_fails f = false /\ write_fails f = WriteOK /\ rename_fails f = false
  /\ w <> NotADir /\ is_some (json_MarshalIndent n) = true
  /\ is_dir (entries w !! tmpName (ID n)) = false
  /\ is_dir (entries w !! noteName (ID n)) = false.
Proof.
  assert (HD : forall d, saveNote f n (Dir d) = (r, w') ->
    is_ok r = true <->
    mkdir_fails f = false /\ write_fails f = WriteOK /\ rename_fails f = false
    /\ Dir d <> NotADir /\ is_some (json_MarshalIndent n) = true
    /\ is_dir (d !! tmpName (ID n)) = false
    /\ is_dir (d !! noteName (ID n)) = false).
  { intros d. rewrite saveNote_Dir.
    destruct (mkdir_fails f);
      [intros [= <- <-]; split; [discriminate|intros (? & _); discriminate]|].
    destruct (json_MarshalIndent n) as [b|];
      [|intros [= <- <-]; split; [discriminate|intros (_&_&_&_&?&_); discriminate]].
    cbv zeta. destruct (write_fails f) as [| |k].
    - unfold write_through.
      destruct (d !! tmpName (ID n)) as [[| |]|] eqn:Ht;
        try (intros [= <- <-]; split;
             [discriminate|intros (_&_&_&_&_&?&_); discriminate]);
        destruct (rename_fails f); simpl;
        try (intros [= <- <-]; split;
             [discriminate|intros (_&_&?&_); discriminate]);
        destruct (d !! noteName (ID n)) as [[| |]|]; simpl;
        intros [= <- <-]; simpl; split; try discriminate;
        try (intros (_&_&_&_&_&_&?); discriminate);
        intros _; repeat split; discriminate.
    - intros [= <- <-]; split; [discriminate|intros (_&?&_); discriminate].
    - destruct (write_through _ _); intros [= <- <-]; split;
        try discriminate; intros (_&?&_); discriminate. }
  destruct w as [| |d].
  - rewrite saveNote_NoDir in Hrun. destruct (mkdir_fails f).
    + injection Hrun as <- <-. split; [discriminate|intros (?&_); discriminate].
    + apply HD in Hrun. rewrite Hrun. cbn [entries].
      split; intros (?&?&?&_&?&?&?); repeat split; done.
  - rewrite saveNote_NotADir in Hrun. injection Hrun as <- <-.
    split; [discriminate|]. intros (_&_&_&?&_). done.
  - by apply HD.
Qed.

Lemma saveNote_success_iff_witness :
  is_ok (saveNote no_faults (note_with_id 1)
           (Dir {[ noteName 1 := Directory ]})).1 = true <->
  mkdir_fails no_faults = false /\ write_fails no_faults = WriteOK
  /\ rename_fails no_faults = false
  /\ Dir {[ noteName 1 := Directory ]} <> NotADir
  /\ is_some (json_MarshalIndent (note_with_id 1)) = true
  /\ is_dir (entries (Dir {[ noteName 1 := Directory ]})
               !! tmpName (ID (note_with_id 1))) = false
  /\ is_dir (entries (Dir {[ noteName 1 := Directory ]})
               !! noteName (ID (note_with_id 1))) = false.
Proof.
  apply (saveNote_success_iff no_faults (note_with_id 1)
           (Dir {[ noteName 1 := Directory ]})
           (saveNote no_faults (note_with_id 1)
              (Dir {[ noteName 1 := Directory ]})).2).
  by destruct (saveNote no_faults (note_with_id 1) _).
Defined.

Lemma scan_delete_perm f (d : gmap string node) k :
  strings_HasSuffix k ".json" = false ->
  omap (record_of f) (map_to_list (delete k d))
  ≡ₚ omap (record_of f) (map_to_list d).
Proof.
  intros Hk. rewrite <- !listing_Permutation. by rewrite scan_delete.
Qed.

(** X7.  After a successful save of a note that decodes back from its
    serialization, a scan whose reads do not fail returns that note
    together with exactly the records of the other files. *)
Theorem scan_after_save (f f' : faults) (n : Note) (w w' w'' : store)
    (l : list Note)
    (Hsave : saveNote f n w = (Ok tt, w'))
    (Hrt : roundtrips n)
    (Hread : read_fails f' (noteName (ID n)) = false)
    (Hscan : loadAll f' w' = (Ok l, w'')) :
  l ≡ₚ n :: omap (record_of f')
               (map_to_list (delete (noteName (ID n)) (entries w))).
Proof.
  pose proof (tmpName_neq (ID n) (ID n)) as Hne.
  apply saveNote_outcome in Hsave
    as [(_ & _ & _ & b & nd & Hb & Hnd & He)|(Hok & _)]; [|discriminate].
  rewrite loadAll_eq in Hscan.
  destruct (mkdir_fails f'); [discriminate|].
  assert (Hl : l = sort_Slice (omap (record_of f') (listing (entries w')))).
  { destruct w'; try discriminate; destruct (readdir_fails f'); congruence. }
  rewrite Hl, sort_Slice_Permutation, listing_Permutation, He.
  rewrite <- insert_delete_eq.
  rewrite map_to_list_insert by apply lookup_delete_eq.
  cbn [omap list_omap].
  assert (Hrec : record_of f' (noteName (ID n), nd) = Some n).
  { destruct Hrt as (b' & Hb' & Hn). apply record_of_Some.
    split; [unfold write_through in Hnd; repeat case_match; congruence|].
    split; [apply noteName_json|]. split; [exact Hread|].
    exists b. split; [by eapply write_through_data|congruence]. }
  rewrite Hrec. constructor.
  rewrite delete_delete. apply scan_delete_perm, tmp_not_json.
Qed.

Lemma scan_after_save_witness :
  [note_with_id 1]
  ≡ₚ note_with_id 1
     :: omap (record_of no_faults)
          (map_to_list (delete (noteName (ID (note_with_id 1))) (entries NoDir))).
Proof.
  apply (scan_after_save no_faults no_faults (note_with_id 1) NoDir
           sample_store sample_store [note_with_id 1]).
  - vm_compute. reflexivity.
  - exists sample_json. split; vm_compute; reflexivity.
  - reflexivity.
  - vm_compute. reflexivity.
Defined.

(** ** The editor *)

(** X8.  Once [openEditor] has created its temporary file, the file is
    gone when it returns, on success and on every failure, provided the
    removal itself does not fail. *)
Theorem openEditor_cleans_up (env : editor_env) (initial : string)
    (t t' : gmap string string) (r : result string) (name : string)
    (Hrun : openEditor env initial t = (r, t'))
    (Hname : temp_name env = Some name)
    (Hfresh : t !! name = None)
    (Hrm : remove_fails env = false) :
  t' !! name = None.
Proof. by eapply openEditor_removes_tmp. Qed.

Lemma openEditor_cleans_up_witness :
  (openEditor (sample_editor false) "seed" ∅).2 !! "/tmp/note-1.md" = None.
Proof.
  apply (openEditor_cleans_up (sample_editor false) "seed" ∅ _
           (openEditor (sample_editor false) "seed" ∅).1 "/tmp/note-1.md").
  - by destruct (openEditor (sample_editor false) "seed" ∅).
  - reflexivity.
  - reflexivity.
  - reflexivity.
Defined.

(** X9.  When [openEditor] succeeds, the editor that ran is the one named
    by [EDITOR], or [vim] when that is empty; it was given a fresh file
    holding the initial text; and the result is the content the editor
    left in that file. *)
Theorem openEditor_result (env : editor_env) (initial b : string)
    (t t' : gmap string string)
    (Hrun : openEditor env initial t = (Ok b, t')) :
  exists name t1,
    temp_name env = Some name /\ t !! name = None
    /\ run env (if bool_decide (EDITOR env = "") then "vim" else EDITOR env)
           name (<[name := initial]> t) = (true, t1)
    /\ readback_fails env = false
    /\ t1 !! name = Some b
    /\ t' = os_Remove env name t1.
Proof.
  unfold openEditor in Hrun.
  destruct (temp_name env) as [name|]; [|discriminate].
  destruct (t !! name) eqn:Hfresh; [discriminate|].
  destruct (seed_fails env); [|discriminate..].
  rewrite insert_insert_eq in Hrun.
  destruct (run env _ name _) as [ok t1] eqn:Hed.
  destruct ok; [|discriminate]. cbn [negb] in Hrun.
  destruct (readback_fails env); [discriminate|].
  destruct (t1 !! name) as [b'|] eqn:Hb; [|discriminate].
  injection Hrun as <- <-. exists name, t1. done.
Qed.

Lemma openEditor_result_witness :
  exists name t1,
    temp_name (sample_editor true) = Some name /\ (∅ : gmap string string) !! name = None
    /\ run (sample_editor true)
           (if bool_decide (EDITOR (sample_editor true) = "") then "vim"
            else EDITOR (sample_editor true))
           name (<[name := "seed"]> ∅) = (true, t1)
    /\ readback_fails (sample_editor true) = false
    /\ t1 !! name = Some "typed"
    /\ (∅ : gmap string string) = os_Remove (sample_editor true) name t1.
Proof.
  apply (openEditor_result (sample_editor true) "seed" "typed" ∅ ∅).
  vm_compute. reflexivity.
Defined.

(** ** Escaping *)

Lemma escape_html_byte_head c :
  exists h r, escape_html_byte c = String h r
    /\ (h = "&"%char ->
        (c = "&"%char /\ r = "amp;") \/ (c = "<"%char /\ r = "lt;")
        \/ (c = ">"%char /\ r = "gt;") \/ (c = dquote /\ r = "quot;"))
    /\ (h <> "&"%char -> h = c /\ r = "").
Proof.
  unfold escape_html_byte. repeat case_bool_decide; subst;
    eexists _, _; (split; [reflexivity|]); split; intros Hh;
    try congruence; auto 10.
Qed.

(** X10.  [htmlEscape] loses nothing: different texts have different
    escaped forms. *)
Theorem htmlEscape_inj (s s' : string) (Heq : htmlEscape s = htmlEscape s') :
  s = s'.
Proof.
  revert s' Heq. induction s as [|c s IH]; intros [|c' s'] H.
  - reflexivity.
  - exfalso. cbn [htmlEscape] in H.
    destruct (escape_html_byte_head c') as (h & r & Hc & _).
    rewrite Hc in H. discriminate.
  - exfalso. cbn [htmlEscape] in H.
    destruct (escape_html_byte_head c) as (h & r & Hc & _).
    rewrite Hc in H. discriminate.
  - cbn [htmlEscape] in H.
    destruct (escape_html_byte_head c) as (h & r & Hc & Ha & Hn).
    destruct (escape_html_byte_head c') as (h' & r' & Hc' & Ha' & Hn').
    rewrite Hc, Hc' in H. simpl in H. injection H as Hh Hr. subst h'.
    destruct (decide (h = "&"%char)) as [->|Hne].
    + destruct (Ha eq_refl) as [[-> ->]|[[-> ->]|[[-> ->]|[-> ->]]]];
        destruct (Ha' eq_refl) as [[-> ->]|[[-> ->]|[[-> ->]|[-> ->]]]];
        simpl in Hr; try discriminate; f_equal; apply IH;
        by repeat injection Hr as Hr.
    + destruct (Hn Hne) as [-> ->]. destruct (Hn' Hne) as [-> ->].
      simpl in Hr. f_equal. by apply IH.
Qed.

Lemma htmlEscape_inj_witness : "a<b" = "a" ++ "<b".
Proof. apply (htmlEscape_inj "a<b" ("a" ++ "<b")). reflexivity. Defined.

(** ** Tags *)

(** X11.  [cmdTag] only adds tags: every tag the note had is still
    there afterwards, and when the old tags held no duplicates they are
    the beginning of the new tag list, in the same order. *)
Theorem cmdTag_keeps_tags (f : faults) (a : string) (newTags : list string)
    (w w' : store) (out : string)
    (Hrun : cmdTag f (a :: newTags) w = (Ok out, w')) :
  exists id n tags,
    strconv_Atoi a = Some id /\ loadNote f id w = (Ok n, w)
    /\ saveNote f (with_tags n tags) w = (Ok tt, w')
    /\ (forall t, t ∈ Tags n -> t ∈ tags)
    /\ (NoDup (Tags n) -> Tags n `prefix_of` tags).
Proof.
  apply cmdTag_inv in Hrun as (id & n & _ & Ha & Hl & Hs & _).
  exists id, n, (addTags (Tags n) newTags).
  split; [exact Ha|]. split; [exact Hl|]. split; [exact Hs|].
  rewrite addTags_spec. split.
  - intros t Ht. apply elem_of_keep_first, elem_of_app. by left.
  - intros Hnd. rewrite keep_first_app, (keep_first_NoDup _ Hnd).
    by eexists.
Qed.

Lemma cmdTag_keeps_tags_witness :
  exists id n tags,
    strconv_Atoi "1" = Some id /\ loadNote no_faults id sample_store = (Ok n, sample_store)
    /\ saveNote no_faults (with_tags n tags) sample_store
       = (Ok tt, (cmdTag no_faults ["1"; "x"] sample_store).2)
    /\ (forall t, t ∈ Tags n -> t ∈ tags)
    /\ (NoDup (Tags n) -> Tags n `prefix_of` tags).
Proof.
  apply (cmdTag_keeps_tags no_faults "1" ["x"] sample_store _
           ("Updated tags for #1" ++ newline)).
  vm_compute. reflexivity.
Defined.

(** ** Ids on the command line *)

Lemma all_digits_cons c s : all_digits (String c s) = is_digit c && all_digits s.
Proof. reflexivity. Qed.

Lemma padded_digits k n :
  all_digits (repeat_byte "0" k ++ decimal n) = true
  /\ digits_value (repeat_byte "0" k ++ decimal n) = n.
Proof.
  rewrite all_digits_app, all_digits_zeros, digits_value_zeros,
    digits_value_decimal.
  split; [apply all_digits_decimal_fuel|reflexivity].
Qed.

Lemma Atoi_digits (ds : string) :
  ds <> "" -> all_digits ds = true ->
  Z.of_N (digits_value ds) <= maxInt64 ->
  strconv_Atoi ds = Some (Z.of_N (digits_value ds)).
Proof.
  intros Hne Hd Hmax. unfold strconv_Atoi.
  destruct ds as [|c r]; [done|].
  assert (Hc : c <> "-"%char /\ c <> "+"%char).
  { rewrite all_digits_cons in Hd. apply andb_prop in Hd as [Hc _].
    split; intros ->; discriminate. }
  destruct Hc as [H1 H2].
  assert (Hsplit : match String c r with
                   | String "-" r0 => (true, r0)
                   | String "+" r0 => (false, r0)
                   | _ => (false, String c r)
                   end = (false, String c r)).
  { destruct c as [[] [] [] [] [] [] [] []]; try reflexivity; congruence. }
  rewrite Hsplit, Hd.
  assert ((minInt64 <=? Z.of_N (digits_value (String c r))) = true) as ->
    by (apply Z.leb_le; unfold minInt64; lia).
  by rewrite (proj2 (Z.leb_le _ _) Hmax).
Qed.

Lemma Atoi_minus_digits (ds : string) :
  ds <> "" -> all_digits ds = true ->
  minInt64 <= - Z.of_N (digits_value ds) ->
  strconv_Atoi ("-" ++ ds) = Some (- Z.of_N (digits_value ds)).
Proof.
  intros Hne Hd Hmin. unfold strconv_Atoi. simpl.
  destruct ds as [|c r]; [done|]. rewrite Hd.
  rewrite (proj2 (Z.leb_le _ _) Hmin).
  assert ((- Z.of_N (digits_value (String c r)) <=? maxInt64) = true) as ->
    by (apply Z.leb_le; unfold maxInt64; lia).
  reflexivity.
Qed.

Lemma padded_nonempty k n : repeat_byte "0" k ++ decimal n <> "".
Proof. destruct (padded_head k n) as (c & r & -> & _). discriminate. Qed.

(** X12.  An id written the way [notePath] writes it, or the way the
    commands print it, is read back by [strconv.Atoi] as the same id:
    [view 0007] and [view 7] open the same note. *)
Theorem Atoi_fmt_roundtrip (id : Z) (Hid : in_int64 id) :
  strconv_Atoi (fmt_d true 4 id) = Some id
  /\ strconv_Atoi (fmt_int id) = Some id
  /\ forall f w, cmdView f [fmt_d true 4 id] w = cmdView f [fmt_int id] w.
Proof.
  assert (H : forall w, strconv_Atoi (fmt_d true w id) = Some id).
  { intros w. unfold fmt_d, pad_left. destruct Hid as [Hlo Hhi].
    destruct (Z.ltb_spec id 0) as [Hneg|Hpos].
    - set (k := (w - 1 - _)%nat).
      destruct (padded_digits k (Z.abs_N id)) as [Hd Hv].
      rewrite Atoi_minus_digits; rewrite ?Hv; try done.
      + f_equal. lia.
      + apply padded_nonempty.
      + lia.
    - set (k := (w - _)%nat).
      destruct (padded_digits k (Z.abs_N id)) as [Hd Hv].
      rewrite Atoi_digits; rewrite ?Hv; try done.
      + f_equal. lia.
      + apply padded_nonempty.
      + lia. }
  assert (H0 : strconv_Atoi (fmt_int id) = Some id).
  { unfold fmt_int, fmt_d, pad_left. destruct Hid as [Hlo Hhi].
    destruct (Z.ltb_spec id 0) as [Hneg|Hpos].
    - cbn [Nat.sub repeat_byte]. simpl.
      destruct (padded_digits 0 (Z.abs_N id)) as [Hd Hv]. simpl in Hd, Hv.
      pose proof (Atoi_minus_digits (decimal (Z.abs_N id))) as Ha.
      simpl in Ha. rewrite Ha; rewrite ?Hv; try done.
      + f_equal. lia.
      + apply (padded_nonempty 0).
      + lia.
    - cbn [Nat.sub repeat_byte]. simpl.
      destruct (padded_digits 0 (Z.abs_N id)) as [Hd Hv]. simpl in Hd, Hv.
      rewrite Atoi_digits; rewrite ?Hv; try done.
      + f_equal. lia.
      + apply (padded_nonempty 0).
      + lia. }
  split; [apply H|]. split; [exact H0|].
  intros f w. unfold cmdView, bind, strconv_Atoi_M. by rewrite H, H0.
Qed.

Lemma Atoi_fmt_roundtrip_witness :
  strconv_Atoi (fmt_d true 4 (-42)) = Some (-42)
  /\ strconv_Atoi (fmt_int (-42)) = Some (-42)
  /\ forall f w, cmdView f [fmt_d true 4 (-42)] w = cmdView f [fmt_int (-42)] w.
Proof. apply (Atoi_fmt_roundtrip (-42)). unfold in_int64, minInt64, maxInt64. lia. Defined.

(** ** The read-only commands *)

(** X13.  [cmdView] prints the title as a heading, an empty line and the
    body of the note [loadNote] returns for the id given; it fails when
    the id is not a number or the note cannot be loaded, and it never
    changes the store. *)
Theorem cmdView_spec (f : faults) (a : string) (rest : list string)
    (w w' : store) (r : result string)
    (Hrun : cmdView f (a :: rest) w = (r, w')) :
  w' = w
  /\ (strconv_Atoi a = None -> r = Err (NumError a))
  /\ (forall id, strconv_Atoi a = Some id ->
        match (loadNote f id w).1 with
        | Ok n => r = Ok ("# " ++ Title n ++ newline ++ newline ++ Body n
                          ++ newline)
        | Err e => r = Err e
        end).
Proof.
  unfold cmdView, bind, strconv_Atoi_M, ret, fail in Hrun.
  destruct (strconv_Atoi a) as [id|].
  - rewrite loadNote_spec in Hrun.
    split; [|split; [discriminate|]].
    + destruct (load_result _ _ _); by injection Hrun as <- <-.
    + intros id' [= <-]. rewrite loadNote_spec. cbn [fst].
      destruct (load_result _ _ _); by injection Hrun as <- <-.
  - injection Hrun as <- <-. split; [done|]. split; [done|discriminate].
Qed.

Lemma cmdView_spec_witness :
  sample_store = sample_store
  /\ (strconv_Atoi "1" = None ->
      (cmdView no_faults ["1"] sample_store).1 = Err (NumError "1"))
  /\ (forall id, strconv_Atoi "1" = Some id ->
        match (loadNote no_faults id sample_store).1 with
        | Ok n => (cmdView no_faults ["1"] sample_store).1
                  = Ok ("# " ++ Title n ++ newline ++ newline ++ Body n
                        ++ newline)
        | Err e => (cmdView no_faults ["1"] sample_store).1 = Err e
        end).
Proof.
  apply (cmdView_spec no_faults "1" [] sample_store sample_store).
  vm_compute. reflexivity.
Defined.

Lemma fold_append_map {A} (g : A -> string) (ls : list A) init :
  fold_left (fun b x => b ++ g x) ls init = init ++ concat_str (g <$> ls).
Proof.
  revert init. induction ls as [|x ls IH]; intros init; simpl.
  - by rewrite append_nil_r.
  - rewrite IH, append_assoc. reflexivity.
Qed.

Lemma loadAll_entries f w r w' :
  loadAll f w = (r, w') -> entries w' = entries w.
Proof.
  rewrite loadAll_eq. destruct (mkdir_fails f); [by intros [= <- <-]|].
  destruct w; try (by intros [= <- <-]);
    destruct (readdir_fails f); by intros [= <- <-].
Qed.

(** X14.  [cmdList] ignores its arguments, changes nothing in the
    directory, and prints one line per note of the scan, in the order of
    the scan (ascending id), under a header; it prints [No notes.] when
    the scan is empty. *)
Theorem cmdList_spec (f : faults) (args : list string) (w w' : store)
    (out : string) (Hrun : cmdList f args w = (Ok out, w')) :
  exists notes, loadAll f w = (Ok notes, w')
    /\ entries w' = entries w
    /\ Sorted id_le notes
    /\ out = match notes with
             | [] => "No notes." ++ newline
             | _ => "ID  Title - tags" ++ newline
                    ++ concat_str
                         ((fun n => fmt_d false 3 (ID n) ++ "  " ++ Title n
                                    ++ " - " ++ strings_Join (Tags n) ","
                                    ++ newline) <$> notes)
             end.
Proof.
  unfold cmdList, bind, ret in Hrun.
  destruct (loadAll f w) as [[notes|e] w1] eqn:Hl; [|discriminate].
  exists notes. 
  assert (Hw : w' = w1) by (destruct notes; by injection Hrun).
  subst w1. split; [reflexivity|].
  split; [by eapply loadAll_entries|].
  split; [by eapply loadAll_Sorted|].
  destruct notes as [|n notes]; [by injection Hrun|].
  injection Hrun as <-.
  rewrite (fold_append_map (fun n => fmt_d false 3 (ID n) ++ "  " ++ Title n
                          ++ " - " ++ strings_Join (Tags n) "," ++ newline)).
  reflexivity.
Qed.

Lemma cmdList_spec_witness :
  exists notes, loadAll no_faults sample_store = (Ok notes, sample_store)
    /\ entries sample_store = entries sample_store
    /\ Sorted id_le notes
    /\ ("ID  Title - tags" ++ newline ++ "  1  t - " ++ newline)
       = match notes with
         | [] => "No notes." ++ newline
         | _ => "ID  Title - tags" ++ newline
                ++ concat_str
                     ((fun n => fmt_d false 3 (ID n) ++ "  " ++ Title n
                                ++ " - " ++ strings_Join (Tags n) ","
                                ++ newline) <$> notes)
         end.
Proof.
  apply (cmdList_spec no_faults [] sample_store sample_store).
  vm_compute. reflexivity.
Defined.

(** ** Searching *)

Section SearchEdge.
Variable case_table : N -> N.

Lemma matches_empty n : matches case_table "" n = true.
Proof. unfold matches. by destruct (strings_ToLower _ (Title n)). Qed.

(** X15.  A search for the empty string finds every note: it prints the
    whole scan, and [No matches.] only when the store holds no note. *)
Theorem search_empty_query (f : faults) (w w' : store) (out : string)
    (Hrun : cmdSearch case_table f [""] w = (Ok out, w')) :
  exists notes, loadAll f w = (Ok notes, w')
    /\ out = match notes with
             | [] => "No matches." ++ newline
             | _ => render_hits notes
             end.
Proof.
  apply cmdSearch_inv in Hrun as (notes & Hl & Hout).
  exists notes. split; [exact Hl|]. cbv zeta in Hout.
  change (strings_ToLower case_table (strings_Join [""] " ")) with "" in Hout.
  rewrite filter_all in Hout
    by (apply Forall_forall; intros; apply matches_empty).
  destruct notes; [exact Hout|]. by rewrite decide_False in Hout.
Qed.
End SearchEdge.

Lemma search_empty_query_witness :
  exists notes, loadAll no_faults search_store = (Ok notes, search_store)
    /\ ("  1  Groceries" ++ newline ++ "  2  Design Review" ++ newline)
       = match notes with
         | [] => "No matches." ++ newline
         | _ => render_hits notes
         end.
Proof.
  apply (search_empty_query (fun r => r) no_faults search_store search_store).
  vm_compute. reflexivity.
Defined.

(** ** Arguments *)

(** X16.  Every command checks its arguments before it touches anything:
    with too few arguments, or an id that is not a number, it returns the
    error and leaves store, temporary directory and the files outside
    the store exactly as they were (the directory is not even
    created). *)
Theorem argument_errors_touch_nothing (f f2 : faults) (env : editor_env)
    (now : time_Time) (case_table : N -> N) (o : gmap string string)
    (t : gmap string string) (w : store) :
  cmdAdd f f2 env now [] t w = (Err (UsageError "usage: add <title>"), w, t)
  /\ cmdView f [] w = (Err (UsageError "usage: view <id>"), w)
  /\ cmdSearch case_table f [] w = (Err (UsageError "usage: search <query>"), w)
  /\ (forall args, (length args < 2)%nat ->
        cmdTag f args w
        = (Err (UsageError "usage: tag <id> tag1 [tag2 ...]"), w)
        /\ cmdExport f args o w
           = (Err (UsageError "usage: export <id> <file.html>"), w, o))
  /\ (forall a rest, strconv_Atoi a = None ->
        cmdView f (a :: rest) w = (Err (NumError a), w)
        /\ (rest <> [] ->
            cmdTag f (a :: rest) w = (Err (NumError a), w)
            /\ cmdExport f (a :: rest) o w = (Err (NumError a), w, o))).
Proof.
  split; [reflexivity|]. split; [reflexivity|]. split; [reflexivity|]. split.
  - intros [|a [|b args]] Hlen; simpl in Hlen; try lia; split; reflexivity.
  - intros a rest Ha. unfold cmdView, cmdTag, cmdExport, bind, strconv_Atoi_M.
    rewrite Ha. split; [reflexivity|]. intros Hrest.
    destruct rest as [|b rest]; [done|]. split; reflexivity.
Qed.

(** ** Adding a note *)

Lemma cmdAdd_inv f f2 env now args t w out w' t' :
  cmdAdd f f2 env now args t w = (Ok out, w', t') ->
  args <> []
  /\ exists notes body,
       loadAll f w = (Ok notes, Dir (entries w))
       /\ openEditor env "" t = (Ok body, t')
       /\ saveNote f2 (added_note notes args body now) (Dir (entries w))
          = (Ok tt, w')
       /\ out = "Saved note #" ++ fmt_int (nextID notes) ++ newline.
Proof.
  unfold cmdAdd. destruct args as [|a args]; [discriminate|].
  destruct (loadAll f w) as [[notes|e] w1] eqn:Hl; [|discriminate].
  destruct (openEditor env "" t) as [[body|e] t1] eqn:He; [|discriminate].
  destruct (saveNote f2 _ w1) as [[[]|e] w2] eqn:Hs; [|discriminate].
  intros [= <- <- <-]. split; [discriminate|]. exists notes, body.
  assert (w1 = Dir (entries w)) as ->.
  { rewrite loadAll_eq in Hl. destruct (mkdir_fails f); [discriminate|].
    destruct w; try discriminate; destruct (readdir_fails f); congruence. }
  done.
Qed.

Lemma nextID_above notes :
  Forall (fun m => ID m < maxInt64) notes ->
  Forall (fun m => ID m < nextID notes) notes.
Proof.
  intros Hb. rewrite nextID_wrap, wrap64_id.
  - eapply Forall_impl; [apply max_id_ge|]. simpl. intros. lia.
  - pose proof (max_id_nonneg notes).
    pose proof (max_id_bound notes maxInt64 eq_refl Hb).
    unfold minInt64, maxInt64 in *. lia.
Qed.

Lemma load_after_save f f' n w w' :
  saveNote f n w = (Ok tt, w') -> roundtrips n ->
  read_fails f' (noteName (ID n)) = false ->
  loadNote f' (ID n) w' = (Ok n, w').
Proof.
  intros Hs (b & Hb & Hn) Hr.
  apply saveNote_outcome in Hs
    as [(_ & _ & _ & b' & nd & Hb' & Hnd & He)|(Hok & _)]; [|discriminate].
  rewrite loadNote_spec, He, lookup_insert_eq, (write_through_data _ _ _ Hnd).
  unfold load_result. rewrite Hr.
  assert (b' = b) as -> by congruence. by rewrite Hn.
Qed.

(** X17.  When [cmdAdd] succeeds it has scanned the store, taken the
    next id of that scan, run the editor on an empty file and saved a
    note with that id, the arguments joined by blanks as title, the
    editor's text as body, no tags and the current time.  The new id is
    above every id of the scan (for ids below the largest integer), and
    a note that decodes back from its serialization is what [loadNote]
    returns for it afterwards. *)
Theorem cmdAdd_creates_note (f f2 : faults) (env : editor_env)
    (now : time_Time) (args : list string) (t t' : gmap string string)
    (w w' : store) (out : string)
    (Hrun : cmdAdd f f2 env now args t w = (Ok out, w', t')) :
  exists notes body,
    loadAll f w = (Ok notes, Dir (entries w))
    /\ openEditor env "" t = (Ok body, t')
    /\ saveNote f2 (added_note notes args body now) (Dir (entries w))
       = (Ok tt, w')
    /\ out = "Saved note #" ++ fmt_int (nextID notes) ++ newline
    /\ (Forall (fun m => ID m < maxInt64) notes ->
        Forall (fun m => ID m < ID (added_note notes args body now)) notes)
    /\ (roundtrips (added_note notes args body now) ->
        forall f', read_fails f' (noteName (nextID notes)) = false ->
          loadNote f' (nextID notes) w'
          = (Ok (added_note notes args body now), w')).
Proof.
  apply cmdAdd_inv in Hrun as (_ & notes & body & Hl & He & Hs & Hout).
  exists notes, body. repeat split; try done.
  - apply nextID_above.
  - intros Hrt f' Hr. by apply (load_after_save f2 f' _ _ _ Hs Hrt).
Qed.

Lemma cmdAdd_creates_note_witness :
  exists notes body,
    loadAll no_faults sample_store = (Ok notes, Dir (entries sample_store))
    /\ openEditor (sample_editor true) "" ∅ = (Ok body, ∅)
    /\ saveNote no_faults (added_note notes ["my"; "title"] body sample_time)
         (Dir (entries sample_store))
       = (Ok tt, (cmdAdd no_faults no_faults (sample_editor true) sample_time
                    ["my"; "title"] ∅ sample_store).1.2)
    /\ ("Saved note #2" ++ newline)
       = "Saved note #" ++ fmt_int (nextID notes) ++ newline
    /\ (Forall (fun m => ID m < maxInt64) notes ->
        Forall (fun m => ID m < ID (added_note notes ["my"; "title"] body
                                       sample_time)) notes)
    /\ (roundtrips (added_note notes ["my"; "title"] body sample_time) ->
        forall f', read_fails f' (noteName (nextID notes)) = false ->
          loadNote f' (nextID notes)
            (cmdAdd no_faults no_faults (sample_editor true) sample_time
               ["my"; "title"] ∅ sample_store).1.2
          = (Ok (added_note notes ["my"; "title"] body sample_time),
             (cmdAdd no_faults no_faults (sample_editor true) sample_time
                ["my"; "title"] ∅ sample_store).1.2)).
Proof.
  apply (cmdAdd_creates_note no_faults no_faults (sample_editor true)
           sample_time ["my"; "title"] ∅ ∅ sample_store).
  vm_compute. reflexivity.
Defined.

Lemma saveNote_no_EditorError f n w e w' :
  saveNote f n w <> (Err (EditorError e), w').
Proof.
  assert (HD : forall d, saveNote f n (Dir d) <> (Err (EditorError e), w')).
  { intros d. rewrite saveNote_Dir. cbv zeta.
    destruct (mkdir_fails f); [discriminate|].
    destruct (json_MarshalIndent n); [|discriminate].
    destruct (write_fails f); try discriminate.
    - destruct (write_through _ _); [|discriminate].
      destruct (_ || _); discriminate.
    - destruct (write_through _ _); discriminate. }
  destruct w as [| |d]; [|by rewrite saveNote_NotADir|apply HD].
  rewrite saveNote_NoDir. destruct (mkdir_fails f); [discriminate|apply HD].
Qed.

Lemma loadAll_no_EditorError f w e w' : loadAll f w <> (Err (EditorError e), w').
Proof.
  rewrite loadAll_eq. destruct (mkdir_fails f); [discriminate|].
  destruct w; try discriminate; destruct (readdir_fails f); discriminate.
Qed.

(** X18.  When the editor fails, [cmdAdd] reports it as an editor error
    and writes nothing: the entries of the store are what they were. *)
Theorem cmdAdd_editor_failure (f f2 : faults) (env : editor_env)
    (now : time_Time) (args : list string) (t t' : gmap string string)
    (w w' : store) (e : error)
    (Hrun : cmdAdd f f2 env now args t w = (Err (EditorError e), w', t')) :
  openEditor env "" t = (Err e, t') /\ entries w' = entries w.
Proof.
  unfold cmdAdd in Hrun. destruct args as [|a args]; [discriminate|].
  destruct (loadAll f w) as [[notes|e1] w1] eqn:Hl.
  - destruct (openEditor env "" t) as [[body|e2] t1] eqn:He.
    + exfalso. destruct (saveNote f2 _ w1) as [[[]|e3] w2] eqn:Hs;
        [discriminate|]. injection Hrun as -> <- <-.
      by apply saveNote_no_EditorError in Hs.
    + injection Hrun as <- <- <-. split; [reflexivity|].
      by eapply loadAll_entries.
  - exfalso. injection Hrun as -> <- <-.
    by apply loadAll_no_EditorError in Hl.
Qed.

Lemma cmdAdd_editor_failure_witness :
  openEditor (sample_editor false) "" ∅ = (Err (PathError "exec" "vim"), ∅)
  /\ entries sample_store = entries sample_store.
Proof.
  apply (cmdAdd_editor_failure no_faults no_faults (sample_editor false)
           sample_time ["x"] ∅ ∅ sample_store sample_store).
  vm_compute. reflexivity.
Defined.

Lemma saved_in_scan f f' n w w' w'' l :
  saveNote f n w = (Ok tt, w') -> roundtrips n ->
  read_fails f' (noteName (ID n)) = false ->
  loadAll f' w' = (Ok l, w'') -> n ∈ l.
Proof.
  intros Hs (b & Hb & Hn) Hr Hl.
  apply saveNote_outcome in Hs
    as [(_ & _ & _ & b' & nd & Hb' & Hnd & He)|(Hok & _)]; [|discriminate].
  rewrite loadAll_eq in Hl. destruct (mkdir_fails f'); [discriminate|].
  assert (Hl' : l = sort_Slice (omap (record_of f') (listing (entries w')))).
  { destruct w'; try discriminate; destruct (readdir_fails f'); congruence. }
  rewrite Hl', sort_Slice_Permutation, list_elem_of_omap.
  exists (noteName (ID n), nd). split.
  - apply listing_lookup. rewrite He. apply lookup_insert_eq.
  - apply record_of_Some.
    split; [unfold write_through in Hnd; repeat case_match; congruence|].
    split; [apply noteName_json|]. split; [exact Hr|].
    assert (b' = b) as -> by congruence.
    exists b. split; [by eapply write_through_data|done].
Qed.

(** X19.  Ids grow from one add to the next: after [cmdAdd] has saved a
    note that decodes back from its serialization, the next id computed
    from any later scan whose reads do not fail is larger than the id
    just given out (for ids below the largest integer). *)
Theorem ids_increase (f f2 f' : faults) (env : editor_env) (now : time_Time)
    (args : list string) (t t' : gmap string string) (w w' w'' : store)
    (out : string) (notes notes' : list Note) (body : string)
    (Hrun : cmdAdd f f2 env now args t w = (Ok out, w', t'))
    (Hscan : loadAll f w = (Ok notes, Dir (entries w)))
    (Hbody : openEditor env "" t = (Ok body, t'))
    (Hrt : roundtrips (added_note notes args body now))
    (Hread : read_fails f' (noteName (nextID notes)) = false)
    (Hnext : loadAll f' w' = (Ok notes', w''))
    (Hbound : Forall (fun m => ID m < maxInt64) notes') :
  nextID notes < nextID notes'.
Proof.
  apply cmdAdd_inv in Hrun as (_ & notes0 & body0 & Hl & He & Hs & _).
  assert (notes0 = notes) as -> by congruence.
  assert (body0 = body) as -> by congruence.
  pose proof (saved_in_scan _ _ _ _ _ _ _ Hs Hrt Hread Hnext) as Hin.
  pose proof (nextID_above notes' Hbound) as Ha.
  rewrite Forall_forall in Ha. exact (Ha _ Hin).
Qed.

Lemma ids_increase_witness :
  nextID [note_with_id 1]
  < nextID [note_with_id 1;
            added_note [note_with_id 1] ["my"; "title"] "typed" sample_time].
Proof.
  apply (ids_increase no_faults no_faults no_faults (sample_editor true)
           sample_time ["my"; "title"] ∅ ∅ sample_store
           (cmdAdd no_faults no_faults (sample_editor true) sample_time
              ["my"; "title"] ∅ sample_store).1.2
           (cmdAdd no_faults no_faults (sample_editor true) sample_time
              ["my"; "title"] ∅ sample_store).1.2
           ("Saved note #2" ++ newline) [note_with_id 1] _ "typed").
  - vm_compute. reflexivity.
  - vm_compute. reflexivity.
  - vm_compute. reflexivity.
  - exists (default "" (json_MarshalIndent
                       (added_note [note_with_id 1] ["my"; "title"] "typed"
                          sample_time))).
    split; vm_compute; reflexivity.
  - reflexivity.
  - vm_compute. reflexivity.
  - repeat constructor.
Defined.

(** ** The program *)

Section MainProps.
Variable case_table : N -> N.
Variable error_text : error -> string.

Lemma finish_status r w t o :
  let out := finish error_text r w t o in
  (exit_code out = 0 /\ reported out = "" /\ r = Ok (printed out))
  \/ (exit_code out = 1
      /\ exists e, r = Err e
           /\ reported out = "Error: " ++ error_text e ++ newline).
Proof. destruct r; simpl; [left|right]; eauto. Qed.

(** X20.  Without a command, or with a first argument that is not
    exactly one of the six command words, the program prints the help
    text under the base name of the program and exits with status 0,
    leaving the store, the temporary directory and every other file as
    they were.  Whatever the arguments, the exit status is 0 and the
    program reports nothing, or it is 1 and the program reports one
    line that starts with [Error:].  A failed command can still have
    changed things: a listing creates the directory, and an export
    whose write is cut short leaves the part written at the path. *)
Theorem main_status (f f2 : faults) (env : editor_env) (now : time_Time)
    (arg0 : string) (rest : list string)
    (t : gmap string string) (o : gmap string string) (w : store) :
  let out := main case_table error_text f f2 env now arg0 rest t o w in
  (match rest with
   | [] => True
   | cmd :: _ => cmd ∉ commands
   end ->
   out = {| exit_code := 0;
            printed :=
              filepath_Base arg0 ++ " - markdown notes CLI" ++ newline
              ++ newline ++ "Commands:" ++ newline
              ++ "  add <title>           Add a note (opens $EDITOR or vim)"
              ++ newline
              ++ "  list                  List notes" ++ newline
              ++ "  view <id>             View note" ++ newline
              ++ "  search <query>        Search title/body/tags" ++ newline
              ++ "  tag <id> tag1 ...     Add tags to a note" ++ newline
              ++ "  export <id> file.html Export to simple HTML" ++ newline
              ++ "  help                  Show this help" ++ newline;
            reported := ""; db := w; tmpdir := t; files := o |})
  /\ ((exit_code out = 0 /\ reported out = "")
      \/ (exit_code out = 1
          /\ exists e, reported out = "Error: " ++ error_text e ++ newline))
  /\ (filepath_Base "/usr/local/bin/notes" = "notes"
      /\ filepath_Base "notes" = "notes" /\ filepath_Base "./notes/" = "notes")
  /\ main case_table error_text f f2 env now arg0 ["view"; "x"] t o w
     = {| exit_code := 1; printed := "";
          reported := "Error: " ++ error_text (NumError "x") ++ newline;
          db := w; tmpdir := t; files := o |}
  /\ main case_table error_text no_faults f2 env now arg0 ["list"] t o NoDir
     = {| exit_code := 0; printed := "No notes." ++ newline; reported := "";
          db := Dir ∅; tmpdir := t; files := o |}
  /\ main case_table error_text (cut_short 15) f2 env now arg0
          ["export"; "3"; "out.html"] t ∅ export_store
     = {| exit_code := 1; printed := "";
          reported := "Error: " ++ error_text (PathError "write" "out.html")
                      ++ newline;
          db := export_store; tmpdir := t;
          files := {[ "out.html" := "<!doctype html>" ]} |}.
Proof.
  cbv zeta. split; [|split; [|split; [|split; [|split]]]].
  - unfold main. destruct rest as [|cmd args]; [reflexivity|].
    unfold commands. intros Hc.
    rewrite !bool_decide_eq_false_2; [reflexivity|..];
      intros ->; apply Hc; set_solver.
  - unfold main. destruct rest as [|cmd args]; [left; done|].
    repeat case_bool_decide; try (left; done).
    + destruct (cmdAdd _ _ _ _ _ _ _) as [[r w'] t'].
      destruct (finish_status r w' t' o) as [(?&?&_)|(?&e&_&?)];
        [left|right]; eauto.
    + destruct (cmdList _ _ _) as [r w'].
      destruct (finish_status r w' t o) as [(?&?&_)|(?&e&_&?)];
        [left|right]; eauto.
    + destruct (cmdView _ _ _) as [r w'].
      destruct (finish_status r w' t o) as [(?&?&_)|(?&e&_&?)];
        [left|right]; eauto.
    + destruct (cmdSearch _ _ _ _) as [r w'].
      destruct (finish_status r w' t o) as [(?&?&_)|(?&e&_&?)];
        [left|right]; eauto.
    + destruct (cmdTag _ _ _) as [r w'].
      destruct (finish_status r w' t o) as [(?&?&_)|(?&e&_&?)];
        [left|right]; eauto.
    + destruct (cmdExport _ _ _ _) as [[r w'] o'].
      destruct (finish_status r w' t o') as [(?&?&_)|(?&e&_&?)];
        [left|right]; eauto.
  - split_and!; vm_compute; reflexivity.
  - reflexivity.
  - reflexivity.
  - reflexivity.
Qed.
End MainProps.

(** X21.  The ids [nextID] gives out are positive: on a snapshot whose
    ids are below the largest integer the result lies between 1 and that
    integer, so no note is ever created with id 0 or a negative id. *)
Theorem nextID_positive (notes : list Note)
    (Hbound : Forall (fun m => ID m < maxInt64) notes) :
  1 <= nextID notes <= maxInt64.
Proof.
  rewrite nextID_wrap.
  pose proof (max_id_nonneg notes).
  pose proof (max_id_bound notes maxInt64 eq_refl Hbound).
  rewrite wrap64_id; unfold minInt64, maxInt64 in *; lia.
Qed.

Lemma nextID_positive_witness :
  1 <= nextID [note_with_id (-7); note_with_id (-2)] <= maxInt64.
Proof.
  apply (nextID_positive [note_with_id (-7); note_with_id (-2)]).
  repeat constructor.
Defined.

(** * Part IV: the round trip through JSON *)

(** ** Well-formed UTF-8 *)

Lemma in_range_bounds lo hi c :
  in_range lo hi c = true -> (lo <= code c <= hi)%N.
Proof.
  unfold in_range. intros [H1 H2]%andb_prop.
  apply N.leb_le in H1. apply N.leb_le in H2. lia.
Qed.

Lemma in_range_out lo hi c :
  (code c < lo \/ hi < code c)%N -> in_range lo hi c = false.
Proof.
  unfold in_range. intros [H|H].
  - apply andb_false_intro1. apply N.leb_gt. exact H.
  - apply andb_false_intro2. apply N.leb_gt. exact H.
Qed.

Lemma ltb_false_ge a b : (b <= a)%N -> (a <? b)%N = false.
Proof. apply N.ltb_ge. Qed.

Lemma decode_valid u rest :
  valid_urune u = true ->
  utf8_DecodeRune (bytes_of u ++ rest) = (rune_of u, String.length (bytes_of u)).
Proof.
  unfold rune_of. destruct u as [c0|c0 c1|c0 c1 c2|c0 c1 c2 c3];
    unfold valid_urune, utf8_DecodeRune, bytes_of; cbn [String.append fst];
    cbv zeta.
  - intros ->. reflexivity.
  - intros [H0 H1]%andb_prop. pose proof (in_range_bounds _ _ _ H0).
    rewrite ltb_false_ge, H0, H1 by lia. reflexivity.
  - intros [[H0 H1]%andb_prop H2]%andb_prop.
    pose proof (in_range_bounds _ _ _ H0).
    rewrite ltb_false_ge by lia.
    rewrite (in_range_out 0xC2 0xDF) by lia.
    rewrite H0, H1, H2. reflexivity.
  - intros [[[H0 H1]%andb_prop H2]%andb_prop H3]%andb_prop.
    pose proof (in_range_bounds _ _ _ H0).
    rewrite ltb_false_ge by lia.
    rewrite (in_range_out 0xC2 0xDF) by lia.
    rewrite (in_range_out 0xE0 0xEF) by lia.
    rewrite H0, H1, H2, H3. reflexivity.
Qed.

Lemma length_substring_rest k (s : string) :
  String.length (substring k (String.length s - k) s) = (String.length s - k)%nat.
Proof.
  revert k. induction s as [|c s IH]; intros k; [by destruct k|].
  destruct k as [|k]; simpl.
  - f_equal. specialize (IH 0%nat). rewrite Nat.sub_0_r in IH. exact IH.
  - apply IH.
Qed.

Lemma decode_size_pos c (s : string) : (1 <= (utf8_DecodeRune (String c s)).2)%nat.
Proof.
  unfold utf8_DecodeRune. cbv zeta.
  destruct (code c <? 0x80)%N; [simpl; lia|].
  destruct (in_range 0xC2 0xDF c).
  { destruct s as [|c1 s1]; [simpl; lia|]. destruct (is_cont c1); simpl; lia. }
  destruct (in_range 0xE0 0xEF c).
  { destruct s as [|c1 [|c2 s2]]; try (simpl; lia).
    destruct (_ && _); simpl; lia. }
  destruct (in_range 0xF0 0xF4 c); [|simpl; lia].
  destruct s as [|c1 [|c2 [|c3 s3]]]; try (simpl; lia).
  destruct (_ && _); simpl; lia.
Qed.

Lemma runes_fuel_enough f1 : forall f2 s,
  (String.length s <= f1)%nat -> (String.length s <= f2)%nat ->
  runes_fuel f1 s = runes_fuel f2 s.
Proof.
  induction f1 as [|f1 IH]; intros f2 s H1 H2.
  - destruct s; [|simpl in H1; lia]. by destruct f2.
  - destruct f2 as [|f2]; [destruct s; [done|simpl in H2; lia]|].
    destruct s as [|c s]; [reflexivity|]. cbn [runes_fuel].
    pose proof (decode_size_pos c s) as Hpos.
    destruct (utf8_DecodeRune (String c s)) as [r size]. cbn [snd] in Hpos.
    f_equal. apply IH; rewrite length_substring_rest; simpl in *; lia.
Qed.

Lemma runes_fuel_step fuel c (s : string) :
  runes_fuel (S fuel) (String c s)
  = ((utf8_DecodeRune (String c s)).1,
     take_bytes (utf8_DecodeRune (String c s)).2 (String c s))
    :: runes_fuel fuel (drop_bytes (utf8_DecodeRune (String c s)).2 (String c s)).
Proof. cbn [runes_fuel]. by destruct (utf8_DecodeRune (String c s)). Qed.

Lemma runes_cons u (rest : string) :
  valid_urune u = true ->
  runes (bytes_of u ++ rest) = (rune_of u, bytes_of u) :: runes rest.
Proof.
  intros Hv. unfold runes.
  assert (Hne : exists c s, bytes_of u ++ rest = String c s)
    by (destruct u; simpl; eauto).
  destruct Hne as (c & s & Hs).
  assert (Hlen : (String.length (bytes_of u ++ rest)
                  >= 1 + String.length rest)%nat).
  { rewrite length_append. destruct u; simpl; lia. }
  rewrite Hs in *. cbn [String.length]. cbn [String.length] in Hlen.
  rewrite runes_fuel_step. rewrite <- Hs.
  rewrite (decode_valid u rest Hv). cbn [fst snd].
  rewrite take_bytes_app, drop_bytes_app. f_equal.
  apply runes_fuel_enough; lia.
Qed.

Lemma runes_text us :
  Forall (fun u => valid_urune u = true) us ->
  runes (text_of us) = (fun u => (rune_of u, bytes_of u)) <$> us.
Proof.
  induction 1 as [|u us Hu _ IH]; [reflexivity|].
  cbn [text_of fold_right]. rewrite runes_cons by exact Hu.
  rewrite fmap_cons. f_equal. exact IH.
Qed.

(** What [utf8.DecodeRuneInString] finds at the head of a string: a
    well-formed rune, or an invalid byte. *)
Lemma decode_cases c (s : string) :
  (exists u rest, valid_urune u = true /\ String c s = bytes_of u ++ rest)
  \/ utf8_DecodeRune (String c s) = (RuneError, 1%nat).
Proof.
  unfold utf8_DecodeRune. cbv zeta.
  destruct (code c <? 0x80)%N eqn:H0.
  { left. exists (U1 c), s. done. }
  destruct (in_range 0xC2 0xDF c) eqn:H1.
  { destruct s as [|c1 s1]; [by right|].
    destruct (is_cont c1) eqn:H2; [|by right].
    left. exists (U2 c c1), s1. split; [|reflexivity].
    unfold valid_urune. by rewrite H1, H2. }
  destruct (in_range 0xE0 0xEF c) eqn:H2.
  { destruct s as [|c1 [|c2 s2]]; try by right.
    destruct (_ && _) eqn:H3; [|by right].
    apply andb_prop in H3 as [Hb Hc].
    left. exists (U3 c c1 c2), s2. split; [|reflexivity].
    unfold valid_urune. by rewrite H2, Hb, Hc. }
  destruct (in_range 0xF0 0xF4 c) eqn:H3; [|by right].
  destruct s as [|c1 [|c2 [|c3 s3]]]; try by right.
  destruct (_ && _) eqn:H4; [|by right].
  apply andb_prop in H4 as [[Hb Hc]%andb_prop Hd].
  left. exists (U4 c c1 c2 c3), s3. split; [|reflexivity].
  unfold valid_urune. by rewrite H3, Hb, Hc, Hd.
Qed.

Lemma valid_text_fuel fuel : forall s,
  (String.length s <= fuel)%nat ->
  forallb (fun p => negb ((p.1 =? RuneError)%N
                          && Nat.eqb (String.length p.2) 1))
          (runes s) = true ->
  exists us, Forall (fun u => valid_urune u = true) us /\ s = text_of us.
Proof.
  induction fuel as [|fuel IH]; intros s Hlen Hv.
  - destruct s; [|simpl in Hlen; lia]. by exists [].
  - destruct s as [|c s]; [by exists []|].
    destruct (decode_cases c s) as [(u & rest & Hu & Hs)|Hbad].
    + rewrite Hs in Hv |- *. rewrite runes_cons in Hv by exact Hu.
      cbn [forallb] in Hv. apply andb_prop in Hv as [_ Hv].
      destruct (IH rest) as (us & Hus & ->); [|exact Hv|].
      * apply (f_equal String.length) in Hs. rewrite length_append in Hs.
        simpl in Hs, Hlen. destruct u; simpl in Hs; lia.
      * exists (u :: us). split; [by constructor|reflexivity].
    + exfalso. unfold runes in Hv. cbn [String.length runes_fuel] in Hv.
      rewrite Hbad in Hv. cbn [forallb fst snd] in Hv.
      apply andb_prop in Hv as [Hv _]. by destruct s.
Qed.

(** A string that [utf8.ValidString] accepts is a sequence of
    well-formed runes. *)
Lemma valid_text s :
  utf8_ValidString s = true ->
  exists us, Forall (fun u => valid_urune u = true) us /\ s = text_of us.
Proof. intros H. by apply (valid_text_fuel (String.length s)). Qed.

(** ** Encoding a decoded rune gives the bytes back *)

Lemma divmod_64 a b :
  (b < 64)%N -> ((a * 64 + b) / 64 = a)%N /\ ((a * 64 + b) mod 64 = b)%N.
Proof.
  intros Hb. split.
  - symmetry. apply (N.div_unique _ 64 a b); lia.
  - symmetry. apply (N.mod_unique _ 64 a b); lia.
Qed.

Lemma byte_of_code c : byte_of (code c) = c.
Proof. apply ascii_N_embedding. Qed.

Lemma code_lt_256 c : (code c < 256)%N.
Proof. apply N_ascii_bounded. Qed.

Lemma rune_of_U2 c0 c1 :
  valid_urune (U2 c0 c1) = true ->
  rune_of (U2 c0 c1) = ((code c0 - 0xC0) * 64 + (code c1 - 0x80))%N.
Proof.
  unfold rune_of, valid_urune, utf8_DecodeRune, bytes_of. cbv zeta.
  intros [H0 H1]%andb_prop. pose proof (in_range_bounds _ _ _ H0).
  rewrite ltb_false_ge, H0, H1 by lia. reflexivity.
Qed.

Lemma rune_of_U3 c0 c1 c2 :
  valid_urune (U3 c0 c1 c2) = true ->
  rune_of (U3 c0 c1 c2)
  = (((code c0 - 0xE0) * 64 + (code c1 - 0x80)) * 64 + (code c2 - 0x80))%N.
Proof.
  unfold rune_of, valid_urune, utf8_DecodeRune, bytes_of. cbv zeta.
  intros [[H0 H1]%andb_prop H2]%andb_prop.
  pose proof (in_range_bounds _ _ _ H0).
  rewrite ltb_false_ge by lia. rewrite (in_range_out 0xC2 0xDF) by lia.
  rewrite H0, H1, H2. reflexivity.
Qed.

Lemma rune_of_U4 c0 c1 c2 c3 :
  valid_urune (U4 c0 c1 c2 c3) = true ->
  rune_of (U4 c0 c1 c2 c3)
  = ((((code c0 - 0xF0) * 64 + (code c1 - 0x80)) * 64 + (code c2 - 0x80)) * 64
     + (code c3 - 0x80))%N.
Proof.
  unfold rune_of, valid_urune, utf8_DecodeRune, bytes_of. cbv zeta.
  intros [[[H0 H1]%andb_prop H2]%andb_prop H3]%andb_prop.
  pose proof (in_range_bounds _ _ _ H0).
  rewrite ltb_false_ge by lia. rewrite (in_range_out 0xC2 0xDF) by lia.
  rewrite (in_range_out 0xE0 0xEF) by lia.
  rewrite H0, H1, H2, H3. reflexivity.
Qed.

Lemma is_cont_bounds c : is_cont c = true -> (0x80 <= code c <= 0xBF)%N.
Proof.
  unfold is_cont. intros [H1 H2]%andb_prop.
  apply N.leb_le in H1. apply N.leb_le in H2. lia.
Qed.

Lemma encode_2 a b :
  (2 <= a <= 31)%N -> (b < 64)%N ->
  utf8_EncodeRune (a * 64 + b) = str_of_bytes [0xC0 + a; 0x80 + b]%N.
Proof.
  intros Ha Hb. unfold utf8_EncodeRune.
  destruct (divmod_64 a b Hb) as [Hd Hm].
  assert (((0xD800 <=? a * 64 + b) && (a * 64 + b <=? 0xDFFF)
           || (0x10FFFF <? a * 64 + b))%N = false) as ->.
  { apply orb_false_intro; [apply andb_false_intro1; apply N.leb_gt; lia|].
    apply N.ltb_ge. lia. }
  rewrite (ltb_false_ge (a * 64 + b) 0x80) by lia.
  rewrite (proj2 (N.ltb_lt (a * 64 + b) 0x800)) by lia.
  by rewrite Hd, Hm.
Qed.

Lemma encode_3 a b c :
  (a <= 15)%N -> (b < 64)%N -> (c < 64)%N ->
  (a = 0 -> 32 <= b)%N -> (a = 13 -> b < 32)%N ->
  utf8_EncodeRune ((a * 64 + b) * 64 + c)
  = str_of_bytes [0xE0 + a; 0x80 + b; 0x80 + c]%N.
Proof.
  intros Ha Hb Hc H0 H13. unfold utf8_EncodeRune.
  destruct (divmod_64 (a * 64 + b) c Hc) as [Hd Hm].
  destruct (divmod_64 a b Hb) as [Hd' Hm'].
  set (r := ((a * 64 + b) * 64 + c)%N) in *.
  assert (Hr1 : (0x800 <= r)%N) by (unfold r; destruct (N.eq_dec a 0%N); lia).
  assert (Hr2 : (r < 0x10000)%N) by (unfold r; lia).
  assert (Hr3 : (r < 0xD800 \/ 0xDFFF < r)%N)
    by (unfold r; destruct (N.eq_dec a 13%N); [specialize (H13 ltac:(done))|]; lia).
  assert (((0xD800 <=? r) && (r <=? 0xDFFF) || (0x10FFFF <? r))%N = false) as ->.
  { apply orb_false_intro; [|apply N.ltb_ge; lia].
    destruct Hr3; [apply andb_false_intro1|apply andb_false_intro2];
      apply N.leb_gt; lia. }
  rewrite (ltb_false_ge r 0x80), (ltb_false_ge r 0x800) by lia.
  rewrite (proj2 (N.ltb_lt r 0x10000)) by lia.
  assert ((r / 4096 = a)%N) as ->.
  { change 4096%N with (64 * 64)%N. rewrite <- N.Div0.div_div.
    by rewrite Hd, Hd'. }
  by rewrite Hd, Hm, Hm'.
Qed.

Lemma encode_4 a b c d :
  (a <= 4)%N -> (b < 64)%N -> (c < 64)%N -> (d < 64)%N ->
  (a = 0 -> 16 <= b)%N -> (a = 4 -> b < 16)%N ->
  utf8_EncodeRune (((a * 64 + b) * 64 + c) * 64 + d)
  = str_of_bytes [0xF0 + a; 0x80 + b; 0x80 + c; 0x80 + d]%N.
Proof.
  intros Ha Hb Hc Hd H0 H4. unfold utf8_EncodeRune.
  destruct (divmod_64 ((a * 64 + b) * 64 + c) d Hd) as [Hd1 Hm1].
  destruct (divmod_64 (a * 64 + b) c Hc) as [Hd2 Hm2].
  destruct (divmod_64 a b Hb) as [Hd3 Hm3].
  set (r := (((a * 64 + b) * 64 + c) * 64 + d)%N) in *.
  assert (Hr1 : (0x10000 <= r)%N) by (unfold r; destruct (N.eq_dec a 0%N); lia).
  assert (Hr2 : (r <= 0x10FFFF)%N)
    by (unfold r; destruct (N.eq_dec a 4%N); [specialize (H4 ltac:(done))|]; lia).
  assert (((0xD800 <=? r) && (r <=? 0xDFFF) || (0x10FFFF <? r))%N = false) as ->.
  { apply orb_false_intro; [|apply N.ltb_ge; lia].
    apply andb_false_intro2. apply N.leb_gt. lia. }
  rewrite (ltb_false_ge r 0x80), (ltb_false_ge r 0x800),
    (ltb_false_ge r 0x10000) by lia.
  assert ((r / 64 / 64 = a * 64 + b)%N) as Hq2 by (by rewrite Hd1, Hd2).
  assert ((r / 262144 = a)%N) as ->.
  { change 262144%N with (64 * 64 * 64)%N.
    rewrite <- !N.Div0.div_div. by rewrite Hd1, Hd2, Hd3. }
  assert ((r / 4096 = a * 64 + b)%N) as ->.
  { change 4096%N with (64 * 64)%N. by rewrite <- N.Div0.div_div. }
  by rewrite Hd1, Hm1, Hm2, Hm3.
Qed.

Lemma encode_decode u :
  valid_urune u = true -> utf8_EncodeRune (rune_of u) = bytes_of u.
Proof.
  destruct u as [c0|c0 c1|c0 c1 c2|c0 c1 c2 c3]; intros Hv.
  - unfold rune_of, utf8_DecodeRune, bytes_of. cbv zeta.
    simpl in Hv. rewrite Hv. cbn [fst]. apply N.ltb_lt in Hv.
    unfold utf8_EncodeRune.
    assert (((0xD800 <=? code c0) && (code c0 <=? 0xDFFF)
             || (0x10FFFF <? code c0))%N = false) as ->.
    { apply orb_false_intro; [apply andb_false_intro1; apply N.leb_gt; lia|].
      apply N.ltb_ge. lia. }
    rewrite (proj2 (N.ltb_lt _ _) Hv). unfold str_of_bytes. simpl.
    by rewrite byte_of_code.
  - rewrite rune_of_U2 by exact Hv. simpl in Hv.
    apply andb_prop in Hv as [H0 H1].
    apply in_range_bounds in H0. apply is_cont_bounds in H1.
    rewrite encode_2 by lia. unfold str_of_bytes. simpl.
    replace (192 + (code c0 - 192))%N with (code c0) by lia.
    replace (128 + (code c1 - 128))%N with (code c1) by lia.
    by rewrite !byte_of_code.
  - rewrite rune_of_U3 by exact Hv. simpl in Hv.
    apply andb_prop in Hv as [[H0 H1]%andb_prop H2].
    apply in_range_bounds in H0. apply in_range_bounds in H1.
    apply is_cont_bounds in H2.
    rewrite encode_3.
    + unfold str_of_bytes. simpl.
      replace (224 + (code c0 - 224))%N with (code c0) by lia.
      replace (128 + (code c1 - 128))%N with (code c1)
        by (destruct (code c0 =? 224)%N; lia).
      replace (128 + (code c2 - 128))%N with (code c2) by lia.
      by rewrite !byte_of_code.
    + lia.
    + destruct (code c0 =? 237)%N; lia.
    + lia.
    + intros Ha. assert (code c0 = 224%N) as Hc by lia.
      rewrite Hc in H1. simpl in H1. lia.
    + intros Ha. assert (code c0 = 237%N) as Hc by lia.
      rewrite Hc in H1. simpl in H1. lia.
  - rewrite rune_of_U4 by exact Hv. simpl in Hv.
    apply andb_prop in Hv as [[[H0 H1]%andb_prop H2]%andb_prop H3].
    apply in_range_bounds in H0. apply in_range_bounds in H1.
    apply is_cont_bounds in H2. apply is_cont_bounds in H3.
    rewrite encode_4.
    + unfold str_of_bytes. simpl.
      replace (240 + (code c0 - 240))%N with (code c0) by lia.
      replace (128 + (code c1 - 128))%N with (code c1)
        by (destruct (code c0 =? 240)%N; lia).
      replace (128 + (code c2 - 128))%N with (code c2) by lia.
      replace (128 + (code c3 - 128))%N with (code c3) by lia.
      by rewrite !byte_of_code.
    + lia.
    + destruct (code c0 =? 244)%N; lia.
    + lia.
    + lia.
    + intros Ha. assert (code c0 = 240%N) as Hc by lia.
      rewrite Hc in H1. simpl in H1. lia.
    + intros Ha. assert (code c0 = 244%N) as Hc by lia.
      rewrite Hc in H1. simpl in H1. lia.
Qed.

(** ** String literals *)

Lemma json_quote_text us :
  Forall (fun u => valid_urune u = true) us ->
  json_quote (text_of us) = qt ++ escaped us ++ qt.
Proof.
  intros Hv. unfold json_quote. rewrite runes_text by exact Hv.
  f_equal. f_equal. clear Hv. induction us as [|u us IH]; [reflexivity|].
  rewrite fmap_cons. cbn [fold_right escaped]. f_equal. exact IH.
Qed.

(** The scanner and [unquote] on one escaped byte below 0x80. *)
Lemma scan_esc_U1 c (t : string) :
  (code c <? 0x80)%N = true ->
  scan_string (esc (U1 c) ++ t)
  = '(raw, rest) ← scan_string t; Some (esc (U1 c) ++ raw, rest).
Proof.
  intros H. destruct c as [b0 b1 b2 b3 b4 b5 b6 []];
    [destruct b0, b1, b2, b3, b4, b5, b6; vm_compute in H; discriminate H|].
  clear H. destruct b0, b1, b2, b3, b4, b5, b6; reflexivity.
Qed.

Lemma unquote_u4 f a b c d (t : string) rr ch :
  getu4 (esc_u ++ String a (String b (String c (String d "")))) = Some rr ->
  is_surrogate rr = false ->
  utf8_EncodeRune rr = ch ->
  unquote_fuel (S f)
    (String "\" (String "u" (String a (String b (String c (String d t))))))
  = t' ← unquote_fuel f t; Some (ch ++ t').
Proof.
  intros Hg Hs <-.
  change (getu4 (esc_u ++ String a (String b (String c (String d t)))) = Some rr)
    in Hg.
  unfold esc_u in *. cbn [String.append unquote_fuel].
  rewrite !bool_decide_true by reflexivity. cbn [String.append] in Hg.
  rewrite Hg. cbn [mbind option_bind]. rewrite Hs.
  rewrite !drop_bytes_cons, drop_bytes_0. reflexivity.
Qed.

Lemma unquote_esc_U1 c f (t : string) :
  (code c <? 0x80)%N = true ->
  unquote_fuel (S f) (esc (U1 c) ++ t)
  = t' ← unquote_fuel f t; Some (String c t').
Proof.
  intros H. destruct c as [b0 b1 b2 b3 b4 b5 b6 []];
    [destruct b0, b1, b2, b3, b4, b5, b6; vm_compute in H; discriminate H|].
  clear H. destruct b0, b1, b2, b3, b4, b5, b6;
    first [reflexivity
          | (eapply (unquote_u4 f _ _ _ _ t _ (String _ "")); reflexivity)].
Qed.

Lemma high_not_quote c : (0x80 <= code c)%N -> c <> dquote.
Proof. intros H ->. vm_compute in H. by apply H. Qed.

Lemma high_not_backslash c : (0x80 <= code c)%N -> c <> "\"%char.
Proof. intros H ->. vm_compute in H. by apply H. Qed.

Lemma scan_high c (t : string) :
  (0x80 <= code c)%N ->
  scan_string (String c t)
  = '(raw, rest) ← scan_string t; Some (String c raw, rest).
Proof.
  intros H. cbn [scan_string].
  rewrite (bool_decide_false _ (high_not_quote c H)).
  rewrite (bool_decide_false _ (high_not_backslash c H)).
  by rewrite ltb_false_ge by lia.
Qed.

(** The first byte of a rune of several bytes, and every byte after it,
    is 0x80 or above. *)
Definition high_bytes (s : string) : Prop :=
  Forall (fun c => (0x80 <= code c)%N) (list_ascii_of_string s).

Lemma scan_high_bytes (s t : string) :
  high_bytes s ->
  scan_string (s ++ t) = '(raw, rest) ← scan_string t; Some (s ++ raw, rest).
Proof.
  unfold high_bytes. induction s as [|c s IH]; intros H; cbn [String.append].
  - by destruct (scan_string t) as [[]|].
  - inversion H as [|? ? Hc Hs]; subst. rewrite scan_high by exact Hc.
    rewrite IH by exact Hs. by destruct (scan_string t) as [[]|].
Qed.

Lemma multi_high u :
  valid_urune u = true -> (1 < String.length (bytes_of u))%nat ->
  high_bytes (bytes_of u).
Proof.
  unfold high_bytes.
  destruct u as [c0|c0 c1|c0 c1 c2|c0 c1 c2 c3]; cbn; intros Hv Hl; [lia|..].
  - apply andb_prop in Hv as [H0 H1].
    apply in_range_bounds in H0. apply is_cont_bounds in H1.
    repeat constructor; lia.
  - apply andb_prop in Hv as [[H0 H1]%andb_prop H2].
    apply in_range_bounds in H0. apply in_range_bounds in H1.
    apply is_cont_bounds in H2.
    repeat constructor; try lia. destruct (code c0 =? 224)%N; lia.
  - apply andb_prop in Hv as [[[H0 H1]%andb_prop H2]%andb_prop H3].
    apply in_range_bounds in H0. apply in_range_bounds in H1.
    apply is_cont_bounds in H2. apply is_cont_bounds in H3.
    repeat constructor; try lia. destruct (code c0 =? 240)%N; lia.
Qed.

Lemma esc_multi u :
  (1 < String.length (bytes_of u))%nat ->
  esc u = if (rune_of u =? 0x2028)%N then esc_u ++ "2028"
          else if (rune_of u =? 0x2029)%N then esc_u ++ "2029"
          else bytes_of u.
Proof. destruct u; cbn; intros Hl; [lia|reflexivity..]. Qed.

Lemma esc_U1 c : esc (U1 c) = if (code c <? 0x80)%N then escape_byte c else esc_u ++ "fffd".
Proof. reflexivity. Qed.

Lemma scan_esc u (t : string) :
  valid_urune u = true ->
  scan_string (esc u ++ t)
  = '(raw, rest) ← scan_string t; Some (esc u ++ raw, rest).
Proof.
  intros Hv. destruct (decide (1 < String.length (bytes_of u))%nat) as [Hl|Hl].
  - rewrite esc_multi by exact Hl.
    destruct (rune_of u =? 0x2028)%N; [reflexivity|].
    destruct (rune_of u =? 0x2029)%N; [reflexivity|].
    apply scan_high_bytes, multi_high; assumption.
  - destruct u as [c| | |]; cbn in Hl; try lia. by apply scan_esc_U1.
Qed.

Lemma unquote_high u f (t : string) :
  valid_urune u = true -> (1 < String.length (bytes_of u))%nat ->
  unquote_fuel (S f) (bytes_of u ++ t)
  = t' ← unquote_fuel f t; Some (bytes_of u ++ t').
Proof.
  intros Hv Hl. pose proof (multi_high u Hv Hl) as Hh.
  pose proof (decode_valid u t Hv) as Hd.
  pose proof (drop_bytes_app (bytes_of u) t) as Hdrop.
  pose proof (encode_decode u Hv) as He.
  destruct (bytes_of u ++ t) as [|c0 r] eqn:Hs.
  { destruct u; discriminate Hs. }
  assert (Hc : (0x80 <= code c0)%N).
  { unfold high_bytes in Hh. destruct u; cbn in Hs, Hh; simplify_eq;
      by inversion Hh. }
  cbn [unquote_fuel].
  rewrite (bool_decide_false _ (high_not_quote c0 Hc)).
  rewrite (bool_decide_false _ (high_not_backslash c0 Hc)).
  rewrite !ltb_false_ge by lia. cbn [orb].
  rewrite Hd, Hdrop, He. reflexivity.
Qed.

Lemma unquote_esc u f (t : string) :
  valid_urune u = true ->
  unquote_fuel (S f) (esc u ++ t)
  = t' ← unquote_fuel f t; Some (bytes_of u ++ t').
Proof.
  intros Hv. destruct (decide (1 < String.length (bytes_of u))%nat) as [Hl|Hl].
  - rewrite esc_multi by exact Hl. pose proof (encode_decode u Hv) as He.
    destruct (N.eqb_spec (rune_of u) 0x2028) as [Hr|_].
    { rewrite Hr in He. by apply (unquote_u4 f "2" "0" "2" "8" t 0x2028%N). }
    destruct (N.eqb_spec (rune_of u) 0x2029) as [Hr|_].
    { rewrite Hr in He. by apply (unquote_u4 f "2" "0" "2" "9" t 0x2029%N). }
    by apply unquote_high.
  - destruct u as [c| | |]; cbn in Hl; try lia. by apply unquote_esc_U1.
Qed.

Lemma scan_quote (rest : string) : scan_string (qt ++ rest) = Some ("", rest).
Proof. reflexivity. Qed.

Lemma scan_escaped us (rest : string) :
  Forall (fun u => valid_urune u = true) us ->
  scan_string (escaped us ++ qt ++ rest) = Some (escaped us, rest).
Proof.
  induction 1 as [|u us Hu _ IH]; [reflexivity|].
  cbn [escaped fold_right]. rewrite append_assoc, scan_esc by exact Hu.
  fold (escaped us). rewrite IH. reflexivity.
Qed.

Lemma unquote_escaped us :
  Forall (fun u => valid_urune u = true) us ->
  forall f, (length us <= f)%nat ->
  unquote_fuel f (escaped us) = Some (text_of us).
Proof.
  induction 1 as [|u us Hu _ IH]; intros f Hf.
  - by destruct f.
  - destruct f as [|f]; [cbn in Hf; lia|].
    cbn [escaped text_of fold_right]. fold (escaped us). fold (text_of us).
    rewrite <- (append_nil_r (escaped us)), unquote_esc by exact Hu.
    rewrite append_nil_r, IH by (cbn in Hf; lia). reflexivity.
Qed.

Lemma esc_nonempty u : valid_urune u = true -> (1 <= String.length (esc u))%nat.
Proof.
  intros Hv. pose proof (unquote_esc u 0 "" Hv) as H.
  destruct (esc u); [by destruct u|cbn; lia].
Qed.

Lemma length_escaped us :
  Forall (fun u => valid_urune u = true) us ->
  (length us <= String.length (escaped us))%nat.
Proof.
  induction 1 as [|u us Hu _ IH]; [done|].
  cbn [escaped fold_right length]. rewrite length_append.
  pose proof (esc_nonempty u Hu). fold (escaped us). lia.
Qed.

(** A well-formed text between its quotes is scanned as one literal and
    unquotes to the text. *)
Lemma json_quote_spec (s : string) :
  utf8_ValidString s = true ->
  exists raw, json_quote s = qt ++ raw ++ qt
    /\ (forall rest, scan_string (raw ++ qt ++ rest) = Some (raw, rest))
    /\ json_unquote raw = Some s.
Proof.
  intros (us & Hus & ->)%valid_text. exists (escaped us). split_and!.
  - by apply json_quote_text.
  - intros rest. by apply scan_escaped.
  - unfold json_unquote. apply unquote_escaped; [done|by apply length_escaped].
Qed.

(** ** Number literals *)

Lemma span_digits_app (ds : string) c (r : string) :
  all_digits ds = true -> is_digit c = false ->
  span_digits (ds ++ String c r) = (ds, String c r).
Proof.
  induction ds as [|d ds IH]; intros Hd Hc; cbn [String.append span_digits].
  - by rewrite Hc.
  - rewrite all_digits_cons in Hd. apply andb_prop in Hd as [H1 H2].
    by rewrite H1, IH.
Qed.

Lemma scan_number_nonzero (neg : bool) c (ds r : string) :
  is_digit c = true -> c <> "0"%char -> all_digits ds = true ->
  scan_number ((if neg then "-" else "") ++ String c (ds ++ String "," r))
  = Some ((if neg then "-" else "") ++ String c ds, String "," r).
Proof.
  intros Hc H0 Hd.
  assert (Hs : span_digits (String c (ds ++ String "," r))
               = (String c ds, String "," r)).
  { cbn [span_digits]. by rewrite Hc, span_digits_app. }
  unfold scan_number.
  destruct neg, c as [[] [] [] [] [] [] [] []];
    try discriminate Hc; try congruence; cbn [String.append];
    rewrite Hs, Hc; cbn; rewrite !bool_decide_false by discriminate; cbn;
    by rewrite append_nil_r.
Qed.

Lemma decimal_fuel_nonzero fuel n :
  (0 < n)%N -> (n < 2 ^ N.of_nat fuel)%N ->
  exists c r, decimal_fuel fuel n = String c r
    /\ is_digit c = true /\ c <> "0"%char.
Proof.
  revert n. induction fuel as [|fuel IH]; intros n Hpos Hn.
  { simpl in Hn. lia. }
  cbn [decimal_fuel]. destruct (N.ltb_spec n 10) as [Hlt|Hge].
  - eexists _, _. split_and!; [reflexivity|by apply is_digit_digit_char|].
    intros Hc. apply (f_equal code) in Hc.
    unfold code, digit_char, byte_of in Hc.
    rewrite N_ascii_embedding in Hc by lia.
    change (N_of_ascii "0") with 48%N in Hc. lia.
  - destruct (IH (n / 10)%N) as (c & r & Hr & Hc & H0).
    + apply N.div_str_pos. lia.
    + rewrite Nat2N.inj_succ, N.pow_succ_r' in Hn.
      apply N.Div0.div_lt_upper_bound. lia.
    + rewrite Hr. cbn [String.append]. eauto.
Qed.

Lemma decimal_nonzero n :
  (0 < n)%N ->
  exists c r, decimal n = String c r /\ is_digit c = true /\ c <> "0"%char.
Proof.
  intros Hn. apply decimal_fuel_nonzero; [done|].
  rewrite Nat2N.inj_succ, N2Nat.id.
  destruct n as [|p]; [lia|]. apply N.log2_spec. lia.
Qed.

Lemma all_digits_decimal n : all_digits (decimal n) = true.
Proof. apply all_digits_decimal_fuel. Qed.

Lemma scan_number_literal z (r : string) :
  scan_number (int_literal z ++ String "," r)
  = Some (int_literal z, String "," r).
Proof.
  unfold int_literal.
  destruct (decide (z = 0)) as [->|Hz]; [reflexivity|].
  destruct (decimal_nonzero (Z.abs_N z)) as (c & ds & Hd & Hc & H0); [lia|].
  pose proof (all_digits_decimal (Z.abs_N z)) as Ha. rewrite Hd in *.
  rewrite all_digits_cons in Ha. apply andb_prop in Ha as [_ Ha].
  rewrite append_assoc. cbn [String.append].
  by apply (scan_number_nonzero (z <? 0)).
Qed.

Lemma Atoi_literal z : in_int64 z -> strconv_Atoi (int_literal z) = Some z.
Proof.
  intros [Hlo Hhi]. unfold int_literal.
  assert (Hne : decimal (Z.abs_N z) <> "").
  { unfold decimal. destruct (decimal_fuel_head (N.to_nat (N.log2 (Z.abs_N z)))
      (Z.abs_N z)) as (c & r & -> & _). discriminate. }
  pose proof (all_digits_decimal (Z.abs_N z)) as Ha.
  pose proof (digits_value_decimal (Z.abs_N z)) as Hv.
  destruct (Z.ltb_spec z 0) as [Hz|Hz].
  - rewrite Atoi_minus_digits by (rewrite ?Hv; first [done|lia]).
    rewrite Hv. f_equal. lia.
  - cbn [String.append]. rewrite Atoi_digits by (rewrite ?Hv; first [done|lia]).
    rewrite Hv. f_equal. lia.
Qed.

(** ** Times *)

Lemma decimal_fuel_enough f f' n :
  (0 < n)%N -> (n < 2 ^ N.of_nat f)%N -> (n < 2 ^ N.of_nat f')%N ->
  decimal_fuel f n = decimal_fuel f' n.
Proof.
  revert f' n. induction f as [|f IH]; intros f' n Hpos Hf Hf'.
  { simpl in Hf. lia. }
  destruct f' as [|f']; [simpl in Hf'; lia|].
  cbn [decimal_fuel]. destruct (N.ltb_spec n 10) as [Hlt|Hge]; [reflexivity|].
  f_equal. rewrite Nat2N.inj_succ, N.pow_succ_r' in Hf, Hf'.
  apply IH; [apply N.div_str_pos; lia|..];
    apply N.Div0.div_lt_upper_bound; lia.
Qed.

Lemma log2_fuel n : (n < 2 ^ N.of_nat (S (N.to_nat (N.log2 n))))%N.
Proof.
  rewrite Nat2N.inj_succ, N2Nat.id.
  destruct n as [|p]; [reflexivity|]. apply N.log2_spec. lia.
Qed.

Lemma decimal_small n : (n < 10)%N -> decimal n = String (digit_char n) "".
Proof.
  intros H. unfold decimal. cbn [decimal_fuel].
  by rewrite (proj2 (N.ltb_lt _ _) H).
Qed.

Lemma decimal_step n :
  (10 <= n)%N ->
  decimal n = decimal (n / 10) ++ String (digit_char (n mod 10)) "".
Proof.
  intros H. unfold decimal at 1. cbn [decimal_fuel].
  rewrite ltb_false_ge by exact H. f_equal. unfold decimal.
  apply decimal_fuel_enough; [apply N.div_str_pos; lia| |apply log2_fuel].
  pose proof (log2_fuel n) as Hn.
  rewrite Nat2N.inj_succ, N.pow_succ_r' in Hn.
  apply N.Div0.div_lt_upper_bound. lia.
Qed.

Lemma repeat_byte_snoc c k :
  repeat_byte c k ++ String c "" = String c (repeat_byte c k).
Proof. induction k as [|k IH]; [reflexivity|]. cbn. by rewrite IH. Qed.

Lemma fixed_zero k : fixed k 0 = repeat_byte "0" k.
Proof.
  induction k as [|k IH]; [reflexivity|].
  cbn [fixed]. change (0 / 10)%N with 0%N. rewrite IH.
  apply repeat_byte_snoc.
Qed.

Lemma length_fixed k n : String.length (fixed k n) = k.
Proof.
  revert n. induction k as [|k IH]; intros n; [reflexivity|].
  cbn [fixed]. rewrite length_append, IH. cbn. lia.
Qed.

Lemma length_decimal n k :
  (n < 10 ^ N.of_nat (S k))%N -> (String.length (decimal n) <= S k)%nat.
Proof. apply length_decimal_fuel. Qed.

(** A number that fits the width is printed with all its digits. *)
Lemma digits_w_fixed k n :
  (n < 10 ^ N.of_nat (S k))%N -> digits_w (S k) n = fixed (S k) n.
Proof.
  revert n. induction k as [|k IH]; intros n Hn.
  - change (10 ^ N.of_nat 1)%N with 10%N in Hn.
    unfold digits_w, pad_left. rewrite decimal_small by exact Hn.
    cbn. by rewrite N.mod_small by exact Hn.
  - unfold digits_w, pad_left. destruct (N.ltb_spec n 10) as [Hlt|Hge].
    + rewrite decimal_small by exact Hlt.
      change (fixed (S (S k)) n)
        with (fixed (S k) (n / 10) ++ String (digit_char (n mod 10)) "").
      rewrite (N.div_small n 10), (N.mod_small n 10), fixed_zero by exact Hlt.
      reflexivity.
    + rewrite decimal_step by exact Hge.
      change (fixed (S (S k)) n)
        with (fixed (S k) (n / 10) ++ String (digit_char (n mod 10)) "").
      rewrite <- IH.
      2:{ rewrite (Nat2N.inj_succ (S k)), N.pow_succ_r' in Hn.
          apply N.Div0.div_lt_upper_bound. lia. }
      unfold digits_w, pad_left. rewrite length_append, append_assoc.
      cbn [String.length]. do 2 f_equal. lia.
Qed.

Lemma all_digits_fixed k n : all_digits (fixed k n) = true.
Proof.
  revert n. induction k as [|k IH]; intros n; [reflexivity|].
  cbn [fixed]. rewrite all_digits_app, IH. unfold all_digits. cbn.
  rewrite is_digit_digit_char; [done|]. apply N.mod_upper_bound. lia.
Qed.

Lemma digits_value_fixed k n :
  digits_value (fixed k n) = (n mod 10 ^ N.of_nat k)%N.
Proof.
  revert n. induction k as [|k IH]; intros n.
  - cbn. by rewrite N.mod_1_r.
  - cbn [fixed]. rewrite digits_value_snoc, IH, code_digit_char
      by (apply N.mod_upper_bound; lia).
    rewrite Nat2N.inj_succ, N.pow_succ_r', N.Div0.mod_mul_r. lia.
Qed.

Lemma parseUint_fixed k n lo hi :
  (n < 10 ^ N.of_nat k)%N -> (lo <= n <= hi)%N ->
  parseUint (fixed k n) lo hi = Some n.
Proof.
  intros Hn [Hlo Hhi]. unfold parseUint.
  rewrite all_digits_fixed, digits_value_fixed, N.mod_small by exact Hn.
  rewrite (proj2 (N.leb_le _ _) Hlo), (proj2 (N.leb_le _ _) Hhi). reflexivity.
Qed.

Lemma digits_w_2 n : (n < 100)%N -> digits_w 2 n = fixed 2 n.
Proof. apply (digits_w_fixed 1). Qed.

Lemma digits_w_4 n : (n < 10000)%N -> digits_w 4 n = fixed 4 n.
Proof. apply (digits_w_fixed 3). Qed.

Lemma digits_w_9 n : (n < 10 ^ 9)%N -> digits_w 9 n = fixed 9 n.
Proof. apply (digits_w_fixed 8). Qed.

Lemma strip_zeros_spec (rs : string) :
  exists k, rs = repeat_byte "0" k ++ strip_zeros_rev rs.
Proof.
  induction rs as [|c rs [k IH]]; [by exists 0%nat|].
  destruct (decide (c = "0"%char)) as [->|Hc].
  - exists (S k). cbn [strip_zeros_rev repeat_byte String.append]. by f_equal.
  - exists 0%nat.
    destruct c as [[] [] [] [] [] [] [] []]; try reflexivity; congruence.
Qed.

Lemma rev_repeat_byte c k : String.rev (repeat_byte c k) = repeat_byte c k.
Proof.
  induction k as [|k IH]; [reflexivity|].
  cbn [repeat_byte]. rewrite rev_cons, IH. apply repeat_byte_snoc.
Qed.

Lemma digits_value_app_zeros (s : string) k :
  digits_value (s ++ repeat_byte "0" k)
  = (digits_value s * 10 ^ N.of_nat k)%N.
Proof.
  revert s. induction k as [|k IH]; intros s.
  - cbn [repeat_byte]. rewrite append_nil_r. cbn. lia.
  - cbn [repeat_byte].
    change (String "0" (repeat_byte "0" k))
      with (String "0" "" ++ repeat_byte "0" k).
    rewrite <- append_assoc, IH, digits_value_snoc.
    rewrite Nat2N.inj_succ, N.pow_succ_r'.
    change (code "0" - 48)%N with 0%N. lia.
Qed.

(** The fraction of a second: the nine digits of the nanoseconds without
    the zeros at their end. *)
Lemma frac_string_spec ns :
  (0 < ns < 10 ^ 9)%N ->
  exists F, frac_string ns = "." ++ F /\ F <> "" /\ all_digits F = true
    /\ (String.length F <= 9)%nat
    /\ (digits_value F * 10 ^ N.of_nat (9 - String.length F))%N = ns.
Proof.
  intros [Hpos Hlt]. unfold frac_string.
  rewrite (proj2 (N.eqb_neq ns 0)) by lia.
  rewrite digits_w_9 by exact Hlt.
  destruct (strip_zeros_spec (String.rev (fixed 9 ns))) as [k Hk].
  set (F := String.rev (strip_zeros_rev (String.rev (fixed 9 ns)))) in *.
  assert (Hs : fixed 9 ns = F ++ repeat_byte "0" k).
  { rewrite <- (rev_involutive (fixed 9 ns)), Hk, rev_append, rev_repeat_byte.
    reflexivity. }
  pose proof (length_fixed 9 ns) as Hl.
  pose proof (all_digits_fixed 9 ns) as Ha.
  pose proof (digits_value_fixed 9 ns) as Hv.
  rewrite Hs in Hl, Ha, Hv.
  rewrite length_append, length_repeat_byte in Hl.
  rewrite all_digits_app in Ha. apply andb_prop in Ha as [Ha _].
  rewrite digits_value_app_zeros, N.mod_small in Hv by exact Hlt.
  exists F. split_and!; [reflexivity| |exact Ha|lia|].
  - intros HF. rewrite HF in Hv. cbn in Hv. lia.
  - replace (9 - String.length F)%nat with k by lia. exact Hv.
Qed.

Lemma substring_short (s : string) k :
  (String.length s <= k)%nat -> substring 0 k s = s.
Proof.
  revert k. induction s as [|c s IH]; intros k Hk; [by destruct k|].
  destruct k as [|k]; cbn in Hk; [lia|]. cbn. f_equal. apply IH. lia.
Qed.

Lemma parse_nanos_spec F ns :
  (String.length F <= 9)%nat ->
  (digits_value F * 10 ^ N.of_nat (9 - String.length F))%N = ns ->
  parse_nanos F = ns.
Proof.
  intros Hl Hv. unfold parse_nanos. cbv zeta.
  by rewrite substring_short by exact Hl.
Qed.

(** The zone: [Z] for UTC, otherwise a sign, hours and minutes. *)
Lemma zone_string_spec z :
  Z.abs z < 24 * 60 -> z <> 0 ->
  zone_string z
  = String (if z <? 0 then "-"%char else "+"%char)
      (fixed 2 (Z.abs_N z / 60) ++ ":" ++ fixed 2 (Z.abs_N z mod 60)).
Proof.
  intros Hz H0. unfold zone_string.
  rewrite (proj2 (Z.eqb_neq z 0)) by exact H0.
  assert (Z.abs_N z < 1440)%N by lia.
  rewrite !digits_w_2.
  - by destruct (z <? 0).
  - pose proof (N.mod_upper_bound (Z.abs_N z) 60). lia.
  - apply N.Div0.div_lt_upper_bound. lia.
Qed.

Lemma zone_string_head z :
  exists c r, zone_string z = String c r /\ is_digit c = false
    /\ c <> "."%char.
Proof.
  unfold zone_string. destruct (z =? 0); [by eexists _, _|].
  destruct (z <? 0); by eexists _, _.
Qed.

Lemma substring_0_0 (s : string) : substring 0 0 s = "".
Proof. by destruct s. Qed.

Lemma span_digits_zone (F : string) z :
  all_digits F = true -> span_digits (F ++ zone_string z) = (F, zone_string z).
Proof.
  intros HF. destruct (zone_string_head z) as (c & r & -> & Hc & _).
  by apply span_digits_app.
Qed.

(** What [parseRFC3339] finds after the seconds. *)
Lemma parse_fraction ns z :
  (ns < 10 ^ 9)%N ->
  match frac_string ns ++ zone_string z with
  | String "." (String c r) =>
    if is_digit c
    then let '(ds, rest') := span_digits (String c r) in (parse_nanos ds, rest')
    else (0%N, frac_string ns ++ zone_string z)
  | _ => (0%N, frac_string ns ++ zone_string z)
  end = (ns, zone_string z).
Proof.
  intros Hns. destruct (N.eq_dec ns 0%N) as [->|Hpos].
  - cbn [frac_string N.eqb String.append].
    destruct (zone_string_head z) as (c & r & -> & _ & Hc).
    destruct c as [[] [] [] [] [] [] [] []]; try reflexivity; congruence.
  - destruct (frac_string_spec ns) as (F & -> & HF & Ha & Hl & Hv); [lia|].
    destruct F as [|c0 r0] eqn:EF; [done|]. cbn [String.append].
    pose proof Ha as Ha'. rewrite all_digits_cons in Ha'.
    apply andb_prop in Ha' as [Hc0 _]. rewrite Hc0.
    change (String c0 (r0 ++ zone_string z))
      with (String c0 r0 ++ zone_string z).
    rewrite span_digits_zone by exact Ha.
    by rewrite (parse_nanos_spec _ ns).
Qed.

Lemma time_roundtrip t :
  valid_time t ->
  exists c, time_format t = Some c /\ time_parse c = Some t.
Proof.
  destruct t as [y mo d h mi se ns z]. unfold valid_time.
  cbn [t_year t_month t_day t_hour t_minute t_second t_nsec t_zone].
  intros (Hy & Hmo & Hd & Hh & Hmi & Hse & Hns & Hz).
  unfold time_format.
  cbn [t_year t_month t_day t_hour t_minute t_second t_nsec t_zone].
  assert ((y <? 0) || (9999 <? y) || (24 * 60 <=? Z.abs z) = false) as ->.
  { rewrite (proj2 (Z.ltb_ge y 0)), (proj2 (Z.ltb_ge 9999 y)) by lia.
    apply Z.leb_gt. lia. }
  eexists. split; [reflexivity|].
  assert (Hd' : (d <= 31)%N).
  { unfold daysIn in Hd. repeat case_match; lia. }
  rewrite digits_w_4, !digits_w_2 by lia.
  pose proof (parse_fraction ns z Hns) as Hfrac.
  set (tail := frac_string ns ++ zone_string z) in *.
  pose proof (length_fixed 4 (Z.to_N y)) as LY.
  pose proof (length_fixed 2 mo) as LMo. pose proof (length_fixed 2 d) as LD.
  pose proof (length_fixed 2 h) as LH. pose proof (length_fixed 2 mi) as LMi.
  pose proof (length_fixed 2 se) as LSe.
  pose proof (parseUint_fixed 4 (Z.to_N y) 0 9999 ltac:(lia) ltac:(lia)) as PY.
  pose proof (parseUint_fixed 2 mo 1 12 ltac:(lia) ltac:(lia)) as PMo.
  pose proof (parseUint_fixed 2 d 1 (daysIn mo y) ltac:(lia) ltac:(lia)) as PD.
  pose proof (parseUint_fixed 2 h 0 23 ltac:(lia) ltac:(lia)) as PH.
  pose proof (parseUint_fixed 2 mi 0 59 ltac:(lia) ltac:(lia)) as PMi.
  pose proof (parseUint_fixed 2 se 0 59 ltac:(lia) ltac:(lia)) as PSe.
  destruct (fixed 4 (Z.to_N y)) as [|y3 [|y2 [|y1 [|y0 [|]]]]]; try discriminate LY.
  destruct (fixed 2 mo) as [|mo1 [|mo0 [|]]]; try discriminate LMo.
  destruct (fixed 2 d) as [|d1 [|d0 [|]]]; try discriminate LD.
  destruct (fixed 2 h) as [|h1 [|h0 [|]]]; try discriminate LH.
  destruct (fixed 2 mi) as [|mi1 [|mi0 [|]]]; try discriminate LMi.
  destruct (fixed 2 se) as [|se1 [|se0 [|]]]; try discriminate LSe.
  clear LY LMo LD LH LMi LSe.
  cbn [String.append]. unfold time_parse.
  cbn [String.length Nat.ltb Nat.leb substring byte_at String.get].
  rewrite substring_0_0, PY, PMo. cbn [mbind option_bind].
  rewrite Z2N.id, PD, PH, PMi, PSe by lia. cbn [mbind option_bind].
  rewrite !bool_decide_true by reflexivity. cbn [andb negb].
  rewrite !drop_bytes_cons, drop_bytes_0, Hfrac.
  destruct (decide (z = 0)) as [->|H0]; [reflexivity|].
  rewrite zone_string_spec by assumption.
  assert (Hzh : (Z.abs_N z / 60 < 24)%N)
    by (apply N.Div0.div_lt_upper_bound; lia).
  pose proof (N.mod_upper_bound (Z.abs_N z) 60 ltac:(lia)) as Hzm.
  pose proof (N.div_mod (Z.abs_N z) 60 ltac:(lia)) as Hdm.
  set (zh := (Z.abs_N z / 60)%N) in *. set (zm := (Z.abs_N z mod 60)%N) in *.
  clearbody zh zm.
  pose proof (length_fixed 2 zh) as LZh. pose proof (length_fixed 2 zm) as LZm.
  pose proof (parseUint_fixed 2 zh 0 23 ltac:(lia) ltac:(lia)) as PZh.
  pose proof (parseUint_fixed 2 zm 0 59 ltac:(lia) ltac:(lia)) as PZm.
  destruct (fixed 2 zh) as [|a1 [|a0 [|]]]; try discriminate LZh.
  destruct (fixed 2 zm) as [|b1 [|b0 [|]]];
    try discriminate LZm.
  cbn [String.append String.length Nat.eqb negb substring byte_at String.get].
  rewrite bool_decide_false by discriminate.
  rewrite PZh, PZm. cbn [mbind option_bind].
  rewrite bool_decide_true by reflexivity.
  destruct (Z.ltb_spec z 0).
  - rewrite bool_decide_true by reflexivity. do 2 f_equal. lia.
  - rewrite bool_decide_false by discriminate.
    rewrite bool_decide_true by reflexivity. do 2 f_equal. lia.
Qed.

(** ** The parser on the text that [json.MarshalIndent] writes *)

Lemma dquote_eq : dquote = Ascii false true false false false true false false.
Proof. reflexivity. Qed.

Lemma parse_value_string f (s raw X : string) :
  skip_ws s = String dquote (raw ++ qt ++ X) ->
  scan_string (raw ++ qt ++ X) = Some (raw, X) ->
  parse_value (S f) s = Some (JString raw, X).
Proof.
  intros Hs Hscan. cbn [parse_value]. rewrite Hs.
  rewrite !(bool_decide_false (dquote = _)) by (rewrite dquote_eq; discriminate).
  rewrite bool_decide_true by reflexivity. by rewrite Hscan.
Qed.

(** A string value after blanks. *)
Lemma parse_value_quote f (s : string) :
  utf8_ValidString s = true ->
  exists raw, json_unquote raw = Some s
    /\ (forall X, parse_value (S f) (" " ++ json_quote s ++ X)
                  = Some (JString raw, X))
    /\ (forall X, parse_value (S f) (newline ++ "    " ++ json_quote s ++ X)
                  = Some (JString raw, X)).
Proof.
  intros (raw & Hq & Hscan & Hun)%json_quote_spec. exists raw.
  split; [exact Hun|]. rewrite Hq.
  split; intros X; apply parse_value_string; rewrite ?append_assoc;
    first [reflexivity|apply Hscan].
Qed.

Lemma int_literal_head z :
  exists c r, int_literal z = String c r
    /\ (c = "-"%char \/ is_digit c = true).
Proof.
  unfold int_literal. destruct (z <? 0); [by eexists _, _; eauto|].
  cbn [String.append]. pose proof (all_digits_decimal (Z.abs_N z)) as Ha.
  destruct (decimal_fuel_head (N.to_nat (N.log2 (Z.abs_N z))) (Z.abs_N z))
    as (c & r & Hd & _).
  unfold decimal in *. rewrite Hd in *. rewrite all_digits_cons in Ha.
  apply andb_prop in Ha as [Ha _]. eauto.
Qed.

(** A number value after a blank, in front of a comma. *)
Lemma parse_value_number f z (X : string) :
  parse_value (S f) (" " ++ int_literal z ++ String "," X)
  = Some (JNumber (int_literal z), String "," X).
Proof.
  pose proof (scan_number_literal z X) as Hscan.
  destruct (int_literal_head z) as (c & r & Hl & Hc).
  rewrite Hl in *. cbn [parse_value String.append skip_ws].
  change (is_json_space " ") with true. cbv iota.
  assert (Hsp : is_json_space c = false).
  { destruct Hc as [->|Hc]; [reflexivity|].
    destruct c as [[] [] [] [] [] [] [] []]; try discriminate Hc; reflexivity. }
  rewrite Hsp.
  assert (Hb : bool_decide (c = "{"%char) = false
               /\ bool_decide (c = "["%char) = false
               /\ bool_decide (c = dquote) = false
               /\ bool_decide (c = "-"%char) || is_digit c = true).
  { destruct Hc as [->|Hc]; [by repeat split|].
    rewrite Hc, orb_true_r.
    split_and!; try done; apply bool_decide_false; intros ->;
      discriminate Hc. }
  destruct Hb as (-> & -> & -> & ->).
  cbn [String.append] in Hscan. by rewrite Hscan.
Qed.

Lemma skip_ws_comma (Y : string) : skip_ws ("," ++ Y) = String "," Y.
Proof. reflexivity. Qed.

Lemma parse_elems_cons f v (s X : string) vs R :
  parse_value f s = Some (v, String "," X) ->
  parse_elems f X = Some (vs, R) ->
  parse_elems (S f) s = Some (v :: vs, R).
Proof.
  intros Hv Hr. cbn [parse_elems]. rewrite Hv. cbn [mbind option_bind].
  change (skip_ws (String "," X)) with (String ","%char X).
  cbn [mbind option_bind]. by rewrite Hr.
Qed.

Lemma parse_elems_last f v (s X R : string) :
  parse_value f s = Some (v, X) ->
  skip_ws X = String "]" R ->
  parse_elems (S f) s = Some ([v], R).
Proof.
  intros Hv Hr. cbn [parse_elems]. rewrite Hv. cbn [mbind option_bind].
  by rewrite Hr.
Qed.

(** The elements of the [tags] array. *)
Lemma parse_elems_strings (raws : list string) :
  Forall (fun raw => forall X, scan_string (raw ++ qt ++ X) = Some (raw, X))
         raws ->
  raws <> [] ->
  forall f (R : string), (length raws < f)%nat ->
  parse_elems f (newline ++ "    "
                 ++ strings_Join (map (fun raw => qt ++ raw ++ qt) raws)
                      ("," ++ newline ++ "    ")
                 ++ newline ++ "  ]" ++ R)
  = Some (JString <$> raws, R).
Proof.
  induction 1 as [|raw raws Hraw Hraws IH]; intros Hne f R Hf; [done|].
  destruct f as [|[|f]]; cbn [length] in Hf; try lia.
  destruct raws as [|raw' raws].
  - cbn [map strings_Join]. rewrite !append_assoc.
    apply (parse_elems_last _ (JString raw) _ (newline ++ "  ]" ++ R));
      [|reflexivity].
    apply parse_value_string; [reflexivity|apply Hraw].
  - pose proof (IH ltac:(done) (S f) R ltac:(cbn [length] in *; lia)) as IH'.
    cbn [map] in IH' |- *. rewrite Join_cons2, !append_assoc.
    eapply parse_elems_cons; [|exact IH'].
    apply parse_value_string; [reflexivity|apply (Hraw (String "," _))].
Qed.

Lemma parse_value_array f (s r : string) vs R :
  skip_ws s = String "[" r ->
  (exists Y, skip_ws r = String dquote Y) ->
  parse_elems f r = Some (vs, R) ->
  parse_value (S f) s = Some (JArray vs, R).
Proof.
  intros Hs [Y Hr] He. cbn [parse_value]. rewrite Hs.
  rewrite bool_decide_false by discriminate.
  rewrite bool_decide_true by reflexivity.
  rewrite Hr, He, dquote_eq. reflexivity.
Qed.

Lemma parse_value_object f (s r : string) ms R :
  skip_ws s = String "{" r ->
  (exists Y, skip_ws r = String dquote Y) ->
  parse_members f r = Some (ms, R) ->
  parse_value (S f) s = Some (JObject ms, R).
Proof.
  intros Hs [Y Hr] He. cbn [parse_value]. rewrite Hs.
  rewrite bool_decide_true by reflexivity.
  rewrite Hr, He, dquote_eq. reflexivity.
Qed.

Lemma parse_members_cons f k v (V X : string) ms R :
  plain_key k ->
  parse_value f (" " ++ V ++ "," ++ X) = Some (v, "," ++ X) ->
  parse_members f X = Some (ms, R) ->
  parse_members (S f) (newline ++ "  " ++ json_key k ++ V ++ "," ++ X)
  = Some ((k, v) :: ms, R).
Proof.
  intros Hk Hv Hm. unfold json_key. rewrite !append_assoc.
  cbn [parse_members].
  change (skip_ws (newline ++ "  " ++ qt ++ k ++ qt ++ ": " ++ V ++ "," ++ X))
    with (String dquote (k ++ qt ++ ": " ++ V ++ "," ++ X)).
  cbn [mbind option_bind].
  rewrite bool_decide_true by reflexivity. rewrite Hk.
  cbn [mbind option_bind].
  change (skip_ws (": " ++ V ++ "," ++ X))
    with (String ":"%char (" " ++ V ++ "," ++ X)).
  cbn [mbind option_bind]. rewrite Hv. cbn [mbind option_bind].
  change (skip_ws ("," ++ X)) with (String ","%char X).
  cbn [mbind option_bind]. by rewrite Hm.
Qed.

Lemma parse_members_last f k v (V R : string) :
  plain_key k ->
  parse_value f (" " ++ V ++ newline ++ "}" ++ R)
  = Some (v, newline ++ "}" ++ R) ->
  parse_members (S f) (newline ++ "  " ++ json_key k ++ V ++ newline ++ "}" ++ R)
  = Some ([(k, v)], R).
Proof.
  intros Hk Hv. unfold json_key. rewrite !append_assoc.
  cbn [parse_members].
  change (skip_ws (newline ++ "  " ++ qt ++ k ++ qt ++ ": " ++ V
                   ++ newline ++ "}" ++ R))
    with (String dquote (k ++ qt ++ ": " ++ V ++ newline ++ "}" ++ R)).
  cbn [mbind option_bind].
  rewrite bool_decide_true by reflexivity. rewrite Hk.
  cbn [mbind option_bind].
  change (skip_ws (": " ++ V ++ newline ++ "}" ++ R))
    with (String ":"%char (" " ++ V ++ newline ++ "}" ++ R)).
  cbn [mbind option_bind]. rewrite Hv. reflexivity.
Qed.

(** The literals of a list of tags. *)
Lemma json_quote_all (tags : list string) :
  Forall (fun t => utf8_ValidString t = true) tags ->
  exists raws,
    map json_quote tags = map (fun raw => qt ++ raw ++ qt) raws
    /\ Forall (fun raw => forall X, scan_string (raw ++ qt ++ X) = Some (raw, X))
              raws
    /\ mapM decode_tag (JString <$> raws) = Some tags
    /\ length raws = length tags.
Proof.
  induction 1 as [|t tags Ht _ (raws & Hq & Hs & Hd & Hl)].
  { by exists []. }
  destruct (json_quote_spec t Ht) as (raw & Hq' & Hs' & Hu).
  exists (raw :: raws). split_and!.
  - cbn [map]. by rewrite Hq, Hq'.
  - by constructor.
  - rewrite fmap_cons. cbn [mapM decode_tag decode_string].
    rewrite Hu. cbn [mbind option_bind]. rewrite Hd. reflexivity.
  - cbn [length]. by rewrite Hl.
Qed.

Lemma parse_value_tags f (tags : list string) (X : string) :
  Forall (fun t => utf8_ValidString t = true) tags ->
  (length tags + 1 < f)%nat ->
  exists raws, mapM decode_tag (JString <$> raws) = Some tags
    /\ parse_value f (" " ++ json_tags tags ++ X)
       = Some (JArray (JString <$> raws), X).
Proof.
  intros (raws & Hq & Hs & Hd & Hl)%json_quote_all Hf. exists raws.
  split; [exact Hd|]. destruct f as [|f]; [lia|].
  destruct tags as [|t tags].
  - destruct raws; [|discriminate Hl]. reflexivity.
  - unfold json_tags. rewrite Hq. destruct raws as [|raw raws]; [discriminate Hl|].
    rewrite !append_assoc.
    apply (parse_value_array f _
             (newline ++ "    "
              ++ strings_Join (map (fun raw => qt ++ raw ++ qt) (raw :: raws))
                   ("," ++ newline ++ "    ")
              ++ newline ++ "  ]" ++ X)).
    + reflexivity.
    + cbn [map]. destruct raws; eexists; reflexivity.
    + apply parse_elems_strings; [exact Hs|done|]. cbn [length] in *. lia.
Qed.

Lemma scan_plain (s X : string) :
  plain s = true -> scan_string (s ++ qt ++ X) = Some (s, X).
Proof.
  unfold plain. induction s as [|c s IH]; intros Hp; [reflexivity|].
  cbn [list_ascii_of_string forallb] in Hp.
  apply andb_prop in Hp as [Hc Hs]. unfold plain_char in Hc.
  apply andb_prop in Hc as [[H1 H2]%andb_prop H3].
  apply negb_true_iff in H1, H2, H3.
  cbn [String.append scan_string]. rewrite H1, H2, H3, IH by exact Hs.
  reflexivity.
Qed.

Lemma plain_app (a b : string) : plain (a ++ b) = plain a && plain b.
Proof.
  unfold plain. induction a as [|c a IH]; [reflexivity|].
  cbn [String.append list_ascii_of_string forallb]. by rewrite IH, andb_assoc.
Qed.

Lemma plain_cons c (s : string) : plain (String c s) = plain_char c && plain s.
Proof. reflexivity. Qed.

Lemma plain_digits (s : string) : all_digits s = true -> plain s = true.
Proof.
  unfold all_digits, plain. induction s as [|c s IH]; [done|].
  cbn [list_ascii_of_string forallb]. intros [Hc Hs]%andb_prop.
  rewrite IH by exact Hs. rewrite andb_true_r.
  apply in_range_bounds in Hc. unfold plain_char.
  rewrite !bool_decide_false, ltb_false_ge; [done|lia|..];
    intros ->; vm_compute in Hc; destruct Hc as [Hc1 Hc2];
    first [by apply Hc1|by apply Hc2].
Qed.

Lemma all_digits_digits_w k n : all_digits (digits_w k n) = true.
Proof.
  unfold digits_w, pad_left.
  by rewrite all_digits_app, all_digits_zeros, all_digits_decimal.
Qed.

Lemma plain_digits_w k n : plain (digits_w k n) = true.
Proof. apply plain_digits, all_digits_digits_w. Qed.

Lemma time_format_plain t c :
  valid_time t -> time_format t = Some c -> plain c = true.
Proof.
  intros (_ & _ & _ & _ & _ & _ & Hns & Hz). unfold time_format.
  destruct (_ || _); [discriminate|]. intros [= <-].
  repeat first [rewrite plain_app|rewrite plain_cons|rewrite plain_digits_w].
  assert (plain (frac_string (t_nsec t)) = true) as ->.
  { destruct (N.eq_dec (t_nsec t) 0%N) as [->|Hpos]; [reflexivity|].
    destruct (frac_string_spec (t_nsec t)) as (F & -> & _ & Ha & _); [lia|].
    cbn [String.append]. by rewrite plain_cons, plain_digits. }
  assert (plain (zone_string (t_zone t)) = true) as ->.
  { unfold zone_string. destruct (_ =? _); [reflexivity|].
    repeat first [rewrite plain_app|rewrite plain_cons|rewrite plain_digits_w].
    by destruct (_ <? _). }
  reflexivity.
Qed.

Lemma parse_members_last_string f k (raw R : string) :
  plain_key k ->
  (forall X, scan_string (raw ++ qt ++ X) = Some (raw, X)) ->
  parse_members (S (S f))
    (newline ++ "  " ++ json_key k ++ qt ++ raw ++ qt ++ newline ++ "}" ++ R)
  = Some ([(k, JString raw)], R).
Proof.
  intros Hk Hraw.
  pose proof (parse_members_last (S f) k (JString raw) (qt ++ raw ++ qt) R Hk)
    as H.
  rewrite !append_assoc in H. apply H.
  apply parse_value_string; [reflexivity|apply Hraw].
Qed.

(** ** Decoding the members *)

Lemma decode_id n lit i :
  strconv_Atoi lit = Some i ->
  decode_field n ("id", JNumber lit)
  = Some {| ID := i; Title := Title n; Body := Body n; Tags := Tags n;
            Created := Created n |}.
Proof.
  intros H. unfold decode_field.
  change (json_unquote "id") with (Some "id"). cbn [mbind option_bind].
  change (foldName "id") with "ID".
  rewrite bool_decide_true by reflexivity. by rewrite H.
Qed.

Lemma decode_title n raw s :
  json_unquote raw = Some s ->
  decode_field n ("title", JString raw)
  = Some {| ID := ID n; Title := s; Body := Body n; Tags := Tags n;
            Created := Created n |}.
Proof.
  intros H. unfold decode_field.
  change (json_unquote "title") with (Some "title"). cbn [mbind option_bind].
  change (foldName "title") with "TITLE".
  rewrite bool_decide_false by discriminate.
  rewrite bool_decide_true by reflexivity.
  cbn [decode_string]. by rewrite H.
Qed.

Lemma decode_body n raw s :
  json_unquote raw = Some s ->
  decode_field n ("body", JString raw)
  = Some {| ID := ID n; Title := Title n; Body := s; Tags := Tags n;
            Created := Created n |}.
Proof.
  intros H. unfold decode_field.
  change (json_unquote "body") with (Some "body"). cbn [mbind option_bind].
  change (foldName "body") with "BODY".
  rewrite !(bool_decide_false ("BODY" = _)) by discriminate.
  rewrite bool_decide_true by reflexivity.
  cbn [decode_string]. by rewrite H.
Qed.

Lemma decode_tags n vs ts :
  mapM decode_tag vs = Some ts ->
  decode_field n ("tags", JArray vs)
  = Some {| ID := ID n; Title := Title n; Body := Body n; Tags := ts;
            Created := Created n |}.
Proof.
  intros H. unfold decode_field.
  change (json_unquote "tags") with (Some "tags"). cbn [mbind option_bind].
  change (foldName "tags") with "TAGS".
  rewrite !(bool_decide_false ("TAGS" = _)) by discriminate.
  rewrite bool_decide_true by reflexivity. by rewrite H.
Qed.

Lemma decode_created n raw t :
  time_parse raw = Some t ->
  decode_field n ("created", JString raw)
  = Some {| ID := ID n; Title := Title n; Body := Body n; Tags := Tags n;
            Created := t |}.
Proof.
  intros H. unfold decode_field.
  change (json_unquote "created") with (Some "created").
  cbn [mbind option_bind]. change (foldName "created") with "CREATED".
  rewrite !(bool_decide_false ("CREATED" = _)) by discriminate.
  rewrite bool_decide_true by reflexivity. by rewrite H.
Qed.

(** ** The whole document *)

Lemma length_json_quote (s : string) : (1 <= String.length (json_quote s))%nat.
Proof. unfold json_quote, qt. cbn [String.append String.length]. lia. Qed.

Lemma length_Join_ge (l : list string) (sep : string) :
  Forall (fun s => (1 <= String.length s)%nat) l ->
  (length l <= String.length (strings_Join l sep))%nat.
Proof.
  induction 1 as [|a l Ha Hl IH]; [done|].
  destruct l as [|b l]; [cbn in *; lia|].
  rewrite Join_cons2, !length_append. cbn [length] in *. lia.
Qed.

Lemma length_json_tags (tags : list string) :
  (length tags <= String.length (json_tags tags))%nat.
Proof.
  destruct tags as [|t tags]; [cbn; lia|]. unfold json_tags.
  rewrite !length_append.
  pose proof (length_Join_ge (map json_quote (t :: tags))
                ("," ++ newline ++ "    ")) as H.
  rewrite length_map in H.
  assert (Forall (fun s => (1 <= String.length s)%nat)
            (map json_quote (t :: tags))).
  { apply Forall_map, Forall_forall. intros ? _. apply length_json_quote. }
  specialize (H ltac:(done)). lia.
Qed.

Lemma plain_key_id : plain_key "id".
Proof. intros Y. reflexivity. Qed.
Lemma plain_key_title : plain_key "title".
Proof. intros Y. reflexivity. Qed.
Lemma plain_key_body : plain_key "body".
Proof. intros Y. reflexivity. Qed.
Lemma plain_key_tags : plain_key "tags".
Proof. intros Y. reflexivity. Qed.
Lemma plain_key_created : plain_key "created".
Proof. intros Y. reflexivity. Qed.

(** Every note that Go can hold is read back from its serialization. *)
Lemma valid_note_roundtrips (n : Note) : valid_note n -> roundtrips n.
Proof.
  destruct n as [id title body tags created].
  unfold valid_note. cbn [ID Title Body Tags Created].
  intros (Hid & Ht & Hb & Htags & Hc).
  destruct (time_roundtrip created Hc) as (c & Hfmt & Hparse).
  pose proof (time_format_plain created c Hc Hfmt) as Hplain.
  unfold roundtrips, json_MarshalIndent. cbn [ID Title Body Tags Created].
  rewrite Hfmt. cbn [mbind option_bind]. eexists. split; [reflexivity|].
  rewrite <- (append_assoc (if id <? 0 then "-" else "") (decimal (Z.abs_N id))).
  change ((if id <? 0 then "-" else "") ++ decimal (Z.abs_N id))
    with (int_literal id).
  unfold json_Unmarshal, json_parse.
  match goal with |- context [parse_value (2 * String.length ?D + 2) _] =>
    set (doc := D) end.
  assert (Hlen : (length tags + 3 <= String.length doc)%nat).
  { unfold doc. rewrite !length_append.
    pose proof (length_json_tags tags). cbn [String.length]. lia. }
  assert (Hfuel : exists f, (2 * String.length doc + 2)%nat
                            = S (S (S (S (S (S (S f))))))
                            /\ (length tags <= f)%nat).
  { exists (2 * String.length doc + 2 - 7)%nat. lia. }
  destruct Hfuel as (f & -> & Hf). clear Hlen. unfold doc. clear doc.
  destruct (parse_value_quote (S (S (S f))) title Ht) as (rawT & HuT & HpT & _).
  destruct (parse_value_quote (S (S f)) body Hb) as (rawB & HuB & HpB & _).
  destruct (parse_value_tags (S (S f)) tags
              ("," ++ newline ++ "  " ++ json_key "created" ++ qt ++ c ++ qt
               ++ newline ++ "}") Htags ltac:(lia)) as (raws & Hdec & HpTags).
  erewrite parse_value_object; [| reflexivity | by eexists |].
  2:{ apply parse_members_cons; [apply plain_key_id|apply parse_value_number|].
      apply parse_members_cons; [apply plain_key_title|apply HpT|].
      apply parse_members_cons; [apply plain_key_body|apply HpB|].
      apply parse_members_cons; [apply plain_key_tags|apply HpTags|].
      apply (parse_members_last_string _ "created" c "");
        [apply plain_key_created|]. intros X. by apply scan_plain. }
  cbn [mbind option_bind skip_ws decode_members].
  rewrite (decode_id _ _ id) by (by apply Atoi_literal).
  cbn [mbind option_bind ID Title Body Tags Created].
  rewrite (decode_title _ _ title) by exact HuT.
  cbn [mbind option_bind ID Title Body Tags Created].
  rewrite (decode_body _ _ body) by exact HuB.
  cbn [mbind option_bind ID Title Body Tags Created].
  rewrite (decode_tags _ _ tags) by exact Hdec.
  cbn [mbind option_bind ID Title Body Tags Created].
  rewrite (decode_created _ _ created) by exact Hparse.
  reflexivity.
Qed.

(** ** Notes come back from their files *)

(** X22.  Every note that Go can hold (an id within [int], texts of
    well-formed UTF-8 and a time with a year from 0 to 9999) has a
    serialization, and [json.Unmarshal] on that serialization gives the
    note back, field by field: nothing is lost in the escapes for
    quotes, control bytes, [<], [>], [&], U+2028 and U+2029, in the sign
    of the id, in the trailing zeros of the fraction of a second, or in
    the zone. *)
Theorem marshal_roundtrip (n : Note) (Hvalid : valid_note n) :
  exists b, json_MarshalIndent n = Some b /\ json_Unmarshal b = Some n.
Proof. exact (valid_note_roundtrips n Hvalid). Qed.

Lemma marshal_roundtrip_witness :
  exists b, json_MarshalIndent unicode_note = Some b
            /\ json_Unmarshal b = Some unicode_note.
Proof.
  apply (marshal_roundtrip unicode_note).
  unfold valid_note. split_and!.
  - unfold in_int64, minInt64, maxInt64. cbn. lia.
  - vm_compute. reflexivity.
  - vm_compute. reflexivity.
  - repeat constructor.
  - unfold valid_time. repeat split; by vm_compute.
Defined.

(** X23.  What [saveNote] has stored is what [loadNote] returns: after a
    successful save of a note that Go can hold, a load of its id whose
    read does not fail gives the same note and leaves the store as it
    is, whatever the store held before. *)
Theorem save_then_load (f f' : faults) (n : Note) (w w' : store)
    (Hvalid : valid_note n)
    (Hsave : saveNote f n w = (Ok tt, w'))
    (Hread : read_fails f' (noteName (ID n)) = false) :
  loadNote f' (ID n) w' = (Ok n, w').
Proof.
  apply (load_after_save f f' n w w' Hsave); [|exact Hread].
  by apply valid_note_roundtrips.
Qed.

Lemma save_then_load_witness :
  loadNote no_faults 12 (saveNote no_faults unicode_note sample_store).2
  = (Ok unicode_note, (saveNote no_faults unicode_note sample_store).2).
Proof.
  apply (save_then_load no_faults no_faults unicode_note sample_store
           (saveNote no_faults unicode_note sample_store).2).
  - unfold valid_note. split_and!.
    + unfold in_int64, minInt64, maxInt64. cbn. lia.
    + vm_compute. reflexivity.
    + vm_compute. reflexivity.
    + repeat constructor.
    + unfold valid_time. repeat split; by vm_compute.
  - vm_compute. reflexivity.
  - reflexivity.
Defined.
